(** * Smart Event Manager: validation, scheduling and snapshot import

    A shallow embedding of [src/event-system.cpp] (class [EventManager] and
    its helpers) together with the properties of its validation and
    scheduling engine.

    Conventions of the embedding.
    - [int] is a 32-bit signed integer, carried as [Z]; the two places where
      the source can overflow it ([nextId++] and [maxId+1]) are undefined
      behaviour in C++ and are modelled as such.
    - [std::string] is [string]; a character is an [ascii], read as an
      [unsigned char] by [code].
    - A computation that can throw ([std::stoi], [std::string::substr]) or
      can leave defined behaviour ([operator[]] past the end of a string,
      signed overflow) lives in the [result] monad.
    - [std::cout] is a list of printed lines (each entry is the text that
      precedes one newline).
    - [std::cin] is the list of lines the caller types: the five answers of
      an edit, the pasted rows of an import.  The operations take these
      lines as arguments; [main] reads them from a stream of lines
      ([Cin]) with the end-of-input behaviour of [std::getline].
    - The operations that only print ([listAll], [dayView], [search]) give
      the rows in the order printed; [print_table] is their text.
    - [today()] is not embedded: the date it reads from the system clock
      is an argument of [todaysEvents] and of [main].  *)

From Stdlib Require Import ZArith List Bool Ascii String Lia.
From Stdlib Require Import Permutation Sorted DecimalString OrderedTypeEx.
From Stdlib Require Import DecimalPos.
Import ListNotations.

Local Open Scope string_scope.
Local Open Scope Z_scope.

(** ** Results of computations that may throw or be undefined *)

Inductive exn : Type :=
| invalid_argument
| out_of_range.

(** [Ret a]: the call returns [a].  [Raise e]: it leaves by an uncaught
    exception.  [UB]: it leaves defined behaviour.  [OutOfFuel] belongs to
    the embedding only: a loop of the model ran out of its iteration budget
    (shown below never to happen). *)
Inductive result (A : Type) : Type :=
| Ret (a : A)
| Raise (e : exn)
| UB
| OutOfFuel.

Arguments Ret {A} a.
Arguments Raise {A} e.
Arguments UB {A}.
Arguments OutOfFuel {A}.

Definition bind {A B : Type} (m : result A) (k : A -> result B) : result B :=
  match m with
  | Ret a => k a
  | Raise e => Raise e
  | UB => UB
  | OutOfFuel => OutOfFuel
  end.

Notation "x <- m ;; k" := (bind m (fun x => k))
  (at level 61, m at next level, right associativity).

(** [a || b] of C++ over computations: [b] is only consulted when [a] is
    false. *)
Definition orM (a b : result bool) : result bool :=
  x <- a ;; if x then Ret true else b.

Definition andM (a b : result bool) : result bool :=
  x <- a ;; if x then b else Ret false.

(** ** Machine integers *)

Definition INT_MAX : Z := 2147483647.
Definition INT_MIN : Z := -2147483648.

Definition in_int (z : Z) : bool := (INT_MIN <=? z) && (z <=? INT_MAX).

(** Signed addition: overflow is undefined behaviour. *)
Definition int_add (a b : Z) : result Z :=
  if in_int (a + b) then Ret (a + b) else UB.

(** ** Characters and strings *)

Definition code (c : ascii) : Z := Z.of_nat (nat_of_ascii c).

(** The value of a plain [char] in an arithmetic expression.  Whether plain
    [char] is signed is left to the platform; [char_signed] is the choice,
    and only bytes above 127 are affected by it. *)
Definition char_val (char_signed : bool) (c : ascii) : Z :=
  if 128 <=? code c then (if char_signed then code c - 256 else code c)
  else code c.

Definition isdigit (c : ascii) : bool := (48 <=? code c) && (code c <=? 57).

(** [isspace] in the "C" locale: space, and \t \n \v \f \r. *)
Definition isspace (c : ascii) : bool :=
  (code c =? 32) || ((9 <=? code c) && (code c <=? 13)).

(** [tolower] in the "C" locale. *)
Definition tolower (c : ascii) : ascii :=
  if (65 <=? code c) && (code c <=? 90)
  then ascii_of_nat (nat_of_ascii c + 32) else c.

Fixpoint toLower (s : string) : string :=
  match s with
  | EmptyString => EmptyString
  | String c r => String (tolower c) (toLower r)
  end.

Definition iequals (a b : string) : bool := String.eqb (toLower a) (toLower b).

Definition size (s : string) : Z := Z.of_nat (String.length s).

(** [s[i]]: the character at [i], the terminating NUL at [i = size()], and
    undefined behaviour beyond. *)
Definition idx (s : string) (i : nat) : result ascii :=
  match String.get i s with
  | Some c => Ret c
  | None => if Nat.eqb i (String.length s) then Ret zero else UB
  end.

(** [s.substr(pos, n)]: throws [out_of_range] when [pos > size()]. *)
Definition substr (s : string) (pos n : nat) : result string :=
  if Nat.ltb (String.length s) pos then Raise out_of_range
  else Ret (String.substring pos n s).

(** [text.find(key) != npos]. *)
Fixpoint contains (text key : string) : bool :=
  String.prefix key text ||
  match text with
  | EmptyString => false
  | String _ r => contains r key
  end.

Definition icontains (text key : string) : bool :=
  contains (toLower text) (toLower key).

(** *** [std::stoi] *)

Fixpoint skip_space (s : string) : string :=
  match s with
  | String c r => if isspace c then skip_space r else s
  | EmptyString => s
  end.

Definition digit_val (c : ascii) : Z := code c - 48.

(** Value of the longest prefix of decimal digits, with the number of
    digits consumed. *)
Fixpoint parse_digits (acc : Z) (n : nat) (s : string) : Z * nat :=
  match s with
  | String c r =>
      if isdigit c then parse_digits (10 * acc + digit_val c) (S n) r
      else (acc, n)
  | EmptyString => (acc, n)
  end.

(** [std::stoi(str)] in base 10: leading white space, an optional sign, then
    digits; whatever follows the digits is ignored.  No digit at all throws
    [invalid_argument]; a value that does not fit [int] throws
    [out_of_range]. *)
Definition stoi (s : string) : result Z :=
  let s1 := skip_space s in
  let '(neg, s2) :=
    match s1 with
    | String c r =>
        if Ascii.eqb c "-" then (true, r)
        else if Ascii.eqb c "+" then (false, r)
        else (false, s1)
    | EmptyString => (false, s1)
    end in
  match parse_digits 0 0 s2 with
  | (_, O) => Raise invalid_argument
  | (v, S _) =>
      let v' := if neg then - v else v in
      if in_int v' then Ret v' else Raise out_of_range
  end.

(** [os << std::setw(2) << std::setfill('0') << n] for an [int]. *)
Definition Z_to_string (n : Z) : string := NilZero.string_of_int (Z.to_int n).

Fixpoint fill (k : nat) (c : ascii) : string :=
  match k with
  | O => EmptyString
  | S k' => String c (fill k' c)
  end.

Definition setw_right (w : nat) (c : ascii) (s : string) : string :=
  fill (w - String.length s) c ++ s.

Definition print2 (n : Z) : string := setw_right 2 "0" (Z_to_string n).

(** ** Events *)

Record Event : Type := mkEvent {
  id : Z;
  name : string;
  date : string;
  time : string;
  type : string;
  location : string
}.

(** ** Validation and calendar arithmetic *)

Module EventManager.

Definition isLeap (y : Z) : bool :=
  ((Z.rem y 4 =? 0) && negb (Z.rem y 100 =? 0)) || (Z.rem y 400 =? 0).

Definition mdays : list Z := [0; 31; 28; 31; 30; 31; 30; 31; 31; 30; 31; 30; 31].

(** The loop [for (i=0;i<10;i++)] of [isValidDate], over the indices it
    visits; it answers [false] at the first non-digit outside 2 and 5. *)
Fixpoint all_digits_but_seps (d : string) (ixs : list nat) : result bool :=
  match ixs with
  | [] => Ret true
  | i :: rest =>
      if Nat.eqb i 2 || Nat.eqb i 5 then all_digits_but_seps d rest
      else c <- idx d i ;;
           if negb (isdigit c) then Ret false
           else all_digits_but_seps d rest
  end.

Definition isValidDate (d : string) : result bool :=
  bad <- orM (Ret (negb (size d =? 10)))
             (orM (c <- idx d 2 ;; Ret (negb (Ascii.eqb c "-")))
                  (c <- idx d 5 ;; Ret (negb (Ascii.eqb c "-")))) ;;
  if bad then Ret false else
  digits <- all_digits_but_seps d (seq 0 10) ;;
  if negb digits then Ret false else
  day <- (s <- substr d 0 2 ;; stoi s) ;;
  mon <- (s <- substr d 3 2 ;; stoi s) ;;
  yr <- (s <- substr d 6 4 ;; stoi s) ;;
  if (yr <? 1900) || (yr >? 3000) then Ret false else
  if (mon <? 1) || (mon >? 12) then Ret false else
  let mdays' :=
    if (mon =? 2) && isLeap yr
    then [0; 31; 29; 31; 30; 31; 30; 31; 31; 30; 31; 30; 31] else mdays in
  Ret ((day >=? 1) && (day <=? nth (Z.to_nat mon) mdays' 0)).

(** ** The store *)

Record Store : Type := mkStore {
  events : list Event;
  nextId : Z;
  attendeeEmails : list string
}.

Definition init : Store := mkStore [] 1 [].

Definition set_events (s : Store) (evs : list Event) : Store :=
  mkStore evs (nextId s) (attendeeEmails s).

Definition set_nextId (s : Store) (n : Z) : Store :=
  mkStore (events s) n (attendeeEmails s).

(** What a call leaves behind: its return value, the store, and the lines
    it printed. *)
Record outcome (A : Type) : Type := mkOutcome {
  value : A;
  store : Store;
  printed : list string
}.

Arguments mkOutcome {A} value store printed.
Arguments value {A} o.
Arguments store {A} o.
Arguments printed {A} o.

(** *** [std::sort]

    [std::sort] is the library's and its algorithm is not fixed: every
    permutation of the input in which no element is followed by one that the
    comparator puts strictly before it is a conforming result
    ([sort_result]).  [std_sort] is one conforming implementation (insertion
    from the right), used to run the model.  Which conforming result the
    program gives where the comparator leaves two elements unordered is the
    library's choice; the properties that speak of the order of rows are
    therefore stated for every [sort_result], and the model's own result is
    shown to be one of them. *)

Section Sorting.

Context {A : Type} (comp : A -> A -> result bool).

Definition sort_result (l l' : list A) : Prop :=
  Permutation l l' /\
  forall i j a b, (i < j)%nat ->
    nth_error l' i = Some a -> nth_error l' j = Some b ->
    comp b a = Ret false.

Fixpoint insert_sorted (x : A) (l : list A) : result (list A) :=
  match l with
  | [] => Ret [x]
  | y :: r =>
      c <- comp y x ;;
      if c then (r' <- insert_sorted x r ;; Ret (y :: r'))
      else Ret (x :: l)
  end.

Fixpoint std_sort (l : list A) : result (list A) :=
  match l with
  | [] => Ret []
  | x :: r => r' <- std_sort r ;; insert_sorted x r'
  end.

End Sorting.

Definition pair_lt (p q : Z * Z) : result bool :=
  Ret ((fst p <? fst q) || ((fst p =? fst q) && (snd p <? snd q))).

(** *** Notions used to state the properties *)

(** The text [HH:MM] made of four characters. *)
Definition hhmm (a b c d : ascii) : string :=
  String a (String b (String ":" (String c (String d "")))).

(** The text [DD-MM-YYYY] made of eight characters and two dashes. *)
Definition ddmmyyyy (d1 d2 m1 m2 y1 y2 y3 y4 : ascii) : string :=
  String d1 (String d2 (String "-" (String m1 (String m2 (String "-"
    (String y1 (String y2 (String y3 (String y4 EmptyString))))))))).

(** The order of the keys of [listAll]: by the text first, by the number
    among equal texts. *)
Definition key_less (ka kb : string * Z) : bool :=
  String.ltb (fst ka) (fst kb)
  || (String.eqb (fst ka) (fst kb) && (snd ka <? snd kb)).

(** [key_less] as a proposition. *)
Definition klt (ka kb : string * Z) : Prop :=
  String_as_OT.lt (fst ka) (fst kb) \/ (fst ka = fst kb /\ snd ka < snd kb).

(** Reading a text at a list of positions, in order. *)
Fixpoint read_chars (t : string) (ixs : list nat) : result (list ascii) :=
  match ixs with
  | [] => Ret []
  | i :: rest => c <- idx t i ;; cs <- read_chars t rest ;; Ret (c :: cs)
  end.

Section PlainChar.

(** Signedness of plain [char] on the target. *)
Variable char_signed : bool.

Definition isValidTime (t : string) : result bool :=
  bad <- orM (Ret (negb (size t =? 5)))
             (c <- idx t 2 ;; Ret (negb (Ascii.eqb c ":"))) ;;
  if bad then Ret false else
  nondigit <-
    orM (c <- idx t 0 ;; Ret (negb (isdigit c)))
        (orM (c <- idx t 1 ;; Ret (negb (isdigit c)))
             (orM (c <- idx t 3 ;; Ret (negb (isdigit c)))
                  (c <- idx t 4 ;; Ret (negb (isdigit c))))) ;;
  if nondigit then Ret false else
  t0 <- idx t 0 ;; t1 <- idx t 1 ;; t3 <- idx t 3 ;; t4 <- idx t 4 ;;
  let h := (char_val char_signed t0 - 48) * 10 + (char_val char_signed t1 - 48) in
  let m := (char_val char_signed t3 - 48) * 10 + (char_val char_signed t4 - 48) in
  if (h <? 0) || (h >? 23) then Ret false else
  if (m <? 0) || (m >? 59) then Ret false else
  Ret true.

(** The positions of [t] that [toMinutes] reads, in order. *)
Definition toMinutes_reads : list nat := [0%nat; 1%nat; 3%nat; 4%nat].

Definition toMinutes (t : string) : result Z :=
  t0 <- idx t 0 ;; t1 <- idx t 1 ;; t3 <- idx t 3 ;; t4 <- idx t 4 ;;
  Ret ((char_val char_signed t0 - 48) * 600
       + (char_val char_signed t1 - 48) * 60
       + (char_val char_signed t3 - 48) * 10
       + (char_val char_signed t4 - 48)).


Definition fromMinutes (minutes : Z) : string :=
  let minutes := if minutes <? 0 then 0 else minutes in
  let minutes := Z.rem minutes (24 * 60) in
  let h := Z.quot minutes 60 in
  let m := Z.rem minutes 60 in
  print2 h ++ ":" ++ print2 m.

Definition conflicts (a b : Event) : result bool :=
  if negb (String.eqb (date a) (date b)) then Ret false else
  s1 <- toMinutes (time a) ;;
  let e1 := s1 + 60 in
  s2 <- toMinutes (time b) ;;
  let e2 := s2 + 60 in
  Ret ((s1 <? e2) && (s2 <? e1)).

(** *** Slot suggestion *)

(** [for (const auto& e: events) if (e.date==date) occ.push_back({s,s+60})]. *)
Fixpoint occupied (evs : list Event) (d : string) : result (list (Z * Z)) :=
  match evs with
  | [] => Ret []
  | e :: rest =>
      if String.eqb (date e) d then
        s <- toMinutes (time e) ;;
        occ <- occupied rest d ;;
        Ret ((s, s + 60) :: occ)
      else occupied rest d
  end.

(** The inner loop: does [[t, td)] meet one of the occupied intervals? *)
Fixpoint clashes (occ : list (Z * Z)) (t td : Z) : bool :=
  match occ with
  | [] => false
  | iv :: rest =>
      if negb ((td <=? fst iv) || (t >=? snd iv)) then true
      else clashes rest t td
  end.

(** The outer loop [for (t=start; t+duration<=end && shown<5; t+=30)]; the
    lines it prints, first to last. *)
Fixpoint slots_loop (fuel : nat) (occ : list (Z * Z)) (duration finish : Z)
    (t shown : Z) : result (list string) :=
  match fuel with
  | O => OutOfFuel
  | S fuel' =>
      td <- int_add t duration ;;
      if (td <=? finish) && (shown <? 5) then
        if clashes occ t td then
          t' <- int_add t 30 ;;
          slots_loop fuel' occ duration finish t' shown
        else
          t' <- int_add t 30 ;;
          rest <- slots_loop fuel' occ duration finish t' (shown + 1) ;;
          Ret (("  - " ++ fromMinutes t ++ " to " ++ fromMinutes td) :: rest)
      else Ret []
  end.

(** Iterations the outer loop can need: one per candidate start, and the
    final test that leaves it. *)
Definition slots_fuel (start finish duration : Z) : nat :=
  S (Z.to_nat ((finish - duration - start) / 30 + 1)).

Definition suggestSlots (s : Store) (d : string) (duration : Z)
  : result (list string) :=
  occ <- occupied (events s) d ;;
  occ <- std_sort pair_lt occ ;;
  let start := 8 * 60 in
  let finish := 20 * 60 in
  lines <- slots_loop (slots_fuel start finish duration) occ duration finish
             start 0 ;;
  Ret (("Suggested available slots on " ++ d ++ ":") :: lines ++
       match lines with
       | [] => ["  (No free 1-hour slots found in working window)"]
       | _ :: _ => []
       end).

(** The line [suggestSlots] prints for the slot that starts at [t]. *)
Definition slot_line (duration t : Z) : string :=
  "  - " ++ fromMinutes t ++ " to " ++ fromMinutes (t + duration).

(** No event of [evs] on the date [d] meets [[t, t+duration)]. *)
Definition free_at (evs : list Event) (d : string) (duration t : Z) : Prop :=
  forall e m, In e evs -> date e = d -> toMinutes (time e) = Ret m ->
              t + duration <= m \/ m + 60 <= t.

(** *** Core operations *)

Definition isDuplicate (s : Store) (n d t : string) : bool :=
  existsb (fun e => iequals (name e) n && String.eqb (date e) d
                    && String.eqb (time e) t) (events s).

(** [for (const auto& ex: events) if (conflicts(e,ex)) ...]: the first
    event the candidate conflicts with. *)
Fixpoint first_conflict (e : Event) (evs : list Event) : result (option Event) :=
  match evs with
  | [] => Ret None
  | ex :: rest =>
      c <- conflicts e ex ;;
      if c then Ret (Some ex) else first_conflict e rest
  end.

Definition say (verbose : bool) (lines : list string) : list string :=
  if verbose then lines else [].

Definition addEvent (s : Store) (n d t ty loc : string) (verbose : bool)
  : result (outcome bool) :=
  okd <- isValidDate d ;;
  if negb okd then
    Ret (mkOutcome false s (say verbose ["Invalid date. Use DD-MM-YYYY."]))
  else
  okt <- isValidTime t ;;
  if negb okt then
    Ret (mkOutcome false s (say verbose ["Invalid time. Use HH:MM (24h)."]))
  else
  if isDuplicate s n d t then
    Ret (mkOutcome false s (say verbose ["Duplicate event exists."]))
  else
  (* Event e{nextId++,name,date,time,type,location}; *)
  next <- int_add (nextId s) 1 ;;
  let e := mkEvent (nextId s) n d t ty loc in
  let s := set_nextId s next in
  hit <- first_conflict e (events s) ;;
  match hit with
  | Some ex =>
      if verbose then
        slots <- suggestSlots s d 60 ;;
        Ret (mkOutcome false s
               (("Conflict with Event ID " ++ Z_to_string (id ex) ++ " ("
                 ++ name ex ++ ") at " ++ time ex ++ ".") :: slots))
      else Ret (mkOutcome false s [])
  | None =>
      Ret (mkOutcome true (set_events s (events s ++ [e]))
             (say verbose ["Event added with ID: " ++ Z_to_string (id e)]))
  end.

(** [std::find_if(events.begin(), events.end(), pred)]: the position of
    the first match and the event there; [None] is [events.end()]. *)
Fixpoint find_if (pred : Event -> bool) (evs : list Event)
  : option (nat * Event) :=
  match evs with
  | [] => None
  | e :: rest =>
      if pred e then Some (O, e)
      else match find_if pred rest with
           | Some (i, x) => Some (S i, x)
           | None => None
           end
  end.

(** Assignment through the reference [Event &e = *it]. *)
Fixpoint assign (evs : list Event) (i : nat) (e : Event) : list Event :=
  match evs, i with
  | [], _ => []
  | _ :: rest, O => e :: rest
  | x :: rest, S i' => x :: assign rest i' e
  end.

(** [std::getline(std::cin,in); if(!in.empty()) field=in;] *)
Definition keep_or (current input : string) : string :=
  if String.eqb input "" then current else input.

(** The five lines typed at the prompts of [editEventById]. *)
Record EditInput : Type := mkEditInput {
  in_name : string;
  in_date : string;
  in_time : string;
  in_type : string;
  in_location : string
}.

(** The prompts are printed without a newline, so they and the message
    that follows them make one line. *)
Definition edit_prompts (b : Event) : string :=
  "Name [" ++ name b ++ "]: " ++ "Date [" ++ date b ++ "]: "
  ++ "Time [" ++ time b ++ "]: " ++ "Type [" ++ type b ++ "]: "
  ++ "Location [" ++ location b ++ "]: ".

(** The duplicate loop of [editEventById]. *)
Definition edit_duplicate (e : Event) (evs : list Event) : bool :=
  existsb (fun ex => negb (id ex =? id e) && iequals (name ex) (name e)
                     && String.eqb (date ex) (date e)
                     && String.eqb (time ex) (time e)) evs.

(** The conflict loop of [editEventById]: the first other event in
    conflict with [e]. *)
Fixpoint edit_conflict (e : Event) (evs : list Event) : result (option Event) :=
  match evs with
  | [] => Ret None
  | ex :: rest =>
      c <- andM (Ret (negb (id ex =? id e))) (conflicts e ex) ;;
      if c then Ret (Some ex) else edit_conflict e rest
  end.

Definition editEventById (s : Store) (i : Z) (inp : EditInput)
  : result (outcome bool) :=
  match find_if (fun e => id e =? i) (events s) with
  | None => Ret (mkOutcome false s ["Event not found."])
  | Some (pos, backup) =>
          let e := mkEvent (id backup)
                     (keep_or (name backup) (in_name inp))
                     (keep_or (date backup) (in_date inp))
                     (keep_or (time backup) (in_time inp))
                     (keep_or (type backup) (in_type inp))
                     (keep_or (location backup) (in_location inp)) in
          (* the event is changed in place; [live] is the store meanwhile *)
          let live := set_events s (assign (events s) pos e) in
          let revert := set_events live (assign (events live) pos backup) in
          let head := "Editing Event (leave blank to keep current)" in
          bad <- orM (v <- isValidDate (date e) ;; Ret (negb v))
                     (v <- isValidTime (time e) ;; Ret (negb v)) ;;
          if bad then
            Ret (mkOutcome false revert
                   [head; edit_prompts backup ++ "Invalid date/time. Reverting."])
          else if edit_duplicate e (events live) then
            Ret (mkOutcome false revert
                   [head; edit_prompts backup ++ "Duplicate after edit. Reverting."])
          else
            hit <- edit_conflict e (events live) ;;
            match hit with
            | Some ex =>
                slots <- suggestSlots live (date e) 60 ;;
                Ret (mkOutcome false revert
                       ([head; edit_prompts backup ++ "Conflict after edit with ID "
                                ++ Z_to_string (id ex) ++ ". Reverting."] ++ slots))
            | None =>
                Ret (mkOutcome true live
                       [head; edit_prompts backup ++ "Event updated."])
            end
  end.

(** [events.erase(std::remove_if(..., pred), events.end())]. *)
Definition remove_if (pred : Event -> bool) (evs : list Event) : list Event :=
  filter (fun e => negb (pred e)) evs.

Definition deleteById (s : Store) (i : Z) : outcome bool :=
  let evs := remove_if (fun e => id e =? i) (events s) in
  if Nat.eqb (List.length evs) (List.length (events s))
  then mkOutcome false (set_events s evs) ["No event with that ID."]
  else mkOutcome true (set_events s evs) ["Deleted."].

Definition deleteByName (s : Store) (n : string) : outcome bool :=
  let evs := remove_if (fun e => iequals (name e) n) (events s) in
  if Nat.eqb (List.length evs) (List.length (events s))
  then mkOutcome false (set_events s evs) ["No event with that name."]
  else mkOutcome true (set_events s evs) ["Deleted."].

(** *** Listing *)

(** The lambda [ymd] of [listAll]. *)
Definition ymd (d : string) : result string :=
  y <- substr d 6 4 ;; m <- substr d 3 2 ;; dd <- substr d 0 2 ;;
  Ret (y ++ m ++ dd).

(** The comparator handed to [std::sort] by [listAll]. *)
Definition listAll_less (a b : Event) : result bool :=
  if String.eqb (date a) (date b) then
    ta <- toMinutes (time a) ;; tb <- toMinutes (time b) ;; Ret (ta <? tb)
  else
    ya <- ymd (date a) ;; yb <- ymd (date b) ;; Ret (String.ltb ya yb).

(** [listAll]: the events in the order in which [printEvent] prints them
    ([None] stands for the line "No events."). *)
Definition listAll (s : Store) : result (option (list Event)) :=
  match events s with
  | [] => Ret None
  | _ :: _ => l <- std_sort listAll_less (events s) ;; Ret (Some l)
  end.

(** *** Snapshot import *)

(** The tokens [std::getline(ss,tok,',')] delivers for a line: the pieces
    between commas, without a last empty piece. *)
Fixpoint split_commas (tok rest : string) : list string :=
  match rest with
  | EmptyString => if String.eqb tok "" then [] else [tok]
  | String c r =>
      if Ascii.eqb c "," then tok :: split_commas "" r
      else split_commas (tok ++ String c "") r
  end.

(** [Event e;] *)
Definition default_event : Event := mkEvent 0 "" "" "" "" "".

(** The [switch(col)] over the tokens of one line. *)
Fixpoint read_columns (toks : list string) (col : nat) (e : Event)
  : result Event :=
  match toks with
  | [] => Ret e
  | tok :: rest =>
      e' <- match col with
            | 0%nat => if negb (String.eqb tok "")
                       then (v <- stoi tok ;;
                             Ret (mkEvent v (name e) (date e) (time e) (type e) (location e)))
                       else Ret e
            | 1%nat => Ret (mkEvent (id e) tok (date e) (time e) (type e) (location e))
            | 2%nat => Ret (mkEvent (id e) (name e) tok (time e) (type e) (location e))
            | 3%nat => Ret (mkEvent (id e) (name e) (date e) tok (type e) (location e))
            | 4%nat => Ret (mkEvent (id e) (name e) (date e) (time e) tok (location e))
            | 5%nat => Ret (mkEvent (id e) (name e) (date e) (time e) (type e) tok)
            | _ => Ret e
            end ;;
      read_columns rest (S col) e'
  end.

Definition header : string := "id,name,date,time,type,location".

(** The reading loop of [importSnapshotCSV] over the lines typed; it stops
    at the first empty line.  It returns [temp] and [maxId]. *)
Fixpoint import_loop (lines : list string) (temp : list Event) (maxId : Z)
    (first : bool) : result (list Event * Z) :=
  match lines with
  | [] => Ret (temp, maxId)
  | line :: rest =>
      if size line =? 0 then Ret (temp, maxId)
      else if negb (contains line ",") then import_loop rest temp maxId first
      else if first && contains (toLower line) header
      then import_loop rest temp maxId false
      else
        e <- read_columns (split_commas "" line) 0 default_event ;;
        skip <- orM (Ret ((id e =? 0) || String.eqb (name e) ""))
                    (orM (v <- isValidDate (date e) ;; Ret (negb v))
                         (v <- isValidTime (time e) ;; Ret (negb v))) ;;
        if skip then import_loop rest temp maxId false
        else import_loop rest (temp ++ [e]) (Z.max maxId (id e)) false
  end.

Definition importSnapshotCSV (s : Store) (lines : list string)
  : result (outcome unit) :=
  let prompt := "Paste CSV lines (header optional). End with a blank line." in
  r <- import_loop lines [] 0 true ;;
  let '(temp, maxId) := r in
  match temp with
  | [] => Ret (mkOutcome tt s [prompt; "Nothing imported."])
  | _ :: _ =>
      next <- int_add maxId 1 ;;
      Ret (mkOutcome tt (mkStore temp next (attendeeEmails s))
             [prompt; "Imported " ++ Z_to_string (Z.of_nat (List.length temp))
                      ++ " events. Next ID: " ++ Z_to_string next])
  end.

(** *** Sequences of operations *)

Inductive op : Type :=
| OpAdd (n d t ty loc : string) (verbose : bool)
| OpEdit (i : Z) (inp : EditInput)
| OpDeleteById (i : Z)
| OpDeleteByName (n : string)
| OpImport (lines : list string).

Definition run_op (s : Store) (o : op) : result Store :=
  match o with
  | OpAdd n d t ty loc verbose =>
      r <- addEvent s n d t ty loc verbose ;; Ret (store r)
  | OpEdit i inp => r <- editEventById s i inp ;; Ret (store r)
  | OpDeleteById i => Ret (store (deleteById s i))
  | OpDeleteByName n => Ret (store (deleteByName s n))
  | OpImport lines => r <- importSnapshotCSV s lines ;; Ret (store r)
  end.

(** The committed states: those a run of operations from the empty store
    passes through.  [ok] says which operations the run may use. *)
Inductive reachable_by (ok : op -> Prop) : Store -> Prop :=
| reach_init : reachable_by ok init
| reach_step s o s' :
    reachable_by ok s -> ok o -> run_op s o = Ret s' -> reachable_by ok s'.

Definition reachable : Store -> Prop := reachable_by (fun _ => True).

(** An operation whose import, if it is one, accepts rows that satisfy
    [rows_ok]. *)
Definition import_accepts (rows_ok : list Event -> Prop) (o : op) : Prop :=
  match o with
  | OpImport lines =>
      forall temp maxId, import_loop lines [] 0 true = Ret (temp, maxId) ->
                         rows_ok temp
  | _ => True
  end.

(** A run of operations, one after the other. *)
Fixpoint run (s : Store) (ops : list op) : result Store :=
  match ops with
  | [] => Ret s
  | o :: rest => s' <- run_op s o ;; run s' rest
  end.

(** An operation other than an import. *)
Definition no_import (o : op) : Prop :=
  match o with
  | OpImport _ => False
  | _ => True
  end.

(** *** The rules of the store *)

(** Same name without regard to case, same date, same time. *)
Definition duplicate (a b : Event) : Prop :=
  iequals (name a) (name b) = true /\ date a = date b /\ time a = time b.

(** Both rules for a pair of live events: not duplicates of each other,
    and no overlap of their hours. *)
Definition compatible (a b : Event) : Prop :=
  ~ duplicate a b /\ conflicts a b = Ret false.

Definition rules_hold (evs : list Event) : Prop :=
  ForallOrdPairs compatible evs.

Definition ids_unique (evs : list Event) : Prop := NoDup (map id evs).

Definition ids_positive (evs : list Event) : Prop :=
  Forall (fun i => 0 < i) (map id evs).

(** Every id is below the id counter [n]. *)
Definition ids_below (n : Z) (evs : list Event) : Prop :=
  Forall (fun i => i < n) (map id evs).

(** The ids are pairwise different and below the id counter. *)
Definition ids_ok (s : Store) : Prop :=
  ids_unique (events s) /\ ids_below (nextId s) (events s).

(** Rows an import may bring without harm to the duplicate and conflict
    rules: pairwise different ids, no duplicates, no conflicts. *)
Definition clean_rows (rows : list Event) : Prop :=
  ids_unique rows /\ rules_hold rows.

(** Rows an import may bring without harm to the ids: pairwise different
    and positive. *)
Definition sound_ids (rows : list Event) : Prop :=
  ids_unique rows /\ ids_positive rows.

Definition valid_event (e : Event) : Prop :=
  isValidDate (date e) = Ret true /\ isValidTime (time e) = Ret true.

(** A row the import keeps: an id other than 0, a name, a valid date and
    a valid time. *)
Definition accepted_row (e : Event) : Prop :=
  id e <> 0 /\ name e <> "" /\ valid_event e.

(** *** Day view and search *)

(** The comparator of [dayView] and [sendReminderForDate]. *)
Definition by_time (a b : Event) : result bool :=
  ta <- toMinutes (time a) ;; tb <- toMinutes (time b) ;; Ret (ta <? tb).

(** [for (const auto& e: events) if (e.date==date) list.push_back(e);] *)
Definition on_date (d : string) (evs : list Event) : list Event :=
  filter (fun e => String.eqb (date e) d) evs.

(** [dayView]: the rows in the order printed; [None] stands for the line
    "No events on this date.".  The list is sorted before it is tested
    for emptiness. *)
Definition dayView (s : Store) (d : string) : result (option (list Event)) :=
  l <- std_sort by_time (on_date d (events s)) ;;
  match l with
  | [] => Ret None
  | _ :: _ => Ret (Some l)
  end.

(** [todaysEvents], with the date [today()] reads from the clock. *)
Definition todaysEvents (s : Store) (today : string)
  : result (option (list Event)) :=
  dayView s today.

(** The comparator of [search]. *)
Definition by_id (a b : Event) : result bool := Ret (id a <? id b).

Definition matches (keyword : string) (e : Event) : bool :=
  icontains (name e) keyword || icontains (type e) keyword.

(** [search]: the rows in the order printed; [None] stands for the line
    "No matches.". *)
Definition search (s : Store) (keyword : string)
  : result (option (list Event)) :=
  match filter (matches keyword) (events s) with
  | [] => Ret None
  | l => l' <- std_sort by_id l ;; Ret (Some l')
  end.

(** *** Statistics *)

(** [m[k]++] on a [std::map<std::string,int>], kept in the order of its
    keys: a missing key enters with 0 and is then counted. *)
Fixpoint map_incr (k : string) (m : list (string * Z)) : list (string * Z) :=
  match m with
  | [] => [(k, 1)]
  | (k', n) :: rest =>
      if String.eqb k k' then (k', n + 1) :: rest
      else if String.ltb k k' then (k, 1) :: m
      else (k', n) :: map_incr k rest
  end.

(** [for (const auto& e: events) m[key(e)]++;] *)
Definition count_by (key : Event -> string) (evs : list Event)
  : list (string * Z) :=
  fold_left (fun m e => map_incr (key e) m) evs [].

(** [m[k]] read without inserting: 0 for a missing key. *)
Fixpoint map_get (k : string) (m : list (string * Z)) : Z :=
  match m with
  | [] => 0
  | (k', n) :: rest => if String.eqb k k' then n else map_get k rest
  end.

(** The number of events whose key is [k]. *)
Definition count_key (key : Event -> string) (k : string) (evs : list Event)
  : Z :=
  Z.of_nat (List.length (filter (fun e => String.eqb (key e) k) evs)).

Definition sum_counts (m : list (string * Z)) : Z :=
  fold_right (fun p acc => snd p + acc) 0 m.

(** A map in the order of its keys, each key once. *)
Definition keys_sorted (m : list (string * Z)) : Prop :=
  StronglySorted (fun p q => String.ltb (fst p) (fst q) = true) m.

(** The comparator that puts the larger count first. *)
Definition by_count_desc (a b : string * Z) : result bool :=
  Ret (snd a >? snd b).

(** The dates of the "Top 5" list, as printed. *)
Definition top_dates (s : Store) : result (list (string * Z)) :=
  v <- std_sort by_count_desc (count_by date (events s)) ;;
  Ret (firstn 5 v).

Definition count_line (p : string * Z) : string :=
  "  " ++ fst p ++ ": " ++ Z_to_string (snd p).

Definition statistics (s : Store) : result (list string) :=
  top <- top_dates s ;;
  Ret (("Total events: " ++ Z_to_string (Z.of_nat (List.length (events s))))
       :: "By type:" :: map count_line (count_by type (events s))
       ++ "Top 5 dates by count:" :: map count_line top).

(** *** The table *)

(** The three bytes of the ellipsis the source appends. *)
Definition ellipsis : string := String "226" (String "128" (String "166" "")).

(** [truncate(s, n)]; [n] is a [size_t], so [n-1] at [n = 0] is the largest
    count and [substr] keeps the whole text. *)
Definition truncate (s : string) (n : nat) : string :=
  if Nat.leb (String.length s) n then s
  else match n with
       | O => s ++ ellipsis
       | S k => String.substring 0 k s ++ ellipsis
       end.

(** [std::cout << std::left << std::setw(w) << s]; the fill of [std::cout]
    is the blank. *)
Definition setw_left (w : nat) (s : string) : string :=
  s ++ fill (w - String.length s) " ".

Definition printHeader : list string :=
  [setw_left 5 "ID" ++ setw_left 22 "Name" ++ setw_left 12 "Date"
   ++ setw_left 8 "Time" ++ setw_left 14 "Type" ++ setw_left 18 "Location";
   fill 79 "-"].

Definition printEvent (e : Event) : string :=
  setw_left 5 (Z_to_string (id e))
  ++ setw_left 22 (truncate (name e) 20)
  ++ setw_left 12 (date e)
  ++ setw_left 8 (time e)
  ++ setw_left 14 (truncate (type e) 12)
  ++ setw_left 18 (truncate (location e) 16).

(** [printHeader(); for (const auto& e: list) printEvent(e);] *)
Definition print_table (rows : list Event) : list string :=
  printHeader ++ map printEvent rows.

(** *** Snapshot export *)

Definition csv_row (e : Event) : string :=
  Z_to_string (id e) ++ "," ++ name e ++ "," ++ date e ++ "," ++ time e
  ++ "," ++ type e ++ "," ++ location e.

Definition exportSnapshotCSV (s : Store) : list string :=
  header :: map csv_row (events s)
  ++ ["(Copy the above lines to save. Import with the menu option.)"].

(** A text that holds neither a comma nor a newline (no text read by
    [std::getline] holds a newline). *)
Definition plain_field (f : string) : bool :=
  forallb (fun c => negb (Ascii.eqb c ",") && negb (Ascii.eqb c "010"))
          (list_ascii_of_string f).

(** An event whose row the import reads back: what the import asks of a
    row, an id that fits [int], and plain texts. *)
Definition exportable (e : Event) : Prop :=
  accepted_row e /\ in_int (id e) = true /\
  plain_field (name e) = true /\ plain_field (type e) = true /\
  plain_field (location e) = true.

(** [maxId] after the rows of [evs]. *)
Definition max_id (evs : list Event) : Z :=
  fold_left (fun m e => Z.max m (id e)) evs 0.

(** *** Reminders *)

(** The reading loop of [loadAttendeesFromPaste]: [all += line + ' '] up
    to the first empty line. *)
Fixpoint pasted_text (lines : list string) : string :=
  match lines with
  | [] => ""
  | line :: rest =>
      if size line =? 0 then "" else line ++ " " ++ pasted_text rest
  end.

(** The tokens [ss >> token] delivers: the pieces between white space. *)
Fixpoint tokens (tok rest : string) : list string :=
  match rest with
  | EmptyString => if String.eqb tok "" then [] else [tok]
  | String c r =>
      if isspace c
      then (if String.eqb tok "" then tokens "" r else tok :: tokens "" r)
      else tokens (tok ++ String c "") r
  end.

(** [token.back()]; [None] on the empty text. *)
Fixpoint back (s : string) : option ascii :=
  match s with
  | EmptyString => None
  | String c EmptyString => Some c
  | String _ r => back r
  end.

(** [token.pop_back()]. *)
Fixpoint pop_back (s : string) : string :=
  match s with
  | EmptyString => EmptyString
  | String _ EmptyString => EmptyString
  | String c r => String c (pop_back r)
  end.

(** [if (token.back()==','||token.back()==';') token.pop_back();] *)
Definition strip_separator (tok : string) : string :=
  match back tok with
  | Some c => if Ascii.eqb c "," || Ascii.eqb c ";" then pop_back tok else tok
  | None => tok
  end.

(** The lambda [isEmail]. *)
Definition isEmail (s : string) : bool := contains s "@" && contains s ".".

Definition loadAttendeesFromPaste (s : Store) (lines : list string)
  : outcome unit :=
  let emails :=
    filter isEmail (map strip_separator (tokens "" (pasted_text lines))) in
  mkOutcome tt (mkStore (events s) (nextId s) emails)
    ["Paste emails (comma/space/newline separated). End with a blank line.";
     "Loaded " ++ Z_to_string (Z.of_nat (List.length emails))
     ++ " attendee emails."].

Definition reminder_line (e : Event) : string :=
  "- " ++ time e ++ " | " ++ name e ++ " (" ++ type e ++ ") @ "
  ++ (if String.eqb (location e) "" then "TBA" else location e).

Definition sendReminderForDate (s : Store) (d : string)
  : result (list string) :=
  match on_date d (events s) with
  | [] => Ret ["No events on this date."]
  | l =>
      l' <- std_sort by_time l ;;
      match attendeeEmails s with
      | [] => Ret ["No attendee emails loaded. Choose 'Load attendees' first."]
      | _ :: _ =>
          Ret (List.app
                 ["[SIMULATED EMAIL SEND] To "
                  ++ Z_to_string (Z.of_nat (List.length (attendeeEmails s)))
                  ++ " recipients.";
                  "Subject: Reminder: Events on " ++ d;
                  "";
                  "Upcoming events on " ++ d ++ ":";
                  ""]
                 (List.app (map reminder_line l')
                    ["(Emails not actually sent in online IDE.)"]))
      end
  end.

(** [P] holds of the [n] integers from [z] on. *)
Fixpoint all_from (P : Z -> bool) (z : Z) (n : nat) : bool :=
  match n with
  | O => true
  | S n' => P z && all_from P (z + 1) n'
  end.

(** A text without white space. *)
Definition no_space (s : string) : bool :=
  forallb (fun c => negb (isspace c)) (list_ascii_of_string s).

(** A text made of decimal digits only. *)
Definition all_digits (s : string) : bool :=
  forallb isdigit (list_ascii_of_string s).

(** *** The id typed at the menu *)

(** The test [main] makes before [std::stoi] on the id typed for an edit
    or a delete: [None] stands for the line "Invalid ID.". *)
Definition read_id (s : string) : result (option Z) :=
  if String.eqb s "" || negb (all_digits s)
  then Ret None
  else v <- stoi s ;; Ret (Some v).

(** The minutes of an event whose time can be read (0 otherwise). *)
Definition minutes_of (e : Event) : Z :=
  match toMinutes (time e) with
  | Ret m => m
  | _ => 0
  end.

(** The pair [listAll] sorts by: the rearranged date, then the minutes. *)
Definition event_key (e : Event) : result (string * Z) :=
  y <- ymd (date e) ;; m <- toMinutes (time e) ;; Ret (y, m).

(** [listAll_less] on events that have a key. *)
Definition less_by_key (a b : Event) : bool :=
  match event_key a, event_key b with
  | Ret ka, Ret kb => key_less ka kb
  | _, _ => false
  end.

(** *** The menu loop

    [std::cin] is read by lines only.  [pending] are the lines not read
    yet, [unterminated] says that the last of them is not closed by a
    newline, and [eofbit] that the stream has met its end (it then is not
    [good()] any more and every later [std::getline] fails). *)

Record Cin : Type := mkCin {
  pending : list string;
  unterminated : bool;
  eofbit : bool
}.

(** [std::getline(std::cin, var)]: the new value of [var] and the stream
    after the call.  A stream that is not good leaves [var] as it is; at
    the end of the input [var] is erased and nothing is extracted; a last
    line without newline is delivered but sets [eofbit]. *)
Definition getline (c : Cin) (var : string) : string * Cin :=
  if eofbit c then (var, c)
  else match pending c with
       | [] => ("", mkCin [] (unterminated c) true)
       | [l] => (l, mkCin [] (unterminated c) (unterminated c))
       | l :: rest => (l, mkCin rest (unterminated c) false)
       end.

Definition nl : string := String "010" "".

(** Lines as text on [std::cout]: each with its newline.  [std::cout] of
    [main] is the list of the pieces written, in order. *)
Definition lines_text (ls : list string) : list string :=
  map (fun l => l ++ nl) ls.

(** What [adminLogin] does to the flag [isAdmin]. *)
Definition adminLogin (isAdmin : bool) (c : Cin)
  : bool * Cin * list string :=
  let '(user, c1) := getline c "" in
  let '(pass, c2) := getline c1 "" in
  let prompts := [nl ++ "== Admin Login ==" ++ nl ++ "Username: "; "Password: "] in
  if (String.eqb user "admin" || String.eqb user "ACMadmin")
     && String.eqb pass "admin123"
  then (true, c2, List.app prompts ["Logged in as admin." ++ nl])
  else (isAdmin, c2,
        List.app prompts ["Invalid credentials. Continuing as viewer." ++ nl]).

Definition menu (isAdmin : bool) : list string :=
  List.app
    [nl ++ "====== Smart Event Manager ======" ++ nl;
     "1) List all events" ++ nl;
     "2) Day view (pick date)" ++ nl;
     "3) Today's events" ++ nl;
     "4) Search events" ++ nl]
    (List.app
       (if isAdmin then
          ["5) Add event (admin)" ++ nl;
           "6) Edit event by ID (admin)" ++ nl;
           "7) Delete event by ID (admin)" ++ nl;
           "8) Delete event by name (admin)" ++ nl;
           "9) Load attendees (paste emails) (admin)" ++ nl;
           "10) Send reminders (admin)" ++ nl;
           "11) Statistics (admin)" ++ nl;
           "12) Export snapshot CSV (admin)" ++ nl;
           "13) Import snapshot CSV (admin)" ++ nl]
        else [])
       ["0) Exit" ++ nl ++ "Select: "]).

(** The text of a listing: the table, or the line that says there is
    nothing. *)
Definition listing_text (nothing : string) (rows : option (list Event))
  : list string :=
  match rows with
  | None => [nothing ++ nl]
  | Some l => lines_text (print_table l)
  end.

(** The loops [while (true) { std::getline(std::cin,line); if
    (line.size()==0) break; ... }] of the import and of the attendee
    paste.  [Block ls c]: the lines read before the empty one, and the
    stream then.  [Endless ls]: the stream is at its end with [line] not
    empty, and the loop takes that line again for ever; [ls] are the
    lines taken up to the first repeat. *)
Inductive block : Type :=
| Block (ls : list string) (c : Cin)
| Endless (ls : list string).

Fixpoint read_block (fuel : nat) (c : Cin) (line : string) : block :=
  match fuel with
  | O => Endless []
  | S fuel' =>
      let '(line', c') := getline c line in
      if size line' =? 0 then Block [] c'
      else match read_block fuel' c' line' with
           | Block ls c'' => Block (line' :: ls) c''
           | Endless ls => Endless (line' :: ls)
           end
  end.

Definition read_lines (c : Cin) : block :=
  read_block (S (List.length (pending c))) c "".

(** The five answers [editEventById] reads into its one variable [in]. *)
Definition read_edit (c : Cin) : EditInput * Cin :=
  let '(a1, c1) := getline c "" in
  let '(a2, c2) := getline c1 a1 in
  let '(a3, c3) := getline c2 a2 in
  let '(a4, c4) := getline c3 a3 in
  let '(a5, c5) := getline c4 a4 in
  (mkEditInput a1 a2 a3 a4 a5, c5).

(** How one turn of the loop of [main] ends: with the store, the stream
    and the text written, or never ([Stuck], in a reading loop that takes
    the same line again and again, as long as memory lasts for what it
    gathers; a row of the import that makes [std::stoi] throw ends the
    program before that). *)
Inductive turn : Type :=
| Next (s : Store) (c : Cin) (out : list string)
| Stuck.

(** One turn of [while (true)] in [main], after the choice is read and is
    neither ["0"] nor met by the end of the input.  [today] is the date
    [today()] reads from the clock. *)
Definition menu_turn (isAdmin : bool) (today : string) (s : Store)
    (choice : string) (c : Cin) : result turn :=
  if String.eqb choice "1" then
    r <- listAll s ;; Ret (Next s c (listing_text "No events." r))
  else if String.eqb choice "2" then
    let '(d, c1) := getline c "" in
    okd <- isValidDate d ;;
    if negb okd then
      Ret (Next s c1 ["Enter date (DD-MM-YYYY): "; "Invalid date." ++ nl])
    else
      r <- dayView s d ;;
      Ret (Next s c1 ("Enter date (DD-MM-YYYY): "
                      :: listing_text "No events on this date." r))
  else if String.eqb choice "3" then
    r <- todaysEvents s today ;;
    Ret (Next s c (listing_text "No events on this date." r))
  else if String.eqb choice "4" then
    let '(k, c1) := getline c "" in
    r <- search s k ;;
    Ret (Next s c1 ("Keyword (name/type): " :: listing_text "No matches." r))
  else if isAdmin && String.eqb choice "5" then
    let '(n, c1) := getline c "" in
    let '(d, c2) := getline c1 "" in
    let '(t, c3) := getline c2 "" in
    let '(ty, c4) := getline c3 "" in
    let '(loc, c5) := getline c4 "" in
    o <- addEvent s n d t ty loc true ;;
    Ret (Next (store o) c5
           (List.app ["Name: "; "Date (DD-MM-YYYY): "; "Time (HH:MM 24h): ";
                      "Type: "; "Location (optional): "]
                     (lines_text (printed o))))
  else if isAdmin && String.eqb choice "6" then
    let '(i, c1) := getline c "" in
    r <- read_id i ;;
    match r with
    | None => Ret (Next s c1 ["ID to edit: "; "Invalid ID." ++ nl])
    | Some v =>
        let '(inp, c2) :=
          match find_if (fun e => id e =? v) (events s) with
          | Some _ => read_edit c1
          | None => (mkEditInput "" "" "" "" "", c1)
          end in
        o <- editEventById s v inp ;;
        Ret (Next (store o) c2 ("ID to edit: " :: lines_text (printed o)))
    end
  else if isAdmin && String.eqb choice "7" then
    let '(i, c1) := getline c "" in
    r <- read_id i ;;
    match r with
    | None => Ret (Next s c1 ["ID to delete: "; "Invalid ID." ++ nl])
    | Some v =>
        let o := deleteById s v in
        Ret (Next (store o) c1 ("ID to delete: " :: lines_text (printed o)))
    end
  else if isAdmin && String.eqb choice "8" then
    let '(n, c1) := getline c "" in
    let o := deleteByName s n in
    Ret (Next (store o) c1 ("Name to delete: " :: lines_text (printed o)))
  else if isAdmin && String.eqb choice "9" then
    match read_lines c with
    | Endless _ => Ret Stuck
    | Block ls c1 =>
        let o := loadAttendeesFromPaste s ls in
        Ret (Next (store o) c1 (lines_text (printed o)))
    end
  else if isAdmin && String.eqb choice "10" then
    let '(d, c1) := getline c "" in
    okd <- isValidDate d ;;
    if negb okd then
      Ret (Next s c1 ["Send reminders for date (DD-MM-YYYY): ";
                      "Invalid date." ++ nl])
    else
      out <- sendReminderForDate s d ;;
      Ret (Next s c1 ("Send reminders for date (DD-MM-YYYY): "
                      :: lines_text out))
  else if isAdmin && String.eqb choice "11" then
    out <- statistics s ;; Ret (Next s c (lines_text out))
  else if isAdmin && String.eqb choice "12" then
    Ret (Next s c (lines_text (exportSnapshotCSV s)))
  else if isAdmin && String.eqb choice "13" then
    match read_lines c with
    | Endless ls => _ <- import_loop ls [] 0 true ;; Ret Stuck
    | Block ls c1 =>
        o <- importSnapshotCSV s ls ;;
        Ret (Next (store o) c1 (lines_text (printed o)))
    end
  else
    Ret (Next s c ["Invalid choice."
                   ++ (if isAdmin then " Try 0-13." else " Try 0-4.") ++ nl]).

(** How [main] ends: it returns, or a turn never ends. *)
Inductive ending : Type :=
| Exit (s : Store) (out : list string)
| Hangs.

(** The loop of [main]; [clock] gives the date [today()] reads in the
    n-th turn. *)
Fixpoint main_loop (fuel : nat) (isAdmin : bool) (clock : nat -> string)
    (n : nat) (s : Store) (c : Cin) (out : list string) : result ending :=
  match fuel with
  | O => OutOfFuel
  | S fuel' =>
      let out := List.app out (menu isAdmin) in
      let '(choice, c1) := getline c "" in
      if String.eqb choice "0" || eofbit c1
      then Ret (Exit s (List.app out ["Goodbye!" ++ nl]))
      else
        t <- menu_turn isAdmin (clock n) s choice c1 ;;
        match t with
        | Stuck => Ret Hangs
        | Next s' c2 o =>
            main_loop fuel' isAdmin clock (S n) s' c2 (List.app out o)
        end
  end.

(** The start of [main]: the question, and the login if the answer is
    ["y"] or ["Y"]. *)
Definition main_login (c : Cin) : bool * Cin * list string :=
  let '(ans, c1) := getline c "" in
  if negb (String.eqb ans "") && (String.eqb ans "y" || String.eqb ans "Y")
  then let '(a, c2, o) := adminLogin false c1 in
       (a, c2, "Login as admin? (y/N): " :: o)
  else (false, c1, ["Login as admin? (y/N): "]).

Definition main (clock : nat -> string) (c : Cin) : result ending :=
  let '(isAdmin, c1, out) := main_login c in
  main_loop (S (S (List.length (pending c1)))) isAdmin clock 0 init c1 out.

(** A store without its attendee list. *)
Definition without_attendees (s : Store) : Store :=
  mkStore (events s) (nextId s) [].

(** [a] may stand before [b] in a listing by date, then time: its
    rearranged date is the smaller string, or the dates are the same and
    its time is not the later one. *)
Definition date_time_ordered (a b : Event) : Prop :=
  exists ya yb ta tb,
    ymd (date a) = Ret ya /\ ymd (date b) = Ret yb /\
    toMinutes (time a) = Ret ta /\ toMinutes (time b) = Ret tb /\
    (String.ltb ya yb = true \/ (date a = date b /\ ta <= tb)).

End PlainChar.

(** ** The calendar rules in the words of the specification *)

(** Divisible by 4, and not by 100 unless also by 400. *)
Definition spec_leap (y : Z) : bool :=
  (y mod 4 =? 0) && (negb (y mod 100 =? 0) || (y mod 400 =? 0)).

Definition spec_days_in_month (m y : Z) : Z :=
  if m =? 2 then (if spec_leap y then 29 else 28)
  else if (m =? 4) || (m =? 6) || (m =? 9) || (m =? 11) then 30
  else 31.

(** The three numeric fields of a ten-character [DD-MM-YYYY] text. *)
Definition spec_date_fields (d : string) : option (Z * Z * Z) :=
  match d with
  | String d1 (String d2 (String s1 (String m1 (String m2 (String s2
      (String y1 (String y2 (String y3 (String y4 EmptyString))))))))) =>
      if Ascii.eqb s1 "-" && Ascii.eqb s2 "-"
         && isdigit d1 && isdigit d2 && isdigit m1 && isdigit m2
         && isdigit y1 && isdigit y2 && isdigit y3 && isdigit y4
      then Some (10 * digit_val d1 + digit_val d2,
                 10 * digit_val m1 + digit_val m2,
                 1000 * digit_val y1 + 100 * digit_val y2
                 + 10 * digit_val y3 + digit_val y4)
      else None
  | _ => None
  end.

Definition spec_valid_date (d : string) : bool :=
  match spec_date_fields d with
  | Some (day, mon, yr) =>
      (1900 <=? yr) && (yr <=? 3000) && (1 <=? mon) && (mon <=? 12)
      && (1 <=? day) && (day <=? spec_days_in_month mon yr)
  | None => false
  end.

(** *** Times, names and order in the words of the specification *)

(** The hour and the minute of a five-character [HH:MM] text. *)
Definition spec_time_fields (t : string) : option (Z * Z) :=
  match t with
  | String h1 (String h2 (String s (String m1 (String m2 EmptyString)))) =>
      if Ascii.eqb s ":" && isdigit h1 && isdigit h2 && isdigit m1 && isdigit m2
      then Some (10 * digit_val h1 + digit_val h2,
                 10 * digit_val m1 + digit_val m2)
      else None
  | _ => None
  end.

Definition spec_valid_time (t : string) : bool :=
  match spec_time_fields t with
  | Some (h, m) => (h <=? 23) && (m <=? 59)
  | None => false
  end.

(** The start of an event, in minutes after midnight. *)
Definition spec_start (e : Event) : option Z :=
  match spec_time_fields (time e) with
  | Some (h, m) => Some (60 * h + m)
  | None => None
  end.

(** The same character, or the same letter in upper and in lower case. *)
Definition spec_same_char (c d : ascii) : Prop :=
  c = d \/ (65 <= code c <= 90 /\ code d = code c + 32)
        \/ (65 <= code d <= 90 /\ code c = code d + 32).

(** Two texts that differ in the case of their letters only. *)
Definition spec_same_text (a b : string) : Prop :=
  Forall2 spec_same_char (list_ascii_of_string a) (list_ascii_of_string b).

(** [key] stands in [text], without regard to case. *)
Definition spec_occurs (text key : string) : Prop :=
  exists pre mid post, text = pre ++ mid ++ post /\ spec_same_text mid key.

(** An event that has [keyword] in its name or in its type, without
    regard to case. *)
Definition spec_hit (keyword : string) (e : Event) : Prop :=
  spec_occurs (name e) keyword \/ spec_occurs (type e) keyword.

(** The same (name without regard to case, date, time). *)
Definition spec_duplicate (a b : Event) : Prop :=
  spec_same_text (name a) (name b) /\ date a = date b /\ time a = time b.

(** Two events on one date whose hours [start, start+60) meet. *)
Definition spec_overlap (a b : Event) : Prop :=
  date a = date b /\
  exists sa sb, spec_start a = Some sa /\ spec_start b = Some sb /\
                sa < sb + 60 /\ sb < sa + 60.

Definition spec_compatible (a b : Event) : Prop :=
  ~ spec_duplicate a b /\ ~ spec_overlap a b.

(** Rows an import may bring without harm to the two rules: pairwise
    different ids, no two with the same triple, no two that overlap. *)
Definition spec_clean_rows (rows : list Event) : Prop :=
  ids_unique rows /\ ForallOrdPairs spec_compatible rows.

(** [a] is not later than [b]: its date is the earlier one, by year, then
    month, then day, or the dates are the same and its start is not the
    later one. *)
Definition spec_not_later (a b : Event) : Prop :=
  exists da ma ya db mb yb ta tb,
    spec_date_fields (date a) = Some (da, ma, ya) /\
    spec_date_fields (date b) = Some (db, mb, yb) /\
    spec_start a = Some ta /\ spec_start b = Some tb /\
    (ya < yb \/
     (ya = yb /\ (ma < mb \/
                  (ma = mb /\ (da < db \/ (da = db /\ ta <= tb)))))).

(** *** Pasted text in the words of the specification *)

(** A text of white space only. *)
Definition spec_blank (g : string) : Prop :=
  Forall (fun c => isspace c = true) (list_ascii_of_string g).

(** A word: at least one character, none of them white space. *)
Definition spec_word (w : string) : Prop :=
  w <> "" /\ Forall (fun c => isspace c = false) (list_ascii_of_string w).

(** The text made of the white space [g0] and then of words, each with
    the white space that follows it. *)
Fixpoint spec_spaced (g0 : string) (ws : list (string * string)) : string :=
  match ws with
  | [] => g0
  | (w, g) :: rest => g0 ++ w ++ spec_spaced g rest
  end.

(** Words apart: white space between any two of them. *)
Fixpoint spec_apart (ws : list (string * string)) : Prop :=
  match ws with
  | [] => True
  | [_] => True
  | (_, g) :: rest => g <> "" /\ spec_apart rest
  end.

(** A word without the [','] or [';'] that closes it. *)
Definition spec_strip (w : string) : string :=
  match String.get (String.length w - 1) w with
  | Some c =>
      if Ascii.eqb c "," || Ascii.eqb c ";"
      then String.substring 0 (String.length w - 1) w else w
  | None => w
  end.

(** A word with an ['@'] and a ['.'] in it. *)
Definition spec_email (w : string) : bool :=
  existsb (Ascii.eqb "@") (list_ascii_of_string w)
  && existsb (Ascii.eqb ".") (list_ascii_of_string w).

(** The lines of a paste that count: those before the first empty one. *)
Fixpoint spec_before_blank (lines : list string) : list string :=
  match lines with
  | [] => []
  | l :: rest => if String.eqb l "" then [] else l :: spec_before_blank rest
  end.

(** The lines before the first empty one, each with a space after it,
    one after the other. *)
Definition spec_joined (lines : list string) : string :=
  fold_right (fun l acc => l ++ " " ++ acc) "" (spec_before_blank lines).

(** The white space [g0] and the pairs of a word and the white space
    after it, when the words are apart. *)
Definition spaced_ok (g0 : string) (ws : list (string * string)) : Prop :=
  spec_blank g0 /\
  Forall (fun p => spec_word (fst p) /\ spec_blank (snd p)) ws /\
  spec_apart ws.

(** *** Snapshot lines in the words of the specification *)

(** A pasted line: a row [id,name,date,time,type,location], or a line
    without a comma. *)
Inductive pasted_line : Type :=
| Row (e : Event)
| Other (l : string).

Definition line_text (p : pasted_line) : string :=
  match p with
  | Row e => csv_row e
  | Other l => l
  end.

Fixpoint rows_of (ps : list pasted_line) : list Event :=
  match ps with
  | [] => []
  | Row e :: rest => e :: rows_of rest
  | Other _ :: rest => rows_of rest
  end.

(** A row whose texts hold no comma and whose id fits [int]; a line
    without comma that is not empty. *)
Definition well_formed (p : pasted_line) : Prop :=
  match p with
  | Row e =>
      in_int (id e) = true /\ plain_field (name e) = true /\
      plain_field (date e) = true /\ plain_field (time e) = true /\
      plain_field (type e) = true /\ plain_field (location e) = true
  | Other l => l <> "" /\ plain_field l = true
  end.

(** The rows the specification has the import keep. *)
Definition spec_kept (e : Event) : bool :=
  negb (id e =? 0) && negb (String.eqb (name e) "")
  && spec_valid_date (date e) && spec_valid_time (time e).

(** ** Scenarios *)

(** The store of the scenario: "Kickoff" at 09:00 and "Standup" at 10:00 on
    1 January 2030. *)
Definition two_events : Store :=
  mkStore [mkEvent 1 "Kickoff" "01-01-2030" "09:00" "Meeting" "Hall A";
           mkEvent 2 "Standup" "01-01-2030" "10:00" "Meeting" "Hall A"] 3 [].

(** A run that adds two events, fails to add a third, edits one, imports a
    snapshot of three rows (the header and a bad row are skipped), deletes
    by name and adds again. *)
Definition sample_run : list op :=
  [OpAdd "Kickoff" "01-01-2030" "09:00" "Meeting" "Hall A" true;
   OpAdd "Standup" "01-01-2030" "09:30" "Meeting" "Hall A" true;
   OpAdd "Standup" "01-01-2030" "10:00" "Meeting" "Hall A" false;
   OpEdit 3 (mkEditInput "Daily" "" "11:15" "" "");
   OpImport ["id,name,date,time,type,location";
             "4,Review,02-01-2030,14:00,Talk,Room 2";
             "x";
             "9,Retro,02-01-2030,15:00,Talk,";
             "5,Broken,31-04-2030,15:00,Talk,Room 2";
             "2,Demo,03-01-2030,14:30,Workshop,Lab"];
   OpDeleteByName "retro";
   OpDeleteById 77;
   OpAdd "Closing" "03-01-2030" "16:00" "Talk" "Hall A" true].

Definition sample_store : Store :=
  mkStore [mkEvent 4 "Review" "02-01-2030" "14:00" "Talk" "Room 2";
           mkEvent 2 "Demo" "03-01-2030" "14:30" "Workshop" "Lab";
           mkEvent 10 "Closing" "03-01-2030" "16:00" "Talk" "Hall A"] 11 [].

(** A store whose events are neither in date order nor in the order of
    their date texts. *)
Definition unsorted_store : Store :=
  mkStore [mkEvent 1 "Fair" "02-03-2030" "09:00" "Talk" "Hall A";
           mkEvent 2 "Lunch" "15-01-2030" "12:30" "Meeting" "";
           mkEvent 3 "Briefing" "15-01-2030" "08:00" "Meeting" "Room 2";
           mkEvent 4 "Gala" "31-12-2029" "19:00" "Talk" "Hall A"] 5 [].

(** A session at the menu: the login, an event added, attendees pasted, a
    reminder sent, the exit. *)
Definition sample_session : Cin :=
  mkCin ["y"; "admin"; "admin123";
         "5"; "Kickoff"; "01-01-2030"; "09:00"; "Meeting"; "Hall A";
         "9"; "a@b.org, c@d.org"; "";
         "10"; "01-01-2030";
         "0"] false false.

Definition sample_clock (n : nat) : string := "01-01-2030".

Definition session_store : Store :=
  mkStore [mkEvent 1 "Kickoff" "01-01-2030" "09:00" "Meeting" "Hall A"] 2
    ["a@b.org"; "c@d.org"].

(** What [main] writes in that session. *)
Definition session_text : list string :=
  match main true sample_clock sample_session with
  | Ret (Exit _ out) => out
  | _ => []
  end.

(** A session whose login fails, and whose last line has no newline. *)
Definition viewer_session : Cin :=
  mkCin ["y"; "admin"; "letmein"; "5"; "2"; "01-01-2030"; "7"] true false.

End EventManager.

Import EventManager.

(** * Properties *)

(** ** The [result] monad *)

Lemma bind_Ret_inv {A B : Type} (m : result A) (k : A -> result B) (b : B) :
  bind m k = Ret b -> exists a, m = Ret a /\ k a = Ret b.
Proof.
  destruct m; simpl; intros H; try discriminate.
  eexists; split; [reflexivity | exact H].
Qed.

Lemma Ret_inj {A : Type} (a b : A) : Ret a = Ret b -> a = b.
Proof. intros H. injection H. auto. Qed.

Ltac bind_inv H :=
  let a := fresh "a" in
  let Ha := fresh "Ha" in
  apply bind_Ret_inv in H; destruct H as [a [Ha H]].

(** ** Characters *)

Lemma isdigit_bounds c : isdigit c = true -> 48 <= code c <= 57.
Proof. unfold isdigit. intros H. apply andb_prop in H. lia. Qed.

Lemma isdigit_cases c :
  isdigit c = true ->
  In c ["0"; "1"; "2"; "3"; "4"; "5"; "6"; "7"; "8"; "9"]%char.
Proof.
  destruct c as [[] [] [] [] [] [] [] []]; vm_compute;
    intros H; try discriminate H; tauto.
Qed.

Lemma isdigit_not_space c : isdigit c = true -> isspace c = false.
Proof. intros H. apply isdigit_bounds in H. unfold isspace. lia. Qed.

Lemma isdigit_not_char c k :
  isdigit c = true -> isdigit k = false -> Ascii.eqb c k = false.
Proof.
  intros H K. apply Ascii.eqb_neq. intros ->. congruence.
Qed.

Lemma isdigit_char_val cs c :
  isdigit c = true -> char_val cs c = code c.
Proof.
  intros H. apply isdigit_bounds in H. unfold char_val.
  destruct (128 <=? code c) eqn:E; [lia | reflexivity].
Qed.

Lemma digit_val_bounds c : isdigit c = true -> 0 <= digit_val c <= 9.
Proof. intros H. apply isdigit_bounds in H. unfold digit_val. lia. Qed.

(** ** [std::stoi] on the digit fields of a date *)

Lemma stoi_digit_first c r :
  isdigit c = true ->
  stoi (String c r) =
  match parse_digits 0 0 (String c r) with
  | (_, O) => Raise invalid_argument
  | (v, S _) => if in_int v then Ret v else Raise out_of_range
  end.
Proof.
  intros H. unfold stoi. cbn [skip_space].
  rewrite (isdigit_not_space c H).
  rewrite (isdigit_not_char c "-" H eq_refl).
  rewrite (isdigit_not_char c "+" H eq_refl).
  reflexivity.
Qed.

Lemma stoi_2 a b :
  isdigit a = true -> isdigit b = true ->
  stoi (String a (String b "")) = Ret (10 * digit_val a + digit_val b).
Proof.
  intros Ha Hb. rewrite (stoi_digit_first _ _ Ha).
  cbn [parse_digits]. rewrite Ha, Hb.
  apply digit_val_bounds in Ha, Hb.
  replace (10 * (10 * 0 + digit_val a) + digit_val b)
    with (10 * digit_val a + digit_val b) by lia.
  unfold in_int, INT_MIN, INT_MAX.
  destruct (_ <=? _) eqn:E1; destruct (10 * digit_val a + digit_val b <=? _) eqn:E2;
    try reflexivity; lia.
Qed.

Lemma stoi_4 a b c d :
  isdigit a = true -> isdigit b = true -> isdigit c = true -> isdigit d = true ->
  stoi (String a (String b (String c (String d "")))) =
  Ret (1000 * digit_val a + 100 * digit_val b + 10 * digit_val c + digit_val d).
Proof.
  intros Ha Hb Hc Hd. rewrite (stoi_digit_first _ _ Ha).
  cbn [parse_digits]. rewrite Ha, Hb, Hc, Hd.
  apply digit_val_bounds in Ha, Hb, Hc, Hd.
  replace (10 * (10 * (10 * (10 * 0 + digit_val a) + digit_val b) + digit_val c)
           + digit_val d)
    with (1000 * digit_val a + 100 * digit_val b + 10 * digit_val c + digit_val d)
    by lia.
  unfold in_int, INT_MIN, INT_MAX.
  destruct (_ <=? _) eqn:E1;
    destruct (1000 * digit_val a + 100 * digit_val b + 10 * digit_val c
              + digit_val d <=? _) eqn:E2;
    try reflexivity; lia.
Qed.

(** ** Dates *)

Lemma isLeap_spec y : 0 <= y -> isLeap y = spec_leap y.
Proof.
  intros Hy. unfold isLeap, spec_leap.
  rewrite !Z.rem_mod_nonneg by lia.
  destruct (y mod 4 =? 0) eqn:E4, (y mod 100 =? 0), (y mod 400 =? 0) eqn:E400;
    try reflexivity.
  (* divisible by 400 but not by 4: impossible *)
  all: apply Z.eqb_eq in E400; apply Z.eqb_neq in E4.
  all: exfalso; apply E4.
  all: rewrite (Z.div_mod y 400) by lia; rewrite E400.
  all: replace (400 * (y / 400) + 0) with ((100 * (y / 400)) * 4) by lia.
  all: apply Z.mod_mul; lia.
Qed.

(** The range tests of [isValidDate] are the calendar rules. *)
Lemma date_range_check day mon yr :
  (if (yr <? 1900) || (yr >? 3000) then Ret false else
   if (mon <? 1) || (mon >? 12) then Ret false else
   Ret ((day >=? 1) &&
        (day <=? nth (Z.to_nat mon)
                   (if (mon =? 2) && isLeap yr
                    then [0; 31; 29; 31; 30; 31; 30; 31; 31; 30; 31; 30; 31]
                    else mdays) 0)))
  = Ret ((1900 <=? yr) && (yr <=? 3000) && (1 <=? mon) && (mon <=? 12)
         && (1 <=? day) && (day <=? spec_days_in_month mon yr)).
Proof.
  destruct (yr <? 1900) eqn:Y1.
  { replace (1900 <=? yr) with false by lia. reflexivity. }
  destruct (yr >? 3000) eqn:Y2.
  { replace (yr <=? 3000) with false by lia. now rewrite andb_false_r. }
  replace (1900 <=? yr) with true by lia.
  replace (yr <=? 3000) with true by lia.
  destruct (mon <? 1) eqn:M1.
  { replace (1 <=? mon) with false by lia. reflexivity. }
  destruct (mon >? 12) eqn:M2.
  { replace (mon <=? 12) with false by lia. now rewrite andb_false_r. }
  replace (1 <=? mon) with true by lia.
  replace (mon <=? 12) with true by lia.
  cbn [orb andb]. f_equal.
  replace (day >=? 1) with (1 <=? day) by lia.
  f_equal. f_equal.
  rewrite isLeap_spec by lia.
  assert (Hm : mon = 1 \/ mon = 2 \/ mon = 3 \/ mon = 4 \/ mon = 5 \/ mon = 6 \/
               mon = 7 \/ mon = 8 \/ mon = 9 \/ mon = 10 \/ mon = 11 \/ mon = 12)
    by lia.
  unfold spec_days_in_month, mdays.
  repeat (destruct Hm as [-> | Hm]); try subst mon;
    cbn; try reflexivity; destruct (spec_leap yr); reflexivity.
Qed.

Lemma size_String c s : size (String c s) = 1 + size s.
Proof. unfold size. cbn [String.length]. lia. Qed.

Lemma size_nonneg s : 0 <= size s.
Proof. unfold size. lia. Qed.

(** [isValidDate] on a text too long to be a date. *)
Lemma isValidDate_long c0 c1 c2 c3 c4 c5 c6 c7 c8 c9 c10 r :
  isValidDate
    (String c0 (String c1 (String c2 (String c3 (String c4 (String c5
      (String c6 (String c7 (String c8 (String c9 (String c10 r)))))))))))
  = Ret false.
Proof.
  unfold isValidDate.
  replace (size _ =? 10) with false; [reflexivity |].
  symmetry. apply Z.eqb_neq. rewrite !size_String. pose proof (size_nonneg r). lia.
Qed.

(** [isValidDate] on a ten-character text. *)
Lemma isValidDate_ten c0 c1 c2 c3 c4 c5 c6 c7 c8 c9 :
  let d := String c0 (String c1 (String c2 (String c3 (String c4 (String c5
             (String c6 (String c7 (String c8 (String c9 ""))))))))) in
  isValidDate d = Ret (spec_valid_date d).
Proof.
  intros d. subst d. unfold isValidDate, spec_valid_date, spec_date_fields.
  cbn [size String.length Z.of_nat Z.eqb negb orM bind idx String.get
       Pos.of_succ_nat Pos.succ Pos.eqb].
  destruct (Ascii.eqb c2 "-") eqn:S1; cbn [negb andb]; [| reflexivity].
  destruct (Ascii.eqb c5 "-") eqn:S2; cbn [negb andb]; [| reflexivity].
  cbn [seq all_digits_but_seps Nat.eqb orb bind idx String.get].
  destruct (isdigit c0) eqn:D0; cbn [negb andb]; [| reflexivity].
  destruct (isdigit c1) eqn:D1; cbn [negb andb]; [| reflexivity].
  destruct (isdigit c3) eqn:D3; cbn [negb andb]; [| reflexivity].
  destruct (isdigit c4) eqn:D4; cbn [negb andb]; [| reflexivity].
  destruct (isdigit c6) eqn:D6; cbn [negb andb]; [| reflexivity].
  destruct (isdigit c7) eqn:D7; cbn [negb andb]; [| reflexivity].
  destruct (isdigit c8) eqn:D8; cbn [negb andb]; [| reflexivity].
  destruct (isdigit c9) eqn:D9; cbn [negb andb]; [| reflexivity].
  unfold substr.
  cbn [String.length Nat.ltb Nat.leb String.substring bind].
  rewrite !stoi_2, stoi_4 by assumption.
  cbn [bind].
  apply date_range_check.
Qed.

(** C5.  For every text [d], [isValidDate d] returns, and it returns
    [true] exactly when [d] is ten characters [DD-MM-YYYY] with digits in
    the six numeric positions and ['-'] at the two separators, the year is
    in 1900..3000, the month in 1..12 and the day in 1..days-in-month, where
    February has 29 days exactly in leap years (divisible by 4, and not by
    100 unless also by 400).  It never throws and never leaves defined
    behaviour. *)
Theorem isValidDate_correct (d : string) :
  isValidDate d = Ret (spec_valid_date d).
Proof.
  do 10 (destruct d as [| ? d]; [reflexivity |]).
  destruct d as [| ? d].
  - apply isValidDate_ten.
  - rewrite isValidDate_long. reflexivity.
Qed.

(** The value of [isValidDate], in the form the later proofs rewrite
    with. *)
Lemma isValidDate_eq (d : string) : isValidDate d = Ret (spec_valid_date d).
Proof.
  do 10 (destruct d as [| ? d]; [reflexivity |]).
  destruct d as [| ? d].
  - apply isValidDate_ten.
  - rewrite isValidDate_long. reflexivity.
Qed.

Example leap_day_2024 : isValidDate "29-02-2024" = Ret true.
Proof. reflexivity. Qed.

Example leap_day_2023 : isValidDate "29-02-2023" = Ret false.
Proof. reflexivity. Qed.

Example april_31 : isValidDate "31-04-2024" = Ret false.
Proof. reflexivity. Qed.

(** ** Times *)

Section Times.

Variable cs : bool.

Lemma isValidTime_long c0 c1 c2 c3 c4 c5 r :
  isValidTime cs (String c0 (String c1 (String c2 (String c3 (String c4
                   (String c5 r)))))) = Ret false.
Proof.
  unfold isValidTime.
  replace (size _ =? 5) with false; [reflexivity |].
  symmetry. apply Z.eqb_neq. rewrite !size_String. pose proof (size_nonneg r). lia.
Qed.

Lemma isValidTime_five a b k c d :
  isValidTime cs (String a (String b (String k (String c (String d ""))))) =
  Ret (Ascii.eqb k ":" && isdigit a && isdigit b && isdigit c && isdigit d
       && (10 * digit_val a + digit_val b <=? 23)
       && (10 * digit_val c + digit_val d <=? 59)).
Proof.
  unfold isValidTime.
  cbn [size String.length Z.of_nat Z.eqb negb orM bind idx String.get
       Pos.of_succ_nat Pos.succ Pos.eqb].
  destruct (Ascii.eqb k ":"); cbn [negb andb]; [| reflexivity].
  destruct (isdigit a) eqn:Da; cbn [negb andb]; [| reflexivity].
  destruct (isdigit b) eqn:Db; cbn [negb andb]; [| reflexivity].
  destruct (isdigit c) eqn:Dc; cbn [negb andb]; [| reflexivity].
  destruct (isdigit d) eqn:Dd; cbn [negb andb]; [| reflexivity].
  rewrite !isdigit_char_val by assumption.
  apply digit_val_bounds in Da, Db, Dc, Dd. unfold digit_val in *.
  replace ((code a - 48) * 10 + (code b - 48))
    with (10 * (code a - 48) + (code b - 48)) by lia.
  replace ((code c - 48) * 10 + (code d - 48))
    with (10 * (code c - 48) + (code d - 48)) by lia.
  set (h := 10 * (code a - 48) + (code b - 48)).
  set (m := 10 * (code c - 48) + (code d - 48)).
  assert (0 <= h) by (subst h; lia). assert (0 <= m) by (subst m; lia).
  replace (h <? 0) with false by lia. replace (m <? 0) with false by lia.
  cbn [orb].
  destruct (h >? 23) eqn:H23.
  { replace (h <=? 23) with false by lia. reflexivity. }
  replace (h <=? 23) with true by lia.
  destruct (m >? 59) eqn:M59.
  { replace (m <=? 59) with false by lia. reflexivity. }
  replace (m <=? 59) with true by lia. reflexivity.
Qed.

(** [isValidTime] always returns. *)
Lemma isValidTime_total t : exists b, isValidTime cs t = Ret b.
Proof.
  do 5 (destruct t as [| ? t]; [eexists; reflexivity |]).
  destruct t as [| ? t].
  - eexists. apply isValidTime_five.
  - eexists. apply isValidTime_long.
Qed.

(** A valid time is [HH:MM] with digits, an hour below 24 and a minute
    below 60. *)
Lemma isValidTime_inv t :
  isValidTime cs t = Ret true ->
  exists a b c d,
    t = hhmm a b c d /\
    isdigit a = true /\ isdigit b = true /\ isdigit c = true /\ isdigit d = true /\
    10 * digit_val a + digit_val b <= 23 /\
    10 * digit_val c + digit_val d <= 59.
Proof.
  do 5 (destruct t as [| ? t]; [intros H; vm_compute in H; discriminate H |]).
  destruct t as [| ? t].
  - rewrite isValidTime_five. intros H. apply Ret_inj in H.
    repeat (apply andb_prop in H; let H' := fresh in destruct H as [H H']).
    exists a, a0, a2, a3.
    match goal with K : Ascii.eqb _ ":" = true |- _ => apply Ascii.eqb_eq in K; subst end.
    repeat split; try assumption; lia.
  - rewrite isValidTime_long. discriminate.
Qed.

Lemma toMinutes_hhmm a b c d :
  isdigit a = true -> isdigit b = true -> isdigit c = true -> isdigit d = true ->
  toMinutes cs (hhmm a b c d) =
  Ret (60 * (10 * digit_val a + digit_val b) + (10 * digit_val c + digit_val d)).
Proof.
  intros Ha Hb Hc Hd. unfold toMinutes, hhmm.
  cbn [bind idx String.get].
  rewrite !isdigit_char_val by assumption.
  unfold digit_val. f_equal. lia.
Qed.

Lemma print2_digits a b :
  isdigit a = true -> isdigit b = true ->
  print2 (10 * digit_val a + digit_val b) = String a (String b "").
Proof.
  intros Ha Hb. apply isdigit_cases in Ha, Hb. cbn [In] in Ha, Hb.
  repeat (destruct Ha as [<- | Ha]); try contradiction;
    repeat (destruct Hb as [<- | Hb]); try contradiction; reflexivity.
Qed.

Lemma fromMinutes_split h m :
  0 <= h <= 23 -> 0 <= m <= 59 ->
  fromMinutes (60 * h + m) = print2 h ++ ":" ++ print2 m.
Proof.
  intros Hh Hm. unfold fromMinutes.
  replace (60 * h + m <? 0) with false by lia.
  rewrite Z.rem_small by lia.
  rewrite Z.quot_div_nonneg, Z.rem_mod_nonneg by lia.
  replace ((60 * h + m) / 60) with h by (apply Z.div_unique with m; lia).
  replace ((60 * h + m) mod 60) with m by (apply Z.mod_unique with h; lia).
  reflexivity.
Qed.

(** C8.  For every time text [t] that [isValidTime] accepts,
    [toMinutes t] returns a number of minutes since midnight in 0..1439 and
    [fromMinutes] turns that number back into [t]. *)
Theorem fromMinutes_toMinutes (t : string) :
  isValidTime cs t = Ret true ->
  exists m, toMinutes cs t = Ret m /\ 0 <= m < 1440 /\ fromMinutes m = t.
Proof.
  intros H. apply isValidTime_inv in H.
  destruct H as (a & b & c & d & -> & Ha & Hb & Hc & Hd & Hh & Hm).
  eexists. split; [apply toMinutes_hhmm; assumption |].
  pose proof (digit_val_bounds _ Ha). pose proof (digit_val_bounds _ Hb).
  pose proof (digit_val_bounds _ Hc). pose proof (digit_val_bounds _ Hd).
  split; [lia |].
  rewrite fromMinutes_split by lia.
  rewrite !print2_digits by assumption. reflexivity.
Qed.

(** [toMinutes] reads its argument at the positions [toMinutes_reads] and
    nowhere else. *)
Lemma toMinutes_reads_exact t :
  toMinutes cs t =
  (l <- read_chars t toMinutes_reads ;;
   match l with
   | [t0; t1; t3; t4] =>
       Ret ((char_val cs t0 - 48) * 600 + (char_val cs t1 - 48) * 60
            + (char_val cs t3 - 48) * 10 + (char_val cs t4 - 48))
   | _ => UB
   end).
Proof.
  unfold toMinutes, toMinutes_reads. cbn [read_chars].
  destruct (idx t 0); try reflexivity.
  destruct (idx t 1); try reflexivity.
  destruct (idx t 3); try reflexivity.
  destruct (idx t 4); reflexivity.
Qed.

(** C10.  For every text [t] that [isValidTime] accepts, [t] has five
    characters, every position [toMinutes] reads (0, 1, 3 and 4) lies inside
    [t], and [toMinutes t] returns a value in 0..1439.  Without that
    precondition [toMinutes] is partial: it has no check of its own, and on
    the empty text it reads past the end. *)
Theorem toMinutes_safe_on_valid :
  (forall t, isValidTime cs t = Ret true ->
     String.length t = 5%nat /\
     Forall (fun i => (i < String.length t)%nat) toMinutes_reads /\
     exists m, toMinutes cs t = Ret m /\ 0 <= m <= 1439) /\
  toMinutes cs "" = UB.
Proof.
  split; [| reflexivity].
  intros t H.
  apply isValidTime_inv in H.
  destruct H as (a & b & c & d & -> & Ha & Hb & Hc & Hd & Hh & Hm).
  split; [reflexivity |]. split.
  - unfold toMinutes_reads, hhmm. cbn [String.length].
    repeat constructor.
  - eexists. split; [apply toMinutes_hhmm; assumption |].
    pose proof (digit_val_bounds _ Ha). pose proof (digit_val_bounds _ Hb).
    pose proof (digit_val_bounds _ Hc). pose proof (digit_val_bounds _ Hd).
    lia.
Qed.

End Times.

Lemma toMinutes_safe_on_valid_witness :
  isValidTime true "23:59" = Ret true /\
  (String.length "23:59" = 5%nat /\
   Forall (fun i => (i < String.length "23:59")%nat) toMinutes_reads /\
   exists m, toMinutes true "23:59" = Ret m /\ 0 <= m <= 1439).
Proof.
  split; [reflexivity |].
  apply (proj1 (toMinutes_safe_on_valid true) "23:59"). reflexivity.
Defined.

Lemma fromMinutes_toMinutes_witness :
  isValidTime true "09:30" = Ret true /\
  exists m, toMinutes true "09:30" = Ret m /\ 0 <= m < 1440 /\
            fromMinutes m = "09:30".
Proof.
  split; [reflexivity | apply (fromMinutes_toMinutes true "09:30"); reflexivity].
Defined.

(** ** Conflicts and duplicates *)

Section Rules.

Variable cs : bool.

Lemma idx_cases t i : (exists c, idx t i = Ret c) \/ idx t i = UB.
Proof.
  unfold idx. destruct (String.get i t); [left; eauto |].
  destruct (Nat.eqb i (String.length t)); [left; eauto | now right].
Qed.

(** [toMinutes] never throws: it returns or reads past the end. *)
Lemma toMinutes_cases t : (exists m, toMinutes cs t = Ret m) \/ toMinutes cs t = UB.
Proof.
  unfold toMinutes.
  destruct (idx_cases t 0) as [[? ->] | ->]; [| now right].
  destruct (idx_cases t 1) as [[? ->] | ->]; [| now right].
  destruct (idx_cases t 3) as [[? ->] | ->]; [| now right].
  destruct (idx_cases t 4) as [[? ->] | ->]; [| now right].
  left. eexists. reflexivity.
Qed.

Lemma conflicts_sym a b : conflicts cs a b = conflicts cs b a.
Proof.
  unfold conflicts. rewrite (String.eqb_sym (date a) (date b)).
  destruct (String.eqb (date b) (date a)); cbn [negb]; [| reflexivity].
  destruct (toMinutes_cases (time a)) as [[x ->] | ->],
           (toMinutes_cases (time b)) as [[y ->] | ->];
    cbn [bind]; try reflexivity.
  now rewrite andb_comm.
Qed.

Lemma iequals_sym a b : iequals a b = iequals b a.
Proof. unfold iequals. apply String.eqb_sym. Qed.

Lemma duplicate_sym a b : duplicate a b -> duplicate b a.
Proof.
  intros (H1 & H2 & H3). repeat split; try congruence.
  now rewrite iequals_sym.
Qed.

Lemma compatible_sym a b : compatible cs a b -> compatible cs b a.
Proof.
  intros [H1 H2]. split.
  - intros D. apply H1. now apply duplicate_sym.
  - now rewrite conflicts_sym.
Qed.

(** The duplicate test of [addEvent] found nothing: no live event is a
    duplicate of the candidate. *)
Lemma isDuplicate_false s e :
  isDuplicate s (name e) (date e) (time e) = false ->
  forall ex, In ex (events s) -> ~ duplicate ex e.
Proof.
  unfold isDuplicate. intros H ex Hin (D1 & D2 & D3).
  assert (K : existsb (fun e0 => iequals (name e0) (name e)
                                 && String.eqb (date e0) (date e)
                                 && String.eqb (time e0) (time e)) (events s) = true).
  { apply existsb_exists. exists ex. split; [exact Hin |].
    rewrite D1, D2, D3, !String.eqb_refl. reflexivity. }
  congruence.
Qed.

Lemma isDuplicate_true s n d t :
  isDuplicate s n d t = true <->
  exists ex, In ex (events s) /\
             iequals (name ex) n = true /\ date ex = d /\ time ex = t.
Proof.
  unfold isDuplicate. rewrite existsb_exists. split.
  - intros (ex & Hin & H). exists ex.
    apply andb_prop in H. destruct H as [H H3].
    apply andb_prop in H. destruct H as [H1 H2].
    apply String.eqb_eq in H2, H3. auto.
  - intros (ex & Hin & H1 & <- & <-). exists ex. split; [exact Hin |].
    now rewrite H1, !String.eqb_refl.
Qed.

(** The conflict loop of [addEvent] found nothing. *)
Lemma first_conflict_None e evs :
  first_conflict cs e evs = Ret None ->
  forall ex, In ex evs -> conflicts cs e ex = Ret false.
Proof.
  induction evs as [| x rest IH]; cbn [first_conflict]; intros H ex Hin.
  - destruct Hin.
  - bind_inv H. destruct a; [discriminate H |].
    destruct Hin as [<- | Hin]; [exact Ha | now apply IH].
Qed.

(** The conflict loop of [addEvent] stopped: it did so at a live event the
    candidate conflicts with. *)
Lemma first_conflict_Some e evs ex :
  first_conflict cs e evs = Ret (Some ex) ->
  In ex evs /\ conflicts cs e ex = Ret true.
Proof.
  induction evs as [| x rest IH]; cbn [first_conflict]; intros H.
  - discriminate H.
  - bind_inv H. destruct a.
    + injection H as <-. split; [now left | exact Ha].
    + destruct (IH H) as [Hin Hc]. split; [now right | exact Hc].
Qed.

(** ** [addEvent] *)

(** The four rejections and the acceptance of [addEvent], told apart by
    what decided the call. *)
Lemma addEvent_cases s n d t ty loc v o :
  addEvent cs s n d t ty loc v = Ret o ->
  (* date *)
  (isValidDate d = Ret false /\
   o = mkOutcome false s (say v ["Invalid date. Use DD-MM-YYYY."])) \/
  (* time *)
  (isValidDate d = Ret true /\ isValidTime cs t = Ret false /\
   o = mkOutcome false s (say v ["Invalid time. Use HH:MM (24h)."])) \/
  (* duplicate *)
  (isValidDate d = Ret true /\ isValidTime cs t = Ret true /\
   isDuplicate s n d t = true /\
   o = mkOutcome false s (say v ["Duplicate event exists."])) \/
  (* conflict *)
  (isValidDate d = Ret true /\ isValidTime cs t = Ret true /\
   isDuplicate s n d t = false /\
   (exists ex, first_conflict cs (mkEvent (nextId s) n d t ty loc) (events s)
               = Ret (Some ex)) /\
   value o = false /\
   store o = set_nextId s (nextId s + 1)) \/
  (* accepted *)
  (isValidDate d = Ret true /\ isValidTime cs t = Ret true /\
   isDuplicate s n d t = false /\
   first_conflict cs (mkEvent (nextId s) n d t ty loc) (events s) = Ret None /\
   value o = true /\
   store o = mkStore (events s ++ [mkEvent (nextId s) n d t ty loc])
                     (nextId s + 1) (attendeeEmails s)).
Proof.
  unfold addEvent. intros H.
  bind_inv H. destruct a; cbn [negb] in H.
  2:{ left. injection H as <-. auto. }
  right. bind_inv H. rename Ha0 into Ht. destruct a; cbn [negb] in H.
  2:{ left. injection H as <-. auto. }
  right. destruct (isDuplicate s n d t) eqn:Hd.
  { left. injection H as <-. auto. }
  right. bind_inv H. rename Ha0 into Hn.
  unfold int_add in Hn. destruct (in_int (nextId s + 1)); [| discriminate Hn].
  injection Hn as <-.
  cbn [events set_nextId] in H.
  bind_inv H. rename Ha0 into Hc. destruct a as [ex |].
  - left. repeat split; try assumption; [now exists ex | |].
    + destruct v; [bind_inv H |]; injection H as <-; reflexivity.
    + destruct v; [bind_inv H |]; injection H as <-; reflexivity.
  - right. injection H as <-. repeat split; assumption.
Qed.

End Rules.

(** ** [editEventById] *)

Lemma find_if_Some pred evs pos b :
  find_if pred evs = Some (pos, b) ->
  nth_error evs pos = Some b /\ pred b = true.
Proof.
  revert pos. induction evs as [| x rest IH]; cbn [find_if]; intros pos H.
  - discriminate H.
  - destruct (pred x) eqn:Hp.
    + injection H as <- <-. auto.
    + destruct (find_if pred rest) as [[i y] |]; [| discriminate H].
      injection H as <- <-. cbn [nth_error]. now apply IH.
Qed.

Lemma find_if_None pred evs :
  find_if pred evs = None -> forall x, In x evs -> pred x = false.
Proof.
  induction evs as [| y rest IH]; cbn [find_if In]; intros H x Hin.
  - destruct Hin.
  - destruct (pred y) eqn:Hp; [discriminate H |].
    destruct (find_if pred rest) as [[i z] |]; [discriminate H |].
    destruct Hin as [<- | Hin]; auto.
Qed.

(** Writing the backup over the edited event gives the list back. *)
Lemma assign_restore evs pos e b :
  nth_error evs pos = Some b -> assign (assign evs pos e) pos b = evs.
Proof.
  revert pos. induction evs as [| x rest IH]; intros [| pos] H; cbn in *;
    try discriminate H.
  - now injection H as ->.
  - f_equal. now apply IH.
Qed.

Lemma set_events_restore s evs : set_events (set_events s evs) (events s) = s.
Proof. destruct s. reflexivity. Qed.

Section Edit.

Variable cs : bool.

(** What [editEventById] does, by the test that decided the call. *)
Lemma editEventById_cases s i inp o :
  editEventById cs s i inp = Ret o ->
  (value o = false /\ store o = s) \/
  (exists pos backup e,
     find_if (fun x => id x =? i) (events s) = Some (pos, backup) /\
     e = mkEvent (id backup)
           (keep_or (name backup) (in_name inp))
           (keep_or (date backup) (in_date inp))
           (keep_or (time backup) (in_time inp))
           (keep_or (type backup) (in_type inp))
           (keep_or (location backup) (in_location inp)) /\
     isValidDate (date e) = Ret true /\ isValidTime cs (time e) = Ret true /\
     edit_duplicate e (assign (events s) pos e) = false /\
     edit_conflict cs e (assign (events s) pos e) = Ret None /\
     value o = true /\
     store o = set_events s (assign (events s) pos e)).
Proof.
  unfold editEventById. intros H.
  destruct (find_if _ (events s)) as [[pos backup] |] eqn:Hf.
  2:{ left. injection H as <-. auto. }
  destruct (find_if_Some _ _ _ _ Hf) as [Hnth _].
  set (e := mkEvent _ _ _ _ _ _) in *.
  assert (Hrev : set_events (set_events s (assign (events s) pos e))
                   (assign (events (set_events s (assign (events s) pos e))) pos backup)
                 = s).
  { cbn [events set_events]. rewrite (assign_restore _ _ _ _ Hnth).
    destruct s; reflexivity. }
  rewrite Hrev in H.
  bind_inv H. rename a into bad, Ha into Hbad.
  destruct bad.
  { left. injection H as <-. auto. }
  unfold orM in Hbad. bind_inv Hbad. destruct a; [discriminate Hbad |].
  bind_inv Ha. injection Ha as Ha'.
  bind_inv Hbad. injection Hbad as Hbad'.
  destruct a; [| discriminate Ha']. destruct a0; [| discriminate Hbad'].
  destruct (edit_duplicate e _) eqn:Hd.
  { left. injection H as <-. auto. }
  bind_inv H. rename Ha into Hc. destruct a as [ex |].
  - left. bind_inv H. injection H as <-. auto.
  - right. injection H as <-. exists pos, backup, e.
    cbn [events set_events] in *. repeat split; assumption.
Qed.


End Edit.


(** ** Slot suggestion *)

Section Slots.

Variable cs : bool.

(** A comparator that always answers makes [std_sort] return. *)
Lemma insert_sorted_returns {A} (comp : A -> A -> result bool) x l :
  (forall a b, exists c, comp a b = Ret c) ->
  exists l', insert_sorted comp x l = Ret l'.
Proof.
  intros Hc. induction l as [| y r [r' IH]]; cbn [insert_sorted].
  - eauto.
  - destruct (Hc y x) as [[] ->]; cbn [bind]; [rewrite IH; cbn [bind] |]; eauto.
Qed.

Lemma std_sort_returns {A} (comp : A -> A -> result bool) l :
  (forall a b, exists c, comp a b = Ret c) ->
  exists l', std_sort comp l = Ret l'.
Proof.
  intros Hc. induction l as [| x r [r' IH]]; cbn [std_sort].
  - eauto.
  - rewrite IH. cbn [bind]. now apply insert_sorted_returns.
Qed.



Lemma pair_lt_returns a b : exists c, pair_lt a b = Ret c.
Proof. unfold pair_lt. eauto. Qed.


(** An [addEvent] that passes the four tests. *)
Lemma addEvent_accepted s n d t ty loc v :
  isValidDate d = Ret true -> isValidTime cs t = Ret true ->
  isDuplicate s n d t = false ->
  in_int (nextId s + 1) = true ->
  first_conflict cs (mkEvent (nextId s) n d t ty loc) (events s) = Ret None ->
  addEvent cs s n d t ty loc v =
  Ret (mkOutcome true
         (mkStore (events s ++ [mkEvent (nextId s) n d t ty loc])
                  (nextId s + 1) (attendeeEmails s))
         (say v ["Event added with ID: " ++ Z_to_string (nextId s)])).
Proof.
  intros Hd Ht Hdup Hn Hc. unfold addEvent.
  rewrite Hd. cbn [bind negb]. rewrite Ht. cbn [bind negb]. rewrite Hdup.
  unfold int_add. rewrite Hn. cbn [bind events set_nextId]. rewrite Hc.
  reflexivity.
Qed.

(** C4 (as the code has it).  From the empty store, an event at 09:00 and
    then an event at 10:00 on 01-01-2030 are both accepted, whatever their
    names, types and locations; [suggestSlots("01-01-2030")] then prints
    exactly five slots: 08:00 to 09:00, and 11:00 to 12:00 onward in steps
    of 30 minutes up to 12:30 to 13:30.  Neither 08:30-09:30, nor
    09:00-10:00, nor 10:30-11:30 (which meets the 10:00 event) is among
    them. *)
Theorem suggestSlots_after_two_adds (n1 ty1 loc1 n2 ty2 loc2 : string)
    (v1 v2 : bool) :
  exists o1 o2,
    addEvent cs init n1 "01-01-2030" "09:00" ty1 loc1 v1 = Ret o1 /\
    value o1 = true /\
    addEvent cs (store o1) n2 "01-01-2030" "10:00" ty2 loc2 v2 = Ret o2 /\
    value o2 = true /\
    suggestSlots cs (store o2) "01-01-2030" 60 =
    Ret ["Suggested available slots on 01-01-2030:";
         "  - 08:00 to 09:00";
         "  - 11:00 to 12:00";
         "  - 11:30 to 12:30";
         "  - 12:00 to 13:00";
         "  - 12:30 to 13:30"].
Proof.
  eexists. eexists.
  split; [apply addEvent_accepted; reflexivity |].
  split; [reflexivity |].
  split.
  { apply addEvent_accepted; try reflexivity.
    unfold isDuplicate.
    cbn [store events init app existsb time date name orb].
    replace (String.eqb "09:00" "10:00") with false by reflexivity.
    now rewrite andb_false_r. }
  split; [reflexivity |].
  reflexivity.
Qed.

End Slots.

(** C4 as the specification words it fails: in the scenario the slot
    10:30 to 11:30 is not offered. *)
Lemma suggestSlots_omits_1030 :
  exists lines,
    suggestSlots true two_events "01-01-2030" 60 = Ret lines /\
    ~ In "  - 10:30 to 11:30" lines.
Proof.
  eexists. split; [reflexivity |].
  cbn [In]. intros H.
  repeat (destruct H as [H | H]; [discriminate H |]). exact H.
Qed.

(** ** Rejections of [addEvent] *)

Section AddEvent.

Variable cs : bool.

(** The tests are taken in the order date, time, duplicate, conflict: each
    rejection below holds whatever the later tests would have said. *)
Lemma addEvent_invalid_date s n d t ty loc v :
  isValidDate d = Ret false ->
  addEvent cs s n d t ty loc v =
  Ret (mkOutcome false s (say v ["Invalid date. Use DD-MM-YYYY."])).
Proof. intros H. unfold addEvent. rewrite H. reflexivity. Qed.

Lemma addEvent_invalid_time s n d t ty loc v :
  isValidDate d = Ret true -> isValidTime cs t = Ret false ->
  addEvent cs s n d t ty loc v =
  Ret (mkOutcome false s (say v ["Invalid time. Use HH:MM (24h)."])).
Proof. intros H1 H2. unfold addEvent. rewrite H1. cbn [bind negb]. rewrite H2. reflexivity. Qed.

Lemma addEvent_duplicate s n d t ty loc v :
  isValidDate d = Ret true -> isValidTime cs t = Ret true ->
  isDuplicate s n d t = true ->
  addEvent cs s n d t ty loc v =
  Ret (mkOutcome false s (say v ["Duplicate event exists."])).
Proof.
  intros H1 H2 H3. unfold addEvent. rewrite H1. cbn [bind negb].
  rewrite H2. cbn [bind negb]. rewrite H3. reflexivity.
Qed.

(** A rejected [addEvent] leaves the events and the attendee list as they
    were; only the id counter may have moved. *)
Lemma addEvent_rejected_events s n d t ty loc v o :
  addEvent cs s n d t ty loc v = Ret o -> value o = false ->
  events (store o) = events s /\
  attendeeEmails (store o) = attendeeEmails s /\
  (nextId (store o) = nextId s \/ nextId (store o) = nextId s + 1).
Proof.
  intros H Hv. apply addEvent_cases in H.
  destruct H as [[_ ->] | [(_ & _ & ->) | [(_ & _ & _ & ->) |
                [(_ & _ & _ & _ & _ & ->) | (_ & _ & _ & _ & Hv' & _)]]]];
    cbn; auto; congruence.
Qed.

(** C1, at the input where the code departs from it.  With "Kickoff" at
    09:00 on 01-01-2030 in the store (id 1, counter at 2), adding "Standup"
    at 09:30 on that date is rejected for the conflict and the events are
    untouched, but the id counter has moved from 2 to 3: the store is not
    the store before the call, and the next accepted event gets id 3. *)
Theorem addEvent_conflict_moves_counter :
  exists o1 o2 o3,
    addEvent cs init "Kickoff" "01-01-2030" "09:00" "Meeting" "Hall A" true = Ret o1 /\
    value o1 = true /\ nextId (store o1) = 2 /\
    addEvent cs (store o1) "Standup" "01-01-2030" "09:30" "Meeting" "Hall A" true
      = Ret o2 /\
    value o2 = false /\
    events (store o2) = events (store o1) /\
    nextId (store o2) = 3 /\
    store o2 <> store o1 /\
    addEvent cs (store o2) "Standup" "01-01-2030" "10:00" "Meeting" "Hall A" true
      = Ret o3 /\
    value o3 = true /\
    map id (events (store o3)) = [1; 3].
Proof.
  do 3 eexists.
  split; [reflexivity |]. split; [reflexivity |]. split; [reflexivity |].
  split; [reflexivity |]. split; [reflexivity |]. split; [reflexivity |].
  split; [reflexivity |]. split; [discriminate |].
  split; [reflexivity |]. split; reflexivity.
Qed.

End AddEvent.

(** ** Snapshot import *)

Section SnapshotImport.

Variable cs : bool.

(** C6, at the input where the code departs from it.  A pasted row whose
    id field is not a number makes [std::stoi] throw [invalid_argument],
    which nothing catches: the import does not skip the row, it ends the
    program, whatever the store held.  An id field too large for [int]
    ends it with [out_of_range] in the same way. *)
Theorem importSnapshotCSV_throws (s : Store) :
  importSnapshotCSV cs s ["abc,Kickoff,01-01-2030,09:00,Meeting,Hall A"]
    = Raise invalid_argument /\
  importSnapshotCSV cs s
    ["1,Kickoff,01-01-2030,09:00,Meeting,Hall A";
     "99999999999,Standup,01-01-2030,10:00,Meeting,Hall A"]
    = Raise out_of_range.
Proof. split; reflexivity. Qed.

End SnapshotImport.

(** ** Lists of events under the operations *)

Section ListFacts.

Context {A : Type} (R : A -> A -> Prop).

Lemma ForallOrdPairs_snoc l e :
  ForallOrdPairs R l -> (forall x, In x l -> R x e) ->
  ForallOrdPairs R (l ++ [e]).
Proof.
  induction 1 as [| a l Ha Hl IH]; intros He; cbn [app].
  - constructor; constructor.
  - constructor.
    + apply Forall_app. split; [exact Ha |].
      constructor; [apply He; now left | constructor].
    + apply IH. intros x Hx. apply He. now right.
Qed.

Lemma ForallOrdPairs_filter p l :
  ForallOrdPairs R l -> ForallOrdPairs R (filter p l).
Proof.
  induction 1 as [| a l Ha Hl IH]; cbn [filter].
  - constructor.
  - destruct (p a); [| exact IH].
    constructor; [| exact IH].
    rewrite Forall_forall in *. intros x Hx.
    apply filter_In in Hx. now apply Ha.
Qed.

(** In index form, for a symmetric rule. *)
Lemma ForallOrdPairs_nth l :
  (forall a b, R a b -> R b a) ->
  ForallOrdPairs R l ->
  forall i j a b, i <> j -> nth_error l i = Some a -> nth_error l j = Some b ->
                  R a b.
Proof.
  intros Hsym H. induction H as [| x l Hx Hl IH]; intros i j a b Hij Hi Hj.
  - destruct i; discriminate Hi.
  - rewrite Forall_forall in Hx.
    destruct i as [| i], j as [| j]; cbn [nth_error] in Hi, Hj.
    + congruence.
    + injection Hi as <-. apply Hx. eapply nth_error_In; eassumption.
    + injection Hj as <-. apply Hsym, Hx. eapply nth_error_In; eassumption.
    + apply (IH i j); auto.
Qed.

End ListFacts.

Lemma nth_error_assign_other evs pos e j :
  j <> pos -> nth_error (assign evs pos e) j = nth_error evs j.
Proof.
  revert pos j. induction evs as [| x rest IH]; intros [| pos] [| j] H;
    cbn [assign nth_error]; try reflexivity; try congruence.
  apply IH. congruence.
Qed.

Lemma nth_error_assign_same evs pos e b :
  nth_error evs pos = Some b -> nth_error (assign evs pos e) pos = Some e.
Proof.
  revert pos. induction evs as [| x rest IH]; intros [| pos] H;
    cbn [assign nth_error] in *; try discriminate H; auto.
Qed.

(** Replacing one event by an event that gets on with all the others
    keeps a symmetric rule in force. *)
Lemma ForallOrdPairs_assign (R : Event -> Event -> Prop) evs pos e :
  (forall a b, R a b -> R b a) ->
  ForallOrdPairs R evs ->
  (forall j x, j <> pos -> nth_error evs j = Some x -> R e x) ->
  ForallOrdPairs R (assign evs pos e).
Proof.
  intros Hsym H. revert pos.
  induction H as [| x l Hx Hl IH]; intros pos He.
  - destruct pos; constructor.
  - destruct pos as [| pos]; cbn [assign].
    + constructor; [| exact Hl].
      apply Forall_forall. intros y Hy.
      apply In_nth_error in Hy. destruct Hy as [j Hj].
      apply (He (S j)); [discriminate | exact Hj].
    + constructor.
      * apply Forall_forall. intros y Hy.
        apply In_nth_error in Hy. destruct Hy as [j Hj].
        destruct (Nat.eq_dec j pos) as [-> | Hne].
        -- destruct (nth_error l pos) as [b |] eqn:Hb.
           ++ rewrite (nth_error_assign_same _ _ _ _ Hb) in Hj.
              injection Hj as <-. apply Hsym.
              apply (He O); [discriminate | reflexivity].
           ++ assert (K : nth_error (assign l pos e) pos = None).
              { clear -Hb. revert pos Hb.
                induction l as [| z l IHl]; intros [| pos] Hb;
                  cbn [assign nth_error] in *; try reflexivity; try discriminate.
                now apply IHl. }
              congruence.
        -- rewrite nth_error_assign_other in Hj by exact Hne.
           rewrite Forall_forall in Hx. apply Hx.
           eapply nth_error_In; eassumption.
      * apply IH. intros j y Hj Hy. apply (He (S j)); [congruence | exact Hy].
Qed.

Lemma map_id_assign evs pos e b :
  nth_error evs pos = Some b -> id e = id b ->
  map id (assign evs pos e) = map id evs.
Proof.
  revert pos. induction evs as [| x rest IH]; intros [| pos] H Hid;
    cbn [assign map nth_error] in *; try discriminate H.
  - injection H as ->. now rewrite Hid.
  - f_equal. now apply IH.
Qed.

Lemma NoDup_map_filter {A B} (f : A -> B) p l :
  NoDup (map f l) -> NoDup (map f (filter p l)).
Proof.
  induction l as [| x l IH]; cbn [map filter]; intros H.
  - constructor.
  - inversion H as [| ? ? Hx Hl]; subst.
    destruct (p x); [| now apply IH].
    cbn [map]. constructor; [| now apply IH].
    intros Hin. apply Hx. apply in_map_iff in Hin.
    destruct Hin as (y & Hy & Hin). apply filter_In in Hin.
    apply in_map_iff. exists y. tauto.
Qed.

Lemma Forall_map_filter {A B} (f : A -> B) (P : B -> Prop) p l :
  Forall P (map f l) -> Forall P (map f (filter p l)).
Proof.
  rewrite !Forall_forall. intros H y Hy. apply H.
  apply in_map_iff in Hy. destruct Hy as (x & <- & Hx).
  apply filter_In in Hx. apply in_map. tauto.
Qed.

Lemma NoDup_snoc_fresh (l : list Z) n :
  NoDup l -> Forall (fun i => i < n) l -> NoDup (l ++ [n]).
Proof.
  intros Hl Hb. apply NoDup_app; [exact Hl | repeat constructor; intros [] |].
  intros x Hx [<- | []]. rewrite Forall_forall in Hb.
  specialize (Hb _ Hx). lia.
Qed.

(** ** What one operation does to the store *)

Section Steps.

Variable cs : bool.

(** [maxId] bounds the ids gathered by the reading loop. *)
Lemma import_loop_bounds lines :
  forall temp0 m0 first temp m,
    import_loop cs lines temp0 m0 first = Ret (temp, m) ->
    Forall (fun i => i <= m0) (map id temp0) ->
    m0 <= m /\ Forall (fun i => i <= m) (map id temp).
Proof.
  induction lines as [| line rest IH]; intros temp0 m0 first temp m H Hb;
    cbn [import_loop] in H.
  - injection H as <- <-. split; [lia | exact Hb].
  - destruct (size line =? 0).
    { injection H as <- <-. split; [lia | exact Hb]. }
    destruct (negb (contains line ",")); [now apply (IH _ _ _ _ _ H) |].
    destruct (first && contains (toLower line) header);
      [now apply (IH _ _ _ _ _ H) |].
    bind_inv H. rename a into e. bind_inv H. destruct a.
    + now apply (IH _ _ _ _ _ H).
    + apply IH in H.
      * split; [lia | tauto].
      * rewrite map_app. apply Forall_app. split.
        -- eapply Forall_impl; [| exact Hb]. cbn. intros; lia.
        -- repeat constructor. lia.
Qed.

(** What [importSnapshotCSV] leaves when it returns. *)
Lemma importSnapshotCSV_cases s lines o :
  importSnapshotCSV cs s lines = Ret o ->
  exists temp m,
    import_loop cs lines [] 0 true = Ret (temp, m) /\
    ((temp = [] /\ store o = s) \/
     (temp <> [] /\ store o = mkStore temp (m + 1) (attendeeEmails s))).
Proof.
  unfold importSnapshotCSV. intros H. bind_inv H. destruct a as [temp m].
  exists temp, m. split; [exact Ha |].
  destruct temp as [| e temp].
  - left. injection H as <-. auto.
  - right. bind_inv H. unfold int_add in Ha0.
    destruct (in_int (m + 1)); [| discriminate Ha0].
    injection Ha0 as <-. injection H as <-. split; [discriminate | reflexivity].
Qed.

Lemma edit_duplicate_false e evs :
  edit_duplicate e evs = false ->
  forall ex, In ex evs -> id ex <> id e -> ~ duplicate ex e.
Proof.
  unfold edit_duplicate. intros H ex Hin Hid (D1 & D2 & D3).
  assert (K : existsb (fun ex0 => negb (id ex0 =? id e)
                          && iequals (name ex0) (name e)
                          && String.eqb (date ex0) (date e)
                          && String.eqb (time ex0) (time e)) evs = true).
  { apply existsb_exists. exists ex. split; [exact Hin |].
    rewrite D1, D2, D3, !String.eqb_refl.
    apply Z.eqb_neq in Hid. now rewrite Hid. }
  congruence.
Qed.

Lemma edit_conflict_None e evs :
  edit_conflict cs e evs = Ret None ->
  forall ex, In ex evs -> id ex <> id e -> conflicts cs e ex = Ret false.
Proof.
  induction evs as [| x rest IH]; cbn [edit_conflict]; intros H ex Hin Hid.
  - destruct Hin.
  - bind_inv H. destruct a; [discriminate H |].
    destruct Hin as [<- | Hin]; [| now apply IH].
    unfold andM in Ha. cbn [bind] in Ha.
    apply Z.eqb_neq in Hid. rewrite Hid in Ha. exact Ha.
Qed.

Lemma import_accepts_and (P Q : list Event -> Prop) o :
  import_accepts cs (fun rows => P rows /\ Q rows) o ->
  import_accepts cs P o /\ import_accepts cs Q o.
Proof.
  destruct o; cbn [import_accepts]; auto.
  intros H. split; intros temp m Hl; now apply (H temp m).
Qed.

(** Unique ids below the counter survive every operation, if imports
    bring rows with pairwise different ids. *)
Lemma run_op_ids_ok s o s' :
  ids_ok s -> import_accepts cs ids_unique o ->
  run_op cs s o = Ret s' -> ids_ok s'.
Proof.
  unfold ids_ok, ids_unique, ids_below. intros [Hu Hb] Hacc H.
  destruct o as [n d t ty loc v | i inp | i | n | lines]; cbn [run_op] in H.
  - bind_inv H. injection H as <-. apply addEvent_cases in Ha.
    destruct Ha as [[_ ->] | [(_ & _ & ->) | [(_ & _ & _ & ->) |
                   [(_ & _ & _ & _ & _ & ->) | (_ & _ & _ & _ & _ & ->)]]]];
      cbn [store events nextId set_nextId]; auto.
    + split; [exact Hu |]. eapply Forall_impl; [| exact Hb]. cbn. intros; lia.
    + rewrite map_app. cbn [map id]. split.
      * now apply NoDup_snoc_fresh.
      * apply Forall_app. split.
        -- eapply Forall_impl; [| exact Hb]. cbn. intros; lia.
        -- repeat constructor. lia.
  - bind_inv H. injection H as <-. apply editEventById_cases in Ha.
    destruct Ha as [[_ ->] | (pos & b & e & Hf & -> & _ & _ & _ & _ & _ & ->)];
      [auto |].
    apply find_if_Some in Hf. destruct Hf as [Hn _].
    cbn [events nextId set_events].
    rewrite (map_id_assign _ _ _ _ Hn) by reflexivity. auto.
  - injection H as <-. unfold deleteById.
    destruct (Nat.eqb _ _); cbn [store events nextId set_events];
      unfold remove_if; split;
      auto using NoDup_map_filter, Forall_map_filter.
  - injection H as <-. unfold deleteByName.
    destruct (Nat.eqb _ _); cbn [store events nextId set_events];
      unfold remove_if; split;
      auto using NoDup_map_filter, Forall_map_filter.
  - bind_inv H. injection H as <-. apply importSnapshotCSV_cases in Ha.
    destruct Ha as (temp & m & Hl & [[_ ->] | [_ ->]]); [auto |].
    cbn [events nextId]. split; [exact (Hacc _ _ Hl) |].
    apply import_loop_bounds in Hl; [| constructor].
    eapply Forall_impl; [| exact (proj2 Hl)]. cbn. intros; lia.
Qed.

(** Positive ids survive every operation, if imports bring rows with
    positive ids. *)
Lemma run_op_ids_positive s o s' :
  ids_positive (events s) /\ 0 < nextId s ->
  import_accepts cs ids_positive o ->
  run_op cs s o = Ret s' ->
  ids_positive (events s') /\ 0 < nextId s'.
Proof.
  unfold ids_positive. intros [Hp Hn] Hacc H.
  destruct o as [n d t ty loc v | i inp | i | n | lines]; cbn [run_op] in H.
  - bind_inv H. injection H as <-. apply addEvent_cases in Ha.
    destruct Ha as [[_ ->] | [(_ & _ & ->) | [(_ & _ & _ & ->) |
                   [(_ & _ & _ & _ & _ & ->) | (_ & _ & _ & _ & _ & ->)]]]];
      cbn [store events nextId set_nextId]; auto.
    + split; [exact Hp | lia].
    + rewrite map_app. cbn [map id]. split; [| lia].
      apply Forall_app. split; [exact Hp | repeat constructor; lia].
  - bind_inv H. injection H as <-. apply editEventById_cases in Ha.
    destruct Ha as [[_ ->] | (pos & b & e & Hf & -> & _ & _ & _ & _ & _ & ->)];
      [auto |].
    apply find_if_Some in Hf. destruct Hf as [Hnth _].
    cbn [events nextId set_events].
    rewrite (map_id_assign _ _ _ _ Hnth) by reflexivity. auto.
  - injection H as <-. unfold deleteById.
    destruct (Nat.eqb _ _); cbn [store events nextId set_events];
      unfold remove_if; split; auto using Forall_map_filter.
  - injection H as <-. unfold deleteByName.
    destruct (Nat.eqb _ _); cbn [store events nextId set_events];
      unfold remove_if; split; auto using Forall_map_filter.
  - bind_inv H. injection H as <-. apply importSnapshotCSV_cases in Ha.
    destruct Ha as (temp & m & Hl & [[_ ->] | [_ ->]]); [auto |].
    cbn [events nextId]. split; [exact (Hacc _ _ Hl) |].
    apply import_loop_bounds in Hl; [lia | constructor].
Qed.

(** The duplicate and conflict rules survive every operation on a store
    with unique ids, if imports bring rows that obey them. *)
Lemma run_op_rules s o s' :
  ids_unique (events s) -> rules_hold cs (events s) ->
  import_accepts cs (rules_hold cs) o ->
  run_op cs s o = Ret s' -> rules_hold cs (events s').
Proof.
  unfold rules_hold. intros Hu Hr Hacc H.
  destruct o as [n d t ty loc v | i inp | i | n | lines]; cbn [run_op] in H.
  - bind_inv H. injection H as <-. apply addEvent_cases in Ha.
    destruct Ha as [[_ ->] | [(_ & _ & ->) | [(_ & _ & _ & ->) |
                   [(_ & _ & _ & _ & _ & ->) | (_ & _ & Hd & Hc & _ & ->)]]]];
      cbn [store events nextId set_nextId]; auto.
    apply ForallOrdPairs_snoc; [exact Hr |]. intros x Hx. split.
    + apply (isDuplicate_false s (mkEvent (nextId s) n d t ty loc) Hd x Hx).
    + rewrite conflicts_sym. now apply (first_conflict_None cs _ _ Hc).
  - bind_inv H. injection H as <-. apply editEventById_cases in Ha.
    destruct Ha as [[_ ->] | (pos & b & e & Hf & He & _ & _ & Hd & Hc & _ & ->)];
      [auto |].
    apply find_if_Some in Hf. destruct Hf as [Hnth _].
    cbn [events set_events].
    apply ForallOrdPairs_assign; [apply compatible_sym | exact Hr |].
    intros j x Hj Hx.
    assert (Hin : In x (assign (events s) pos e)).
    { apply nth_error_In with j. now rewrite nth_error_assign_other. }
    assert (Hid : id x <> id e).
    { replace (id e) with (id b) by (subst e; reflexivity).
      intros Heq. apply Hj.
      unfold ids_unique in Hu. rewrite NoDup_nth_error in Hu.
      apply Hu.
      - apply nth_error_Some. rewrite nth_error_map, Hx. discriminate.
      - rewrite !nth_error_map, Hx, Hnth. cbn. now rewrite Heq. }
    apply compatible_sym. split.
    + now apply (edit_duplicate_false e _ Hd).
    + rewrite conflicts_sym. now apply (edit_conflict_None e _ Hc).
  - injection H as <-. unfold deleteById.
    destruct (Nat.eqb _ _); cbn [store events set_events];
      unfold remove_if; now apply ForallOrdPairs_filter.
  - injection H as <-. unfold deleteByName.
    destruct (Nat.eqb _ _); cbn [store events set_events];
      unfold remove_if; now apply ForallOrdPairs_filter.
  - bind_inv H. injection H as <-. apply importSnapshotCSV_cases in Ha.
    destruct Ha as (temp & m & Hl & [[_ ->] | [_ ->]]); [auto |].
    cbn [events]. exact (Hacc _ _ Hl).
Qed.

End Steps.

(** ** Invariants of the committed states *)

Section Reachable.

Variable cs : bool.

Lemma run_reachable ok ops :
  forall s s', reachable_by cs ok s -> Forall ok ops ->
               run cs s ops = Ret s' -> reachable_by cs ok s'.
Proof.
  induction ops as [| o rest IH]; intros s s' Hs Hok H; cbn [run] in H.
  - now injection H as <-.
  - inversion Hok; subst. bind_inv H.
    apply (IH a s'); [| assumption | exact H].
    now apply reach_step with s o.
Qed.

Lemma reachable_clean_inv s :
  reachable_by cs (import_accepts cs (clean_rows cs)) s ->
  ids_ok s /\ rules_hold cs (events s).
Proof.
  induction 1 as [| s o s' _ [Hi Hr] Hok Hstep].
  - repeat split; constructor.
  - apply import_accepts_and in Hok. destruct Hok as [Hok1 Hok2]. split.
    + exact (run_op_ids_ok cs s o s' Hi Hok1 Hstep).
    + exact (run_op_rules cs s o s' (proj1 Hi) Hr Hok2 Hstep).
Qed.

Lemma reachable_sound_inv s :
  reachable_by cs (import_accepts cs sound_ids) s ->
  ids_ok s /\ ids_positive (events s) /\ 0 < nextId s.
Proof.
  induction 1 as [| s o s' _ [Hi Hp] Hok Hstep].
  - repeat split; try constructor.
  - apply import_accepts_and in Hok. destruct Hok as [Hok1 Hok2]. split.
    + exact (run_op_ids_ok cs s o s' Hi Hok1 Hstep).
    + exact (run_op_ids_positive cs s o s' Hp Hok2 Hstep).
Qed.

End Reachable.

Lemma sample_run_store : run true init sample_run = Ret sample_store.
Proof. reflexivity. Qed.

Lemma sample_run_sound : Forall (import_accepts true sound_ids) sample_run.
Proof.
  unfold sample_run.
  repeat (apply Forall_cons; [cbn [import_accepts]; try exact I |]);
    try apply Forall_nil.
  intros temp m H. vm_compute in H. injection H as <- _. split.
  - unfold ids_unique. cbn [map id].
    repeat constructor; cbn [In]; intuition discriminate.
  - unfold ids_positive. cbn [map id]. repeat constructor.
Qed.

(** ** Sorting *)

Section SortFacts.

Context {A : Type} (comp : A -> A -> result bool).
Context (P : A -> Prop) (f : A -> A -> bool).

Hypothesis comp_f : forall a b, P a -> P b -> comp a b = Ret (f a b).
Hypothesis f_asym : forall a b, P a -> P b -> f a b = true -> f b a = false.
Hypothesis f_negtrans :
  forall a b c, P a -> P b -> P c ->
                f a b = false -> f b c = false -> f a c = false.

(** [a] is not after [b]. *)
Let notafter (a b : A) : Prop := f b a = false.

Lemma insert_sorted_correct x l :
  P x -> Forall P l -> StronglySorted notafter l ->
  exists l', insert_sorted comp x l = Ret l' /\
             Permutation (x :: l) l' /\ StronglySorted notafter l'.
Proof.
  intros Hx Hl Hs. induction l as [| y r IH]; cbn [insert_sorted].
  - eexists. split; [reflexivity |]. split; [reflexivity |].
    repeat constructor.
  - inversion Hl as [| ? ? Hy Hr]; subst.
    inversion Hs as [| ? ? Hsr Hyr]; subst.
    rewrite (comp_f y x Hy Hx). cbn [bind].
    destruct (f y x) eqn:Hyx.
    + destruct (IH Hr Hsr) as (r' & -> & Hperm & Hs').
      cbn [bind]. eexists. split; [reflexivity |]. split.
      * rewrite perm_swap. now constructor.
      * constructor; [exact Hs' |].
        rewrite Forall_forall in *. intros z Hz.
        apply (Permutation_in _ (Permutation_sym Hperm)) in Hz.
        destruct Hz as [<- | Hz]; [now apply f_asym | now apply Hyr].
    + eexists. split; [reflexivity |]. split; [reflexivity |].
      constructor; [exact Hs |].
      constructor; [exact Hyx |].
      rewrite Forall_forall in *. intros z Hz.
      unfold notafter.
      apply f_negtrans with y; auto; now apply Hyr.
Qed.

Lemma std_sort_correct l :
  Forall P l ->
  exists l', std_sort comp l = Ret l' /\
             Permutation l l' /\ StronglySorted notafter l'.
Proof.
  induction 1 as [| x r Hx Hr IH]; cbn [std_sort].
  - eexists. split; [reflexivity |]. split; constructor.
  - destruct IH as (r' & -> & Hperm & Hs). cbn [bind].
    assert (Hr' : Forall P r').
    { rewrite Forall_forall in *. intros z Hz. apply Hr.
      now apply (Permutation_in _ (Permutation_sym Hperm)). }
    destruct (insert_sorted_correct x r' Hx Hr' Hs) as (l' & -> & Hp & Hs').
    exists l'. split; [reflexivity |]. split; [| exact Hs'].
    rewrite <- Hp. now constructor.
Qed.

End SortFacts.

(** A list without inversion at any two positions is strongly sorted. *)
Lemma StronglySorted_of_nth {A} (R : A -> A -> Prop) l :
  (forall i j a b, (i < j)%nat -> nth_error l i = Some a ->
                   nth_error l j = Some b -> R a b) ->
  StronglySorted R l.
Proof.
  induction l as [| x l IH]; intros H; constructor.
  - apply IH. intros i j a b Hij Ha Hb.
    apply (H (S i) (S j)); [lia | exact Ha | exact Hb].
  - apply Forall_forall. intros y Hy.
    apply In_nth_error in Hy. destruct Hy as [j Hj].
    apply (H O (S j)); [lia | reflexivity | exact Hj].
Qed.

Lemma StronglySorted_nth {A} (R : A -> A -> Prop) l :
  StronglySorted R l ->
  forall i j a b, (i < j)%nat -> nth_error l i = Some a ->
                  nth_error l j = Some b -> R a b.
Proof.
  induction 1 as [| x l Hs IH Hx]; intros i j a b Hij Ha Hb.
  - destruct i; discriminate Ha.
  - destruct j as [| j]; [lia |]. destruct i as [| i]; cbn [nth_error] in *.
    + injection Ha as <-. rewrite Forall_forall in Hx. apply Hx.
      eapply nth_error_In; eassumption.
    + apply (IH i j); [lia | exact Ha | exact Hb].
Qed.


(** ** The order of the keys *)

Lemma ltb_lt a b : String.ltb a b = true <-> String_as_OT.lt a b.
Proof.
  unfold String.ltb. rewrite <- String_as_OT.cmp_lt. unfold String_as_OT.cmp.
  destruct (String.compare a b); split; congruence.
Qed.

Lemma key_less_klt ka kb : key_less ka kb = true <-> klt ka kb.
Proof.
  unfold key_less, klt. rewrite orb_true_iff, andb_true_iff, ltb_lt,
    String.eqb_eq, Z.ltb_lt. reflexivity.
Qed.

Lemma klt_trans a b c : klt a b -> klt b c -> klt a c.
Proof.
  unfold klt. intros [H1 | [E1 L1]] [H2 | [E2 L2]].
  - left. eapply String_as_OT.lt_trans; eassumption.
  - left. now rewrite <- E2.
  - left. now rewrite E1.
  - right. split; [congruence | lia].
Qed.

Lemma klt_irrefl a : ~ klt a a.
Proof.
  unfold klt. intros [H | [_ H]]; [| lia].
  apply String_as_OT.lt_not_eq in H. apply H. reflexivity.
Qed.

Lemma klt_total a b : klt a b \/ a = b \/ klt b a.
Proof.
  destruct a as [sa za], b as [sb zb]. unfold klt. cbn [fst snd].
  destruct (String_as_OT.compare sa sb) as [H | H | H].
  - auto.
  - unfold String_as_OT.eq in H. subst sb.
    destruct (Z.lt_trichotomy za zb) as [L | [-> | L]]; auto.
  - auto.
Qed.

Lemma key_less_asym a b : key_less a b = true -> key_less b a = false.
Proof.
  intros H. apply key_less_klt in H.
  destruct (key_less b a) eqn:E; [| reflexivity].
  apply key_less_klt in E. exfalso.
  exact (klt_irrefl a (klt_trans _ _ _ H E)).
Qed.

Lemma key_less_false a b : key_less a b = false <-> (a = b \/ klt b a).
Proof.
  split.
  - intros H. destruct (klt_total a b) as [K | [K | K]]; auto.
    apply key_less_klt in K. congruence.
  - intros [-> | K].
    + destruct (key_less b b) eqn:E; [| reflexivity].
      apply key_less_klt in E. now apply klt_irrefl in E.
    + apply key_less_asym. now apply key_less_klt.
Qed.

Lemma key_less_negtrans a b c :
  key_less a b = false -> key_less b c = false -> key_less a c = false.
Proof.
  rewrite !key_less_false. intros [-> | H1] [-> | H2]; auto.
  right. eapply klt_trans; eassumption.
Qed.

(** ** Listing *)

Lemma valid_date_shape d :
  isValidDate d = Ret true ->
  exists d1 d2 m1 m2 y1 y2 y3 y4, d = ddmmyyyy d1 d2 m1 m2 y1 y2 y3 y4.
Proof.
  rewrite isValidDate_eq. intros H. apply Ret_inj in H.
  unfold spec_valid_date in H.
  destruct (spec_date_fields d) as [f |] eqn:Hf; [clear H | discriminate H].
  unfold spec_date_fields in Hf.
  do 10 (destruct d as [| ? d]; [discriminate Hf |]).
  destruct d; [| discriminate Hf].
  destruct (Ascii.eqb a1 "-") eqn:S1; [| discriminate Hf].
  destruct (Ascii.eqb a4 "-") eqn:S2; [| discriminate Hf].
  apply Ascii.eqb_eq in S1, S2. subst.
  do 8 eexists. reflexivity.
Qed.

Lemma ymd_ddmmyyyy d1 d2 m1 m2 y1 y2 y3 y4 :
  ymd (ddmmyyyy d1 d2 m1 m2 y1 y2 y3 y4) =
  Ret (String y1 (String y2 (String y3 (String y4 (String m1 (String m2
         (String d1 (String d2 "")))))))).
Proof. reflexivity. Qed.

(** On valid dates the rearranged text tells the date. *)
Lemma ymd_inj a b ya yb :
  isValidDate a = Ret true -> isValidDate b = Ret true ->
  ymd a = Ret ya -> ymd b = Ret yb -> ya = yb -> a = b.
Proof.
  intros Ha Hb.
  apply valid_date_shape in Ha, Hb.
  destruct Ha as (a1 & a2 & a3 & a4 & a5 & a6 & a7 & a8 & ->).
  destruct Hb as (b1 & b2 & b3 & b4 & b5 & b6 & b7 & b8 & ->).
  rewrite !ymd_ddmmyyyy. intros E1 E2 E.
  apply Ret_inj in E1, E2. subst ya yb.
  injection E as -> -> -> -> -> -> -> ->. reflexivity.
Qed.

Section Listing.

Variable cs : bool.

Lemma valid_event_key e :
  valid_event cs e ->
  exists y m, ymd (date e) = Ret y /\ toMinutes cs (time e) = Ret m /\
              event_key cs e = Ret (y, m).
Proof.
  intros [Hd Ht]. unfold event_key.
  apply valid_date_shape in Hd.
  destruct Hd as (a1 & a2 & a3 & a4 & a5 & a6 & a7 & a8 & ->).
  apply isValidTime_inv in Ht.
  destruct Ht as (a & b & c & d & -> & Da & Db & Dc & Dd & _).
  rewrite ymd_ddmmyyyy, (toMinutes_hhmm cs a b c d Da Db Dc Dd).
  do 2 eexists. repeat split; reflexivity.
Qed.

(** On valid events the comparator of [listAll] is the order of keys. *)
Lemma listAll_less_key a b :
  valid_event cs a -> valid_event cs b ->
  listAll_less cs a b = Ret (less_by_key cs a b).
Proof.
  intros Ha Hb.
  destruct (valid_event_key a Ha) as (ya & ta & Hya & Hta & Hka).
  destruct (valid_event_key b Hb) as (yb & tb & Hyb & Htb & Hkb).
  unfold listAll_less, less_by_key. rewrite Hka, Hkb, Hya, Hyb, Hta, Htb.
  cbn [bind]. unfold key_less. cbn [fst snd]. f_equal.
  destruct (String.eqb (date a) (date b)) eqn:E.
  - apply String.eqb_eq in E. rewrite E in Hya.
    assert (ya = yb) as -> by congruence.
    rewrite String.eqb_refl.
    replace (String.ltb yb yb) with false; [reflexivity |].
    symmetry. unfold String.ltb.
    replace (String.compare yb yb) with Eq; [reflexivity |].
    symmetry. now apply String_as_OT.cmp_eq.
  - replace (String.eqb ya yb) with false; [now rewrite orb_false_r |].
    symmetry. apply String.eqb_neq. intros ->.
    apply String.eqb_neq in E. apply E.
    exact (ymd_inj _ _ _ _ (proj1 Ha) (proj1 Hb) Hya Hyb eq_refl).
Qed.

Lemma less_by_key_asym a b :
  valid_event cs a -> valid_event cs b ->
  less_by_key cs a b = true -> less_by_key cs b a = false.
Proof.
  intros Ha Hb. unfold less_by_key.
  destruct (valid_event_key a Ha) as (ya & ta & _ & _ & ->).
  destruct (valid_event_key b Hb) as (yb & tb & _ & _ & ->).
  apply key_less_asym.
Qed.

Lemma less_by_key_negtrans a b c :
  valid_event cs a -> valid_event cs b -> valid_event cs c ->
  less_by_key cs a b = false -> less_by_key cs b c = false ->
  less_by_key cs a c = false.
Proof.
  intros Ha Hb Hc. unfold less_by_key.
  destruct (valid_event_key a Ha) as (ya & ta & _ & _ & ->).
  destruct (valid_event_key b Hb) as (yb & tb & _ & _ & ->).
  destruct (valid_event_key c Hc) as (yc & tc & _ & _ & ->).
  apply key_less_negtrans.
Qed.

(** Two valid events the comparator does not invert are in date order,
    then time order. *)
Lemma not_inverted_ordered a b :
  valid_event cs a -> valid_event cs b ->
  listAll_less cs b a = Ret false -> date_time_ordered cs a b.
Proof.
  intros Ha Hb H. rewrite (listAll_less_key b a Hb Ha) in H.
  apply Ret_inj in H. unfold less_by_key in H.
  destruct (valid_event_key a Ha) as (ya & ta & Hya & Hta & Hka).
  destruct (valid_event_key b Hb) as (yb & tb & Hyb & Htb & Hkb).
  rewrite Hka, Hkb in H. apply key_less_false in H.
  exists ya, yb, ta, tb. repeat split; try assumption.
  destruct H as [E | [L | [E L]]]; cbn [fst snd] in *.
  - injection E as -> ->. right. split; [| lia].
    exact (ymd_inj _ _ _ _ (proj1 Ha) (proj1 Hb) Hya Hyb eq_refl).
  - left. now apply ltb_lt.
  - right. split; [| lia].
    exact (ymd_inj _ _ _ _ (proj1 Ha) (proj1 Hb) Hya Hyb E).
Qed.

End Listing.

Example listAll_unsorted_store :
  listAll true unsorted_store =
  Ret (Some [mkEvent 4 "Gala" "31-12-2029" "19:00" "Talk" "Hall A";
             mkEvent 3 "Briefing" "15-01-2030" "08:00" "Meeting" "Room 2";
             mkEvent 2 "Lunch" "15-01-2030" "12:30" "Meeting" "";
             mkEvent 1 "Fair" "02-03-2030" "09:00" "Talk" "Hall A"]).
Proof. reflexivity. Qed.

(** ** The model's loops never run out of their budget *)



Section Fuel.

Variable cs : bool.









(** The rows the reading loop gathers passed its four tests. *)
Lemma import_loop_rows lines :
  forall temp0 m0 first temp m,
    import_loop cs lines temp0 m0 first = Ret (temp, m) ->
    Forall (accepted_row cs) temp0 -> Forall (accepted_row cs) temp.
Proof.
  induction lines as [| line rest IH]; intros temp0 m0 first temp m H Hok;
    cbn [import_loop] in H.
  - now injection H as <- _.
  - destruct (size line =? 0); [now injection H as <- _ |].
    destruct (negb (contains line ",")); [now apply (IH _ _ _ _ _ H) |].
    destruct (first && contains (toLower line) header);
      [now apply (IH _ _ _ _ _ H) |].
    bind_inv H. rename a into e. bind_inv H. destruct a.
    + now apply (IH _ _ _ _ _ H).
    + apply (IH _ _ _ _ _ H). apply Forall_app. split; [exact Hok |].
      constructor; [| constructor].
      unfold orM in Ha0. cbn [bind] in Ha0.
      destruct (id e =? 0) eqn:E0; [discriminate Ha0 |].
      destruct (String.eqb (name e) "") eqn:En; [discriminate Ha0 |].
      cbn [orb bind] in Ha0.
      rewrite isValidDate_eq in Ha0. cbn [bind] in Ha0.
      destruct (spec_valid_date (date e)) eqn:Ed; [| discriminate Ha0].
      cbn [negb bind] in Ha0.
      destruct (isValidTime_total cs (time e)) as [vt Ht].
      rewrite Ht in Ha0. cbn [bind] in Ha0.
      destruct vt; [| discriminate Ha0].
      apply Z.eqb_neq in E0. apply String.eqb_neq in En.
      repeat split; try assumption.
      now rewrite isValidDate_eq, Ed.
Qed.

(** Every operation keeps the dates and times of the live events valid. *)
Lemma run_op_valid s o s' :
  Forall (valid_event cs) (events s) -> run_op cs s o = Ret s' ->
  Forall (valid_event cs) (events s').
Proof.
  intros Hv H.
  destruct o as [n d t ty loc v | i inp | i | n | lines]; cbn [run_op] in H.
  - bind_inv H. injection H as <-. apply addEvent_cases in Ha.
    destruct Ha as [[_ ->] | [(_ & _ & ->) | [(_ & _ & _ & ->) |
                   [(_ & _ & _ & _ & _ & ->) | (Hd & Ht & _ & _ & _ & ->)]]]];
      cbn [store events set_nextId]; auto.
    apply Forall_app. split; [exact Hv |]. repeat constructor; assumption.
  - bind_inv H. injection H as <-. apply editEventById_cases in Ha.
    destruct Ha as [[_ ->] | (pos & b & e & _ & _ & Hd & Ht & _ & _ & _ & ->)];
      [auto |].
    cbn [events set_events]. rewrite Forall_forall in *. intros x Hx.
    apply In_nth_error in Hx. destruct Hx as [j Hj].
    destruct (Nat.eq_dec j pos) as [-> | Hne].
    + destruct (nth_error (events s) pos) as [y |] eqn:Hy.
      * rewrite (nth_error_assign_same _ _ _ _ Hy) in Hj.
        injection Hj as <-. split; assumption.
      * exfalso. apply nth_error_None in Hy.
        assert (K : nth_error (assign (events s) pos e) pos <> None)
          by congruence.
        apply nth_error_Some in K.
        assert (L : List.length (assign (events s) pos e) = List.length (events s)).
        { clear. generalize pos. induction (events s) as [| z l IHl];
            intros [| q]; cbn [assign List.length]; auto. }
        lia.
    + rewrite nth_error_assign_other in Hj by exact Hne.
      apply Hv. eapply nth_error_In; eassumption.
  - injection H as <-. unfold deleteById.
    destruct (Nat.eqb _ _); cbn [store events set_events]; unfold remove_if;
      rewrite Forall_forall in *; intros x Hx; apply filter_In in Hx;
      now apply Hv.
  - injection H as <-. unfold deleteByName.
    destruct (Nat.eqb _ _); cbn [store events set_events]; unfold remove_if;
      rewrite Forall_forall in *; intros x Hx; apply filter_In in Hx;
      now apply Hv.
  - bind_inv H. injection H as <-. apply importSnapshotCSV_cases in Ha.
    destruct Ha as (temp & m & Hl & [[_ ->] | [_ ->]]); [auto |].
    cbn [events]. apply import_loop_rows in Hl; [| constructor].
    eapply Forall_impl; [| exact Hl]. intros e (_ & _ & He). exact He.
Qed.

(** In every committed state the events have valid dates and times, so
    the hypothesis of the listing theorem holds there. *)
Lemma reachable_valid s :
  reachable cs s -> Forall (valid_event cs) (events s).
Proof.
  induction 1 as [| s o s' _ IH _ Hstep].
  - constructor.
  - exact (run_op_valid s o s' IH Hstep).
Qed.

End Fuel.

(** * Further properties of the engine *)

(** ** Conflicts *)

Section ConflictFacts.

Variable cs : bool.

(** X1.  [conflicts] does not depend on the order of its arguments, and
    two events on different dates never conflict, whatever their times
    (even texts that are no times at all). *)
Theorem conflicts_symmetric_and_per_date (a b : Event) :
  conflicts cs a b = conflicts cs b a /\
  (date a <> date b -> conflicts cs a b = Ret false).
Proof.
  split; [apply conflicts_sym |].
  intros H. unfold conflicts. apply String.eqb_neq in H. now rewrite H.
Qed.

Lemma conflicts_minutes a b s1 s2 :
  toMinutes cs (time a) = Ret s1 -> toMinutes cs (time b) = Ret s2 ->
  conflicts cs a b =
  Ret (String.eqb (date a) (date b) && (Z.abs (s1 - s2) <? 60)).
Proof.
  intros H1 H2. unfold conflicts. rewrite H1, H2.
  destruct (String.eqb (date a) (date b)); cbn [negb bind andb]; [| reflexivity].
  f_equal.
  destruct (s1 <? s2 + 60) eqn:E1, (s2 <? s1 + 60) eqn:E2,
           (Z.abs (s1 - s2) <? 60) eqn:E3; cbn [andb]; try reflexivity; lia.
Qed.

Lemma valid_time_minutes t :
  isValidTime cs t = Ret true ->
  exists m, toMinutes cs t = Ret m /\ 0 <= m < 1440.
Proof.
  intros H. apply isValidTime_inv in H.
  destruct H as (a & b & c & d & -> & Ha & Hb & Hc & Hd & Hh & Hm).
  eexists. split; [apply toMinutes_hhmm; assumption |].
  pose proof (digit_val_bounds _ Ha). pose proof (digit_val_bounds _ Hb).
  pose proof (digit_val_bounds _ Hc). pose proof (digit_val_bounds _ Hd).
  lia.
Qed.


End ConflictFacts.


(** ** [fromMinutes] *)

(** A number below 100 prints as its two decimal digits. *)
Lemma print2_two_digits n :
  0 <= n <= 99 ->
  exists a b, print2 n = String a (String b "") /\
              isdigit a = true /\ isdigit b = true /\
              n = 10 * digit_val a + digit_val b.
Proof.
  intros H.
  assert (Hin : In n (map Z.of_nat (seq 0 100))).
  { apply in_map_iff. exists (Z.to_nat n). split; [lia |].
    apply in_seq. lia. }
  cbn in Hin.
  repeat (destruct Hin as [<- | Hin];
          [do 2 eexists; split; [reflexivity | repeat split; reflexivity] |]).
  destruct Hin.
Qed.

Section FromMinutes.

Variable cs : bool.

(** On a number of minutes of a day [fromMinutes] and [toMinutes] are
    inverse to each other. *)
Lemma fromMinutes_small k :
  0 <= k < 1440 ->
  isValidTime cs (fromMinutes k) = Ret true /\
  toMinutes cs (fromMinutes k) = Ret k.
Proof.
  intros Hk.
  assert (Hh : 0 <= k / 60 <= 23).
  { split; [apply Z.div_pos; lia |].
    assert (k / 60 < 24) by (apply Z.div_lt_upper_bound; lia). lia. }
  assert (Hm : 0 <= k mod 60 <= 59) by (pose proof (Z.mod_pos_bound k 60); lia).
  assert (Hf : fromMinutes k = print2 (k / 60) ++ ":" ++ print2 (k mod 60)).
  { rewrite (Z.div_mod k 60) at 1 by lia. now apply fromMinutes_split. }
  rewrite Hf. clear Hf.
  destruct (print2_two_digits (k / 60)) as (a & b & -> & Da & Db & Eh); [lia |].
  destruct (print2_two_digits (k mod 60)) as (c & d & -> & Dc & Dd & Em); [lia |].
  change (String a (String b "") ++ ":" ++ String c (String d ""))
    with (hhmm a b c d).
  split.
  - unfold hhmm. rewrite isValidTime_five, Da, Db, Dc, Dd.
    replace (10 * digit_val a + digit_val b <=? 23) with true by lia.
    replace (10 * digit_val c + digit_val d <=? 59) with true by lia.
    reflexivity.
  - rewrite toMinutes_hhmm by assumption. f_equal.
    rewrite <- Eh, <- Em. symmetry. apply Z.div_mod. lia.
Qed.

Lemma fromMinutes_normalises m :
  fromMinutes m = fromMinutes (if m <? 0 then 0 else m mod 1440).
Proof.
  unfold fromMinutes. destruct (m <? 0) eqn:E.
  - reflexivity.
  - replace (m mod 1440 <? 0) with false
      by (pose proof (Z.mod_pos_bound m 1440); lia).
    rewrite (Z.rem_mod_nonneg m (24 * 60)) by lia.
    rewrite (Z.rem_small (m mod 1440) (24 * 60))
      by (pose proof (Z.mod_pos_bound m 1440); lia).
    reflexivity.
Qed.

(** X3.  Whatever number it is given, [fromMinutes] prints a text that
    [isValidTime] accepts, and [toMinutes] reads from it the number of
    minutes after normalisation: 0 for a negative number, the remainder
    modulo 1440 otherwise. *)
Theorem fromMinutes_valid (m : Z) :
  isValidTime cs (fromMinutes m) = Ret true /\
  toMinutes cs (fromMinutes m) = Ret (if m <? 0 then 0 else m mod 1440).
Proof.
  rewrite fromMinutes_normalises. apply fromMinutes_small.
  destruct (m <? 0); [lia | apply Z.mod_pos_bound; lia].
Qed.

End FromMinutes.

(** ** Adding and deleting *)

Lemma iequals_refl a : iequals a a = true.
Proof. unfold iequals. apply String.eqb_refl. Qed.

Lemma iequals_trans a b c :
  iequals a b = true -> iequals b c = true -> iequals a c = true.
Proof.
  unfold iequals. rewrite !String.eqb_eq. congruence.
Qed.

Section AddDelete.

Variable cs : bool.

(** X4.  Once an event has been accepted, adding again an event with the
    same date and time and a name that differs at most in the case of its
    letters is rejected as a duplicate, whatever its type and location, and
    the store stays as the first add left it. *)
Theorem addEvent_twice_is_duplicate (s : Store) (n d t ty loc : string)
    (v : bool) (o : outcome bool) (n' ty' loc' : string) (v' : bool) :
  addEvent cs s n d t ty loc v = Ret o -> value o = true ->
  iequals n n' = true ->
  addEvent cs (store o) n' d t ty' loc' v' =
  Ret (mkOutcome false (store o) (say v' ["Duplicate event exists."])).
Proof.
  intros H Hv Hn. apply addEvent_cases in H.
  destruct H as [[_ ->] | [(_ & _ & ->) | [(_ & _ & _ & ->) |
                [(_ & _ & _ & _ & Hv' & _) | (Hd & Ht & _ & _ & _ & Hs)]]]];
    try discriminate Hv; [congruence |].
  apply addEvent_duplicate; try assumption.
  apply isDuplicate_true. rewrite Hs. cbn [events].
  exists (mkEvent (nextId s) n d t ty loc). split.
  - apply in_or_app. right. now left.
  - cbn [name date time]. auto.
Qed.

Lemma remove_if_length pred evs :
  Nat.eqb (List.length (remove_if pred evs)) (List.length evs) = true <->
  forall e, In e evs -> pred e = false.
Proof.
  unfold remove_if. rewrite Nat.eqb_eq. induction evs as [| x l IH]; cbn [filter].
  - split; [intros _ e [] | reflexivity].
  - pose proof (filter_length_le (fun e => negb (pred e)) l) as Hle.
    destruct (pred x) eqn:Hx; cbn [negb List.length].
    + split; [lia |]. intros H. specialize (H x (or_introl eq_refl)). congruence.
    + split.
      * intros H e [<- | He]; [exact Hx |]. apply IH; [lia | exact He].
      * intros H. f_equal. apply IH. intros e He. apply H. now right.
Qed.

Lemma remove_if_In pred evs e :
  In e (remove_if pred evs) <-> In e evs /\ pred e = false.
Proof.
  unfold remove_if. rewrite filter_In, negb_true_iff. reflexivity.
Qed.

Lemma remove_if_none pred evs :
  (forall e, In e evs -> pred e = false) -> remove_if pred evs = evs.
Proof.
  unfold remove_if. induction evs as [| x l IH]; cbn [filter]; intros H.
  - reflexivity.
  - rewrite (H x (or_introl eq_refl)). cbn [negb]. f_equal.
    apply IH. intros e He. apply H. now right.
Qed.

(** X5.  [deleteById] answers [true] exactly when some live event has the
    id; afterwards the live events are those that had another id, the id
    counter and the attendee list are as before, and a second call with
    the same id answers [false] and changes nothing. *)
Theorem deleteById_spec (s : Store) (i : Z) :
  let o := deleteById s i in
  (value o = true <-> exists e, In e (events s) /\ id e = i) /\
  (forall e, In e (events (store o)) <-> In e (events s) /\ id e <> i) /\
  nextId (store o) = nextId s /\
  attendeeEmails (store o) = attendeeEmails s /\
  deleteById (store o) i =
  mkOutcome false (store o) ["No event with that ID."].
Proof.
  cbn zeta.
  assert (Hst : store (deleteById s i)
                = set_events s (remove_if (fun e => id e =? i) (events s))).
  { unfold deleteById. destruct (Nat.eqb _ _); reflexivity. }
  split; [| split; [| split; [| split]]].
  - unfold deleteById.
    destruct (Nat.eqb _ _) eqn:E; cbn [value].
    + split; [discriminate |]. intros (e & He & Hi).
      pose proof (proj1 (remove_if_length _ _) E e He) as E'. cbn in E'. lia.
    + split; [| reflexivity]. intros _.
      destruct (find_if (fun e => id e =? i) (events s)) as [[pos b] |] eqn:Hf.
      * apply find_if_Some in Hf. destruct Hf as [Hn Hb].
        exists b. split; [eapply nth_error_In; eassumption | lia].
      * exfalso. pose proof (find_if_None _ _ Hf) as Hnone.
        pose proof (proj2 (remove_if_length _ _) Hnone). congruence.
  - intros e. rewrite Hst. cbn [events set_events]. rewrite remove_if_In.
    split; intros [H1 H2]; split; try assumption; lia.
  - rewrite Hst. reflexivity.
  - rewrite Hst. reflexivity.
  - rewrite Hst. unfold deleteById at 1. cbn [events set_events].
    assert (Hn : forall e, In e (remove_if (fun e => id e =? i) (events s)) ->
                           (id e =? i) = false).
    { intros e He. apply remove_if_In in He. tauto. }
    rewrite (remove_if_none _ _ Hn). rewrite Nat.eqb_refl.
    reflexivity.
Qed.


(** X7.  On a store whose live ids are all below the id counter, deleting
    the id of an event that was just accepted gives back the events as
    they were before the add; the id counter keeps the step it made. *)
Theorem add_then_delete_restores (s : Store) (n d t ty loc : string)
    (v : bool) (o : outcome bool) :
  ids_below (nextId s) (events s) ->
  addEvent cs s n d t ty loc v = Ret o -> value o = true ->
  value (deleteById (store o) (nextId s)) = true /\
  events (store (deleteById (store o) (nextId s))) = events s /\
  nextId (store (deleteById (store o) (nextId s))) = nextId s + 1.
Proof.
  intros Hb H Hv. apply addEvent_cases in H.
  destruct H as [[_ ->] | [(_ & _ & ->) | [(_ & _ & _ & ->) |
                [(_ & _ & _ & _ & Hv' & _) | (_ & _ & _ & _ & _ & Hs)]]]];
    try discriminate Hv; [congruence |].
  rewrite Hs.
  assert (Hrm : remove_if (fun e => id e =? nextId s)
                  (events s ++ [mkEvent (nextId s) n d t ty loc]) = events s).
  { unfold remove_if. rewrite filter_app. cbn [filter id].
    rewrite Z.eqb_refl. cbn [negb]. rewrite app_nil_r.
    apply (remove_if_none (fun e => id e =? nextId s)).
    intros e He. unfold ids_below in Hb. rewrite Forall_forall in Hb.
    specialize (Hb (id e) (in_map id _ _ He)). lia. }
  unfold deleteById. cbn [events]. rewrite Hrm.
  replace (Nat.eqb (List.length (events s))
             (List.length (events s ++ [mkEvent (nextId s) n d t ty loc])))
    with false.
  - cbn [value store events nextId set_events]. auto.
  - symmetry. apply Nat.eqb_neq. rewrite length_app. cbn [List.length]. lia.
Qed.

End AddDelete.

Lemma addEvent_twice_is_duplicate_witness :
  exists o,
    addEvent true init "Kickoff" "01-01-2030" "09:00" "Meeting" "Hall A" true
      = Ret o /\
    value o = true /\ iequals "Kickoff" "KICKOFF" = true /\
    addEvent true (store o) "KICKOFF" "01-01-2030" "09:00" "Talk" "" true =
    Ret (mkOutcome false (store o) (say true ["Duplicate event exists."])).
Proof.
  eexists. split; [reflexivity |]. split; [reflexivity |].
  split; [reflexivity |].
  apply (addEvent_twice_is_duplicate true init "Kickoff" "01-01-2030" "09:00"
           "Meeting" "Hall A" true _ "KICKOFF" "Talk" "" true); reflexivity.
Defined.

Lemma add_then_delete_restores_witness :
  exists o,
    ids_below (nextId two_events) (events two_events) /\
    addEvent true two_events "Review" "01-01-2030" "14:00" "Talk" "" false
      = Ret o /\
    value o = true /\
    value (deleteById (store o) (nextId two_events)) = true /\
    events (store (deleteById (store o) (nextId two_events)))
      = events two_events /\
    nextId (store (deleteById (store o) (nextId two_events)))
      = nextId two_events + 1.
Proof.
  eexists.
  assert (Hb : ids_below (nextId two_events) (events two_events))
    by (repeat constructor).
  split; [exact Hb |]. split; [reflexivity |]. split; [reflexivity |].
  apply (add_then_delete_restores true two_events "Review" "01-01-2030"
           "14:00" "Talk" "" false _ Hb); reflexivity.
Defined.

(** ** Slot suggestion in general *)

Lemma insert_sorted_perm {A} (comp : A -> A -> result bool) x l l' :
  insert_sorted comp x l = Ret l' -> Permutation (x :: l) l'.
Proof.
  revert l'. induction l as [| y r IH]; cbn [insert_sorted]; intros l' H.
  - now injection H as <-.
  - bind_inv H. destruct a.
    + bind_inv H. injection H as <-.
      rewrite perm_swap. constructor. now apply IH.
    + now injection H as <-.
Qed.

(** Whenever [std_sort] returns, it returns a rearrangement of its input. *)
Lemma std_sort_perm {A} (comp : A -> A -> result bool) l l' :
  std_sort comp l = Ret l' -> Permutation l l'.
Proof.
  revert l'. induction l as [| x r IH]; cbn [std_sort]; intros l' H.
  - now injection H as <-.
  - bind_inv H. apply insert_sorted_perm in H.
    rewrite <- H. constructor. now apply IH.
Qed.

Lemma clashes_false occ t td :
  clashes occ t td = false <->
  forall iv, In iv occ -> td <= fst iv \/ snd iv <= t.
Proof.
  induction occ as [| iv rest IH]; cbn [clashes].
  - split; [intros _ iv [] | reflexivity].
  - destruct (td <=? fst iv) eqn:E1; cbn [orb negb].
    + rewrite IH. split.
      * intros H x [<- | Hx]; [lia | now apply H].
      * intros H x Hx. apply H. now right.
    + destruct (t >=? snd iv) eqn:E2; cbn [negb].
      * rewrite IH. split.
        -- intros H x [<- | Hx]; [lia | now apply H].
        -- intros H x Hx. apply H. now right.
      * split; [discriminate |]. intros H.
        specialize (H iv (or_introl eq_refl)). lia.
Qed.

Section SlotFacts.

Variable cs : bool.

Lemma occupied_spec evs d occ :
  occupied cs evs d = Ret occ ->
  forall iv, In iv occ <->
    exists e, In e evs /\ date e = d /\
              toMinutes cs (time e) = Ret (fst iv) /\ snd iv = fst iv + 60.
Proof.
  revert occ. induction evs as [| e rest IH]; cbn [occupied]; intros occ H iv.
  - injection H as <-. split; [intros [] | intros (e & [] & _)].
  - destruct (String.eqb (date e) d) eqn:Ed.
    + bind_inv H. rename a into m. bind_inv H. injection H as <-.
      apply String.eqb_eq in Ed. cbn [In]. rewrite (IH _ Ha0). split.
      * intros [<- | (x & Hx & H1 & H2 & H3)].
        -- exists e. cbn [fst snd]. auto.
        -- exists x. auto.
      * intros (x & [<- | Hx] & H1 & H2 & H3).
        -- left. destruct iv as [lo hi]. cbn [fst snd] in *.
           rewrite Ha in H2. injection H2 as <-. now subst hi.
        -- right. exists x. auto.
    + rewrite (IH _ H). apply String.eqb_neq in Ed. split.
      * intros (x & Hx & H1). exists x. split; [now right | exact H1].
      * intros (x & [<- | Hx] & H1 & H2); [congruence |]. exists x. auto.
Qed.

Lemma occupied_valid evs d :
  Forall (valid_event cs) evs -> exists occ, occupied cs evs d = Ret occ.
Proof.
  induction 1 as [| e rest [_ Ht] _ [occ IH]]; cbn [occupied].
  - eauto.
  - destruct (String.eqb (date e) d); [| eauto].
    destruct (valid_time_minutes cs _ Ht) as (m & -> & _).
    cbn [bind]. rewrite IH. cbn [bind]. eauto.
Qed.

(** The suggestion loop, from the candidate [t] on with [shown] slots
    already printed: the starts of the slots it prints. *)
Lemma slots_loop_spec occ duration finish fuel :
  forall t shown lines,
    0 <= shown ->
    slots_loop fuel occ duration finish t shown = Ret lines ->
    exists ts,
      lines = map (slot_line duration) ts /\
      Z.of_nat (List.length ts) <= Z.max 0 (5 - shown) /\
      StronglySorted Z.lt ts /\
      Forall (fun x => t <= x /\ x + duration <= finish /\
                       (x - t) mod 30 = 0 /\
                       clashes occ x (x + duration) = false) ts /\
      (Z.of_nat (List.length ts) < 5 - shown ->
       forall x, t <= x -> x + duration <= finish -> (x - t) mod 30 = 0 ->
                 clashes occ x (x + duration) = false -> In x ts).
Proof.
  induction fuel as [| fuel IH]; intros t shown lines Hs H;
    cbn [slots_loop] in H; [discriminate H |].
  bind_inv H. rename a into td.
  unfold int_add in Ha. destruct (in_int (t + duration)); [| discriminate Ha].
  injection Ha as <-.
  destruct ((t + duration <=? finish) && (shown <? 5)) eqn:Hc.
  - apply andb_prop in Hc. destruct Hc as [Hc1 Hc2].
    apply Z.leb_le in Hc1. apply Z.ltb_lt in Hc2.
    assert (Hstep : forall x, t + 30 <= x -> (x - t) mod 30 = 0 ->
                              (x - (t + 30)) mod 30 = 0).
    { intros x _ Hx. replace (x - (t + 30)) with ((x - t) + (-1) * 30) by lia.
      now rewrite Z.mod_add by lia. }
    assert (Hback : forall x, t + 30 <= x -> (x - (t + 30)) mod 30 = 0 ->
                              (x - t) mod 30 = 0).
    { intros x _ Hx. replace (x - t) with ((x - (t + 30)) + 1 * 30) by lia.
      now rewrite Z.mod_add by lia. }
    assert (Hnext : forall x, t <= x -> (x - t) mod 30 = 0 ->
                              x = t \/ t + 30 <= x).
    { intros x Hx Hm. destruct (Z.eq_dec x t); [now left | right].
      assert (0 < x - t) by lia.
      pose proof (Z.div_mod (x - t) 30). rewrite Hm in *.
      assert (0 < (x - t) / 30) by lia. lia. }
    destruct (clashes occ t (t + duration)) eqn:Hcl.
    + bind_inv H. rename a into t'. unfold int_add in Ha.
      destruct (in_int (t + 30)); [| discriminate Ha]. injection Ha as <-.
      destruct (IH _ _ _ Hs H) as (ts & -> & Hlen & Hsort & Hall & Hcomp).
      exists ts. split; [reflexivity |]. split; [exact Hlen |].
      split; [exact Hsort |]. split.
      * eapply Forall_impl; [| exact Hall]. cbn.
        intros x (H1 & H2 & H3 & H4).
        split; [lia |]. split; [exact H2 |].
        split; [apply Hback; [lia | exact H3] | exact H4].
      * intros Hl x Hx1 Hx2 Hx3 Hx4.
        destruct (Hnext x Hx1 Hx3) as [-> | Hge]; [congruence |].
        apply Hcomp; auto.
    + bind_inv H. rename a into t'. unfold int_add in Ha.
      destruct (in_int (t + 30)); [| discriminate Ha]. injection Ha as <-.
      bind_inv H. rename a into rest. injection H as <-.
      assert (Hs' : 0 <= shown + 1) by lia.
      destruct (IH _ _ _ Hs' Ha) as (ts & -> & Hlen & Hsort & Hall & Hcomp).
      exists (t :: ts). split; [reflexivity |].
      split; [cbn [List.length]; lia |]. split.
      * constructor; [exact Hsort |].
        eapply Forall_impl; [| exact Hall]. cbn. intros x (H1 & _). lia.
      * split.
        -- constructor.
           ++ split; [lia |]. split; [lia |].
              split; [now rewrite Z.sub_diag | exact Hcl].
           ++ eapply Forall_impl; [| exact Hall]. cbn.
              intros x (H1 & H2 & H3 & H4).
              split; [lia |]. split; [exact H2 |].
              split; [apply Hback; [lia | exact H3] | exact H4].
        -- intros Hl x Hx1 Hx2 Hx3 Hx4.
           destruct (Hnext x Hx1 Hx3) as [-> | Hge]; [now left | right].
           apply Hcomp; auto. cbn [List.length] in Hl. lia.
  - injection H as <-. exists []. split; [reflexivity |].
    split; [cbn; lia |]. split; [constructor |]. split; [constructor |].
    intros Hl x Hx1 Hx2 _ _. cbn [List.length] in Hl.
    apply andb_false_iff in Hc. destruct Hc as [Hc | Hc]; lia.
Qed.

(** With a duration that keeps the loop's sums inside [int], the loop
    returns. *)
Lemma slots_loop_returns occ duration finish fuel :
  finish + 30 <= INT_MAX -> finish - duration + 30 <= INT_MAX ->
  forall t shown,
    INT_MIN <= t -> in_int (t + duration) = true ->
    Z.max 0 ((finish - duration - t) / 30 + 1) < Z.of_nat fuel ->
    exists lines, slots_loop fuel occ duration finish t shown = Ret lines.
Proof.
  intros Hf1 Hf2. induction fuel as [| fuel IH]; intros t shown Ht Htd Hfuel.
  - lia.
  - cbn [slots_loop]. unfold int_add at 1. rewrite Htd. cbn [bind].
    destruct ((t + duration <=? finish) && (shown <? 5)) eqn:Hc; [| eauto].
    apply andb_prop in Hc. destruct Hc as [Hc _]. apply Z.leb_le in Hc.
    assert (Hq : (finish - duration - (t + 30)) / 30
                 = (finish - duration - t) / 30 - 1).
    { replace (finish - duration - (t + 30))
        with ((finish - duration - t) + (-1) * 30) by lia.
      rewrite Z.div_add by lia. lia. }
    assert (Hpos : 0 <= (finish - duration - t) / 30)
      by (apply Z.div_pos; lia).
    assert (H30 : in_int (t + 30) = true)
      by (unfold in_int, INT_MIN, INT_MAX in *; lia).
    assert (Hrec : forall sh, exists lines,
               slots_loop fuel occ duration finish (t + 30) sh = Ret lines).
    { intros sh. apply IH.
      - unfold INT_MIN in *. lia.
      - unfold in_int, INT_MIN, INT_MAX in *.
        apply andb_prop in Htd. lia.
      - rewrite Hq. lia. }
    unfold int_add. rewrite H30. cbn [bind].
    destruct (clashes occ t (t + duration)); cbn [bind].
    + apply Hrec.
    + destruct (Hrec (shown + 1)) as [lines ->]. cbn [bind]. eauto.
Qed.

Lemma first_conflict_none_intro e evs :
  (forall ex, In ex evs -> conflicts cs e ex = Ret false) ->
  first_conflict cs e evs = Ret None.
Proof.
  induction evs as [| x rest IH]; cbn [first_conflict]; intros H.
  - reflexivity.
  - rewrite (H x (or_introl eq_refl)). cbn [bind].
    apply IH. intros ex Hex. apply H. now right.
Qed.

(** An event that starts at a time free of the day's events passes the
    duplicate and the conflict test. *)
Lemma free_slot_accepted s n d t ty loc v :
  Forall (valid_event cs) (events s) ->
  isValidDate d = Ret true -> in_int (nextId s + 1) = true ->
  0 <= t < 1440 -> free_at cs (events s) d 60 t ->
  exists o, addEvent cs s n d (fromMinutes t) ty loc v = Ret o /\
            value o = true.
Proof.
  intros Hv Hd Hn Ht Hfree.
  destruct (fromMinutes_small cs t Ht) as [Hvt Htm].
  assert (Hdup : isDuplicate s n d (fromMinutes t) = false).
  { destruct (isDuplicate s n d (fromMinutes t)) eqn:E; [| reflexivity].
    apply isDuplicate_true in E. destruct E as (ex & Hin & _ & Hdx & Htx).
    rewrite <- Htx in Htm.
    destruct (Hfree ex t Hin Hdx Htm); lia. }
  eexists. split; [apply addEvent_accepted; try assumption | reflexivity].
  - apply first_conflict_none_intro. intros ex Hin.
    rewrite Forall_forall in Hv. destruct (Hv ex Hin) as [_ Hvx].
    destruct (valid_time_minutes cs _ Hvx) as (m & Hm & _).
    rewrite (conflicts_minutes cs
               (mkEvent (nextId s) n d (fromMinutes t) ty loc) ex t m Htm Hm).
    cbn [date].
    destruct (String.eqb d (date ex)) eqn:E; [| reflexivity].
    apply String.eqb_eq in E. cbn [andb]. f_equal.
    destruct (Hfree ex m Hin (eq_sym E) Hm); lia.
Qed.

(** X8.  On a store of events with valid dates and times, and for a
    duration that keeps the sums of the loop inside [int],
    [suggestSlots] returns.  It prints at most five slots, by increasing
    start; each starts at 08:00 plus a multiple of 30 minutes, ends by
    20:00 and meets no event of that date; when fewer than five are
    printed, every such free start is among them.  With the default
    duration of 60 minutes and a valid date, an event added at the start of
    any slot printed is accepted. *)
Theorem suggestSlots_offers_free_slots (s : Store) (d : string)
    (duration : Z) :
  Forall (valid_event cs) (events s) ->
  1230 - INT_MAX <= duration <= INT_MAX - 480 ->
  exists ts,
    suggestSlots cs s d duration =
    Ret (("Suggested available slots on " ++ d ++ ":")
         :: map (slot_line duration) ts
         ++ match ts with
            | [] => ["  (No free 1-hour slots found in working window)"]
            | _ :: _ => []
            end) /\
    (List.length ts <= 5)%nat /\
    StronglySorted Z.lt ts /\
    (forall t, In t ts ->
       480 <= t /\ t + duration <= 1200 /\ (t - 480) mod 30 = 0 /\
       free_at cs (events s) d duration t) /\
    ((List.length ts < 5)%nat ->
     forall t, 480 <= t -> t + duration <= 1200 -> (t - 480) mod 30 = 0 ->
               free_at cs (events s) d duration t -> In t ts) /\
    (duration = 60 -> isValidDate d = Ret true ->
     in_int (nextId s + 1) = true ->
     forall t n ty loc v, In t ts ->
       exists o, addEvent cs s n d (fromMinutes t) ty loc v = Ret o /\
                 value o = true).
Proof.
  intros Hv Hd. unfold suggestSlots.
  destruct (occupied_valid (events s) d Hv) as [occ Hocc].
  rewrite Hocc. cbn [bind].
  destruct (std_sort_returns pair_lt occ pair_lt_returns) as [occ' Hsort].
  rewrite Hsort. cbn [bind].
  pose proof (std_sort_perm _ _ _ Hsort) as Hperm.
  assert (Hfree : forall t, clashes occ' t (t + duration) = false <->
                            free_at cs (events s) d duration t).
  { intros t. rewrite clashes_false. unfold free_at. split.
    - intros H e m He Hde Hm.
      assert (Hin : In (m, m + 60) occ').
      { apply (Permutation_in _ Hperm).
        apply (occupied_spec _ _ _ Hocc). exists e. cbn [fst snd]. auto. }
      specialize (H _ Hin). cbn [fst snd] in H. lia.
    - intros H iv Hiv.
      apply (Permutation_in _ (Permutation_sym Hperm)) in Hiv.
      apply (occupied_spec _ _ _ Hocc) in Hiv.
      destruct Hiv as (e & He & Hde & Hm & Hsnd).
      specialize (H e (fst iv) He Hde Hm). lia. }
  destruct (slots_loop_returns occ' duration (20 * 60)
              (slots_fuel (8 * 60) (20 * 60) duration)) with (t := 8 * 60)
    (shown := 0) as [lines Hl];
    try (unfold INT_MAX, INT_MIN in *; lia).
  { unfold in_int, INT_MAX, INT_MIN in *. lia. }
  { unfold slots_fuel. lia. }
  rewrite Hl. cbn [bind].
  destruct (slots_loop_spec _ _ _ _ _ _ _ (Z.le_refl 0) Hl)
    as (ts & -> & Hlen & Hsorted & Hall & Hcomp).
  exists ts. split.
  { f_equal. f_equal. f_equal. destruct ts; reflexivity. }
  rewrite Forall_forall in Hall.
  split; [lia |]. split; [exact Hsorted |]. split; [| split].
  - intros t Ht. destruct (Hall t Ht) as (H1 & H2 & H3 & H4).
    repeat split; try assumption; try lia. now apply Hfree.
  - intros Hlt t H1 H2 H3 H4. apply Hcomp; try assumption; try lia.
    now apply Hfree.
  - intros -> Hdate Hn t n ty loc v Ht.
    destruct (Hall t Ht) as (H1 & H2 & H3 & H4).
    apply free_slot_accepted; try assumption; [lia |]. now apply Hfree.
Qed.

End SlotFacts.

Lemma suggestSlots_offers_free_slots_witness :
  Forall (valid_event true) (events two_events) /\
  1230 - INT_MAX <= 60 <= INT_MAX - 480 /\
  exists ts,
    suggestSlots true two_events "01-01-2030" 60 =
    Ret (("Suggested available slots on " ++ "01-01-2030" ++ ":")
         :: map (slot_line 60) ts
         ++ match ts with
            | [] => ["  (No free 1-hour slots found in working window)"]
            | _ :: _ => []
            end) /\
    (List.length ts <= 5)%nat.
Proof.
  assert (Hv : Forall (valid_event true) (events two_events))
    by (repeat constructor).
  assert (Hd : 1230 - INT_MAX <= 60 <= INT_MAX - 480)
    by (unfold INT_MAX; lia).
  split; [exact Hv |]. split; [exact Hd |].
  destruct (suggestSlots_offers_free_slots true two_events "01-01-2030" 60
              Hv Hd) as (ts & H1 & H2 & _).
  exists ts. split; assumption.
Defined.

(** ** Editing in general *)

Lemma find_if_first pred evs pos b :
  find_if pred evs = Some (pos, b) ->
  forall j x, (j < pos)%nat -> nth_error evs j = Some x -> pred x = false.
Proof.
  revert pos. induction evs as [| y rest IH]; cbn [find_if]; intros pos H j x Hj Hx.
  - discriminate H.
  - destruct (pred y) eqn:Hp.
    + injection H as <- <-. lia.
    + destruct (find_if pred rest) as [[k z] |] eqn:Hf; [| discriminate H].
      injection H as <- <-. destruct j as [| j]; cbn [nth_error] in Hx.
      * now injection Hx as <-.
      * apply (IH k eq_refl j x); [lia | exact Hx].
Qed.

Lemma find_if_exists pred evs :
  (exists e, In e evs /\ pred e = true) ->
  exists pos b, find_if pred evs = Some (pos, b).
Proof.
  intros (e & He & Hp). destruct (find_if pred evs) as [[pos b] |] eqn:Hf.
  - eauto.
  - pose proof (find_if_None _ _ Hf e He). congruence.
Qed.

Lemma assign_same evs pos b :
  nth_error evs pos = Some b -> assign evs pos b = evs.
Proof.
  revert pos. induction evs as [| x rest IH]; intros [| pos] H;
    cbn [assign nth_error] in *; try discriminate H.
  - now injection H as ->.
  - f_equal. now apply IH.
Qed.

Lemma assign_length evs pos e :
  List.length (assign evs pos e) = List.length evs.
Proof.
  revert pos. induction evs as [| x rest IH]; intros [| pos];
    cbn [assign List.length]; auto.
Qed.

Lemma keep_or_blank x : keep_or x "" = x.
Proof. reflexivity. Qed.

Section EditFacts.

Variable cs : bool.

Lemma edit_conflict_none_intro e evs :
  (forall ex, In ex evs -> id ex = id e \/ conflicts cs e ex = Ret false) ->
  edit_conflict cs e evs = Ret None.
Proof.
  induction evs as [| x rest IH]; cbn [edit_conflict]; intros H.
  - reflexivity.
  - unfold andM. cbn [bind].
    destruct (H x (or_introl eq_refl)) as [Hid | Hc].
    + rewrite Hid, Z.eqb_refl. cbn [negb bind].
      apply IH. intros ex Hex. apply H. now right.
    + destruct (negb (id x =? id e)); [rewrite Hc |]; cbn [bind];
        apply IH; intros ex Hex; apply H; now right.
Qed.

Lemma edit_duplicate_false_intro e evs :
  (forall ex, In ex evs -> id ex = id e \/ ~ duplicate ex e) ->
  edit_duplicate e evs = false.
Proof.
  intros H. unfold edit_duplicate.
  destruct (existsb _ evs) eqn:E; [| reflexivity].
  apply existsb_exists in E. destruct E as (ex & Hin & Hb).
  apply andb_prop in Hb. destruct Hb as [Hb H3].
  apply andb_prop in Hb. destruct Hb as [Hb H2].
  apply andb_prop in Hb. destruct Hb as [H0 H1].
  apply String.eqb_eq in H2, H3. apply negb_true_iff, Z.eqb_neq in H0.
  destruct (H ex Hin) as [Hid | Hnd]; [contradiction |].
  exfalso. apply Hnd. repeat split; assumption.
Qed.

(** X9.  When [editEventById] answers [true], it has rewritten one event
    and nothing else: the first event with the given id.  That event keeps
    its id and takes, field by field, the text typed or, where the line
    typed was blank, the text it had; its new date and time are valid; all
    events at the other positions, the number of events and the id counter
    are as before. *)
Theorem editEventById_success (s : Store) (i : Z) (inp : EditInput)
    (o : outcome bool) :
  editEventById cs s i inp = Ret o -> value o = true ->
  exists pos backup,
    nth_error (events s) pos = Some backup /\ id backup = i /\
    (forall j x, (j < pos)%nat -> nth_error (events s) j = Some x ->
                 id x <> i) /\
    nth_error (events (store o)) pos =
      Some (mkEvent i
              (keep_or (name backup) (in_name inp))
              (keep_or (date backup) (in_date inp))
              (keep_or (time backup) (in_time inp))
              (keep_or (type backup) (in_type inp))
              (keep_or (location backup) (in_location inp))) /\
    isValidDate (keep_or (date backup) (in_date inp)) = Ret true /\
    isValidTime cs (keep_or (time backup) (in_time inp)) = Ret true /\
    (forall j, j <> pos ->
               nth_error (events (store o)) j = nth_error (events s) j) /\
    List.length (events (store o)) = List.length (events s) /\
    nextId (store o) = nextId s /\
    attendeeEmails (store o) = attendeeEmails s.
Proof.
  intros H Hv. apply editEventById_cases in H.
  destruct H as [[Hv' _] | (pos & b & e & Hf & He & Hd & Ht & _ & _ & _ & Hs)];
    [congruence |].
  pose proof (find_if_first _ _ _ _ Hf) as Hfirst.
  apply find_if_Some in Hf. destruct Hf as [Hn Hb]. apply Z.eqb_eq in Hb.
  exists pos, b. rewrite Hs. cbn [events nextId attendeeEmails set_events].
  subst e. cbn [date time] in Hd, Ht.
  split; [exact Hn |]. split; [exact Hb |]. split.
  { intros j x Hj Hx. specialize (Hfirst j x Hj Hx). cbn in Hfirst. lia. }
  split; [rewrite <- Hb; now apply nth_error_assign_same with b |].
  split; [exact Hd |]. split; [exact Ht |]. split.
  { intros j Hj. now apply nth_error_assign_other. }
  split; [apply assign_length |]. auto.
Qed.

(** X10.  On a store that obeys the duplicate and conflict rules and whose
    events have valid dates and times, an edit that leaves all five lines
    blank is accepted and changes nothing. *)
Theorem editEventById_blank_is_identity (s : Store) (i : Z) :
  Forall (valid_event cs) (events s) -> rules_hold cs (events s) ->
  (exists e, In e (events s) /\ id e = i) ->
  exists o, editEventById cs s i (mkEditInput "" "" "" "" "") = Ret o /\
            value o = true /\ store o = s.
Proof.
  intros Hv Hr (e0 & He0 & Hi0).
  destruct (find_if_exists (fun x => id x =? i) (events s)) as (pos & b & Hf).
  { exists e0. split; [exact He0 | lia]. }
  unfold editEventById. rewrite Hf.
  destruct (find_if_Some _ _ _ _ Hf) as [Hn _].
  cbn [in_name in_date in_time in_type in_location].
  rewrite !keep_or_blank.
  replace (mkEvent (id b) (name b) (date b) (time b) (type b) (location b))
    with b by (destruct b; reflexivity).
  cbn [events set_events]. rewrite (assign_same _ _ _ Hn).
  assert (Hb : valid_event cs b).
  { rewrite Forall_forall in Hv. apply Hv. eapply nth_error_In; eassumption. }
  destruct Hb as [Hd Ht]. unfold orM. rewrite Hd. cbn [bind negb].
  rewrite Ht. cbn [bind negb].
  assert (Hcompat : forall ex, In ex (events s) -> id ex <> id b ->
                               compatible cs b ex).
  { intros ex Hex Hid. apply In_nth_error in Hex. destruct Hex as [j Hj].
    apply (ForallOrdPairs_nth (compatible cs) (events s) (compatible_sym cs) Hr
             pos j); [| exact Hn | exact Hj].
    intros ->. congruence. }
  rewrite edit_duplicate_false_intro.
  2:{ intros ex Hex. destruct (Z.eq_dec (id ex) (id b)) as [E | E]; [now left |].
      right. intros D. apply (proj1 (Hcompat ex Hex E)).
      now apply duplicate_sym. }
  rewrite edit_conflict_none_intro.
  2:{ intros ex Hex. destruct (Z.eq_dec (id ex) (id b)) as [E | E]; [now left |].
      right. exact (proj2 (Hcompat ex Hex E)). }
  cbn [bind]. eexists. split; [reflexivity |]. split; [reflexivity |].
  cbn [store]. destruct s; reflexivity.
Qed.

End EditFacts.

Lemma editEventById_success_witness :
  exists o pos backup,
    editEventById true two_events 2 (mkEditInput "Daily" "" "11:15" "" "Room 2")
      = Ret o /\
    value o = true /\
    nth_error (events two_events) pos = Some backup /\ id backup = 2 /\
    nth_error (events (store o)) pos =
      Some (mkEvent 2 "Daily" "01-01-2030" "11:15" "Meeting" "Room 2").
Proof.
  eexists.
  destruct (editEventById_success true two_events 2
              (mkEditInput "Daily" "" "11:15" "" "Room 2") _ eq_refl eq_refl)
    as (pos & backup & H1 & H2 & _ & H4 & _).
  exists pos, backup. split; [reflexivity |]. split; [reflexivity |].
  split; [exact H1 |]. split; [exact H2 |].
  destruct pos as [| [| pos]]; cbn in H1; try discriminate H1.
  - injection H1 as <-. discriminate H2.
  - injection H1 as <-. exact H4.
  - destruct pos; discriminate H1.
Defined.

Lemma editEventById_blank_is_identity_witness :
  Forall (valid_event true) (events two_events) /\
  rules_hold true (events two_events) /\
  exists o, editEventById true two_events 2 (mkEditInput "" "" "" "" "") = Ret o /\
            value o = true /\ store o = two_events.
Proof.
  assert (Hv : Forall (valid_event true) (events two_events))
    by (repeat constructor).
  assert (Hr : rules_hold true (events two_events)).
  { unfold rules_hold.
    repeat first [apply FOP_cons | apply FOP_nil | apply Forall_cons
                 | apply Forall_nil].
    split; [intros (D & _); vm_compute in D; discriminate D | reflexivity]. }
  split; [exact Hv |]. split; [exact Hr |].
  apply (editEventById_blank_is_identity true two_events 2 Hv Hr).
  eexists. split; [right; left; reflexivity | reflexivity].
Defined.

(** ** Day view and search *)

Section Views.

Variable cs : bool.

Lemma by_time_minutes a b :
  isValidTime cs (time a) = Ret true -> isValidTime cs (time b) = Ret true ->
  by_time cs a b = Ret (minutes_of cs a <? minutes_of cs b).
Proof.
  intros Ha Hb. unfold by_time, minutes_of.
  destruct (valid_time_minutes cs _ Ha) as (ta & -> & _).
  destruct (valid_time_minutes cs _ Hb) as (tb & -> & _).
  reflexivity.
Qed.


End Views.

Lemma by_id_holds a b : True -> True -> by_id a b = Ret (id a <? id b).
Proof. reflexivity. Qed.


(** ** Statistics *)

Lemma ltb_trans a b c :
  String.ltb a b = true -> String.ltb b c = true -> String.ltb a c = true.
Proof. rewrite !ltb_lt. apply String_as_OT.lt_trans. Qed.

Lemma ltb_neq a b : String.ltb a b = true -> String.eqb a b = false.
Proof.
  rewrite ltb_lt. intros H. apply String.eqb_neq. intros ->.
  apply String_as_OT.lt_not_eq in H. now apply H.
Qed.

Lemma ltb_total a b :
  String.eqb a b = false -> String.ltb a b = false -> String.ltb b a = true.
Proof.
  intros He Hl. apply String.eqb_neq in He.
  destruct (String_as_OT.compare a b) as [H | H | H].
  - apply ltb_lt in H. congruence.
  - contradiction.
  - now apply ltb_lt.
Qed.

Lemma map_get_below k m :
  Forall (fun q => String.ltb k (fst q) = true) m -> map_get k m = 0.
Proof.
  induction 1 as [| [k' n] rest H _ IH]; cbn [map_get]; [reflexivity |].
  cbn [fst] in H. now rewrite (ltb_neq _ _ H).
Qed.

Lemma map_incr_keys k m :
  forall q, In q (map_incr k m) -> fst q = k \/ In q m \/
            exists n, In (fst q, n) m.
Proof.
  induction m as [| [k' n] rest IH]; cbn [map_incr]; intros q Hq.
  - destruct Hq as [<- | []]. now left.
  - destruct (String.eqb k k') eqn:E.
    + apply String.eqb_eq in E. subst k'.
      destruct Hq as [<- | Hq]; [now left | right; left; now right].
    + destruct (String.ltb k k').
      * destruct Hq as [<- | Hq]; [now left | now (right; left)].
      * destruct Hq as [<- | Hq]; [right; left; now left |].
        destruct (IH q Hq) as [H | [H | [x H]]]; auto.
        -- right; left. now right.
        -- right; right. exists x. now right.
Qed.

Lemma map_incr_sorted k m : keys_sorted m -> keys_sorted (map_incr k m).
Proof.
  unfold keys_sorted. induction 1 as [| [k' n] rest Hs IH Hx]; cbn [map_incr].
  - repeat constructor.
  - destruct (String.eqb k k') eqn:E.
    + constructor; assumption.
    + destruct (String.ltb k k') eqn:L.
      * constructor; [now constructor |].
        constructor; [exact L |].
        eapply Forall_impl; [| exact Hx]. cbn [fst]. intros q Hq.
        now apply ltb_trans with k'.
      * constructor; [exact IH |].
        apply Forall_forall. intros q Hq. cbn [fst].
        rewrite Forall_forall in Hx.
        destruct (map_incr_keys k rest q Hq) as [-> | [H | [x H]]].
        -- now apply ltb_total.
        -- now apply (Hx q).
        -- now apply (Hx (fst q, x)).
Qed.

Lemma map_get_incr k k' m :
  keys_sorted m ->
  map_get k' (map_incr k m) = map_get k' m + (if String.eqb k' k then 1 else 0).
Proof.
  unfold keys_sorted. induction 1 as [| [h n] rest Hs IH Hx];
    cbn [map_incr map_get].
  - destruct (String.eqb k' k); lia.
  - destruct (String.eqb k h) eqn:E.
    + apply String.eqb_eq in E. subst h. cbn [map_get].
      destruct (String.eqb k' k); lia.
    + destruct (String.ltb k h) eqn:L.
      * cbn [map_get]. destruct (String.eqb k' k) eqn:E'; [| lia].
        apply String.eqb_eq in E'. subst k'. rewrite E.
        rewrite map_get_below; [lia |].
        eapply Forall_impl; [| exact Hx]. cbn [fst]. intros q Hq.
        now apply ltb_trans with h.
      * cbn [map_get]. destruct (String.eqb k' h) eqn:E'.
        -- apply String.eqb_eq in E'. subst k'.
           rewrite String.eqb_sym, E. lia.
        -- exact IH.
Qed.

Lemma sum_counts_incr k m : sum_counts (map_incr k m) = sum_counts m + 1.
Proof.
  unfold sum_counts. induction m as [| [h n] rest IH];
    cbn [map_incr fold_right snd]; [lia |].
  destruct (String.eqb k h); [cbn [fold_right snd]; lia |].
  destruct (String.ltb k h); cbn [fold_right snd]; lia.
Qed.

Lemma map_incr_positive k m :
  Forall (fun q => 0 < snd q) m -> Forall (fun q => 0 < snd q) (map_incr k m).
Proof.
  induction 1 as [| [h n] rest H Hr IH]; cbn [map_incr].
  - repeat constructor.
  - cbn [snd] in H. destruct (String.eqb k h).
    + constructor; [cbn [snd]; lia | exact Hr].
    + destruct (String.ltb k h).
      * constructor; [cbn [snd]; lia |]. now constructor.
      * now constructor.
Qed.

Lemma map_get_In k n m : keys_sorted m -> In (k, n) m -> map_get k m = n.
Proof.
  unfold keys_sorted. induction 1 as [| [h x] rest Hs IH Hx];
    cbn [map_get In]; intros Hin; [destruct Hin |].
  destruct Hin as [Heq | Hin].
  - injection Heq as -> ->. now rewrite String.eqb_refl.
  - rewrite Forall_forall in Hx. specialize (Hx _ Hin). cbn [fst] in Hx.
    apply ltb_neq in Hx. rewrite String.eqb_sym, Hx. now apply IH.
Qed.

Lemma In_map_get k m : map_get k m <> 0 -> In (k, map_get k m) m.
Proof.
  induction m as [| [h x] rest IH]; cbn [map_get In]; intros H; [lia |].
  destruct (String.eqb k h) eqn:E.
  - apply String.eqb_eq in E. subst h. now left.
  - right. now apply IH.
Qed.

(** The counting loop, from a map already built. *)
Lemma count_loop key evs :
  forall m,
    keys_sorted m -> Forall (fun q => 0 < snd q) m ->
    let m' := fold_left (fun m e => map_incr (key e) m) evs m in
    keys_sorted m' /\ Forall (fun q => 0 < snd q) m' /\
    sum_counts m' = sum_counts m + Z.of_nat (List.length evs) /\
    forall k, map_get k m' = map_get k m + count_key key k evs.
Proof.
  induction evs as [| e rest IH]; intros m Hs Hp; cbn [fold_left].
  - cbn zeta. unfold count_key. cbn. repeat split; auto; intros; lia.
  - specialize (IH (map_incr (key e) m) (map_incr_sorted _ _ Hs)
                  (map_incr_positive _ _ Hp)).
    cbn zeta in *. destruct IH as (H1 & H2 & H3 & H4).
    split; [exact H1 |]. split; [exact H2 |]. split.
    + rewrite H3, sum_counts_incr. cbn [List.length]. lia.
    + intros k. rewrite H4, (map_get_incr _ _ _ Hs).
      unfold count_key. cbn [filter]. rewrite (String.eqb_sym k (key e)).
      destruct (String.eqb (key e) k); cbn [List.length]; lia.
Qed.

(** X13.  The counts [statistics] prints, by type or by date: the keys
    come in increasing order, each once; a key is listed exactly when some
    live event has it, with the number of live events that have it; and
    the counts add up to the number of live events. *)
Theorem count_by_spec (key : Event -> string) (evs : list Event) :
  keys_sorted (count_by key evs) /\
  (forall k n, In (k, n) (count_by key evs) <->
               n = count_key key k evs /\ 0 < n) /\
  sum_counts (count_by key evs) = Z.of_nat (List.length evs).
Proof.
  destruct (count_loop key evs [] (SSorted_nil _) (Forall_nil _))
    as (Hs & Hp & Hsum & Hget).
  fold (count_by key evs) in *. cbn [map_get sum_counts fold_right] in *.
  split; [exact Hs |]. split; [| exact Hsum].
  intros k n. split.
  - intros Hin. rewrite Forall_forall in Hp. split.
    + rewrite <- (map_get_In _ _ _ Hs Hin). apply Hget.
    + apply (Hp _ Hin).
  - intros [-> Hn]. rewrite <- (Z.add_0_l (count_key key k evs)), <- Hget.
    apply In_map_get. rewrite Hget. lia.
Qed.

Lemma by_count_desc_holds (a b : string * Z) :
  True -> True -> by_count_desc a b = Ret (snd a >? snd b).
Proof. reflexivity. Qed.

(** ** Printing and reading back an id *)

Lemma parse_digits_uint_acc d :
  forall acc k,
    parse_digits (Z.pos acc) k (NilEmpty.string_of_uint d) =
    (Z.pos (Pos.of_uint_acc d acc), (k + Decimal.nb_digits d)%nat).
Proof.
  induction d; intros acc k;
    cbn [NilEmpty.string_of_uint parse_digits Pos.of_uint_acc Decimal.nb_digits];
    try (rewrite Nat.add_0_r; reflexivity).
  all: change (isdigit _) with true; cbv iota.
  all: rewrite <- Nat.add_succ_comm.
  all: match goal with
       | |- context [digit_val ?c] =>
           let v := eval vm_compute in (digit_val c) in
           change (digit_val c) with v
       end.
  all: match goal with
       | |- parse_digits ?z _ _ = (Z.pos (Pos.of_uint_acc _ ?q), _) =>
           replace z with (Z.pos q) by lia
       end.
  all: apply IHd.
Qed.

Lemma parse_digits_uint d :
  forall k,
    parse_digits 0 k (NilEmpty.string_of_uint d) =
    (Z.of_N (Pos.of_uint d), (k + Decimal.nb_digits d)%nat).
Proof.
  induction d; intros k;
    cbn [NilEmpty.string_of_uint parse_digits Pos.of_uint Decimal.nb_digits];
    try (rewrite Nat.add_0_r; reflexivity).
  all: change (isdigit _) with true; cbv iota.
  all: rewrite <- Nat.add_succ_comm.
  - change (10 * 0 + digit_val "0") with 0. apply IHd.
  - change (10 * 0 + digit_val "1") with (Z.pos 1). apply parse_digits_uint_acc.
  - change (10 * 0 + digit_val "2") with (Z.pos 2). apply parse_digits_uint_acc.
  - change (10 * 0 + digit_val "3") with (Z.pos 3). apply parse_digits_uint_acc.
  - change (10 * 0 + digit_val "4") with (Z.pos 4). apply parse_digits_uint_acc.
  - change (10 * 0 + digit_val "5") with (Z.pos 5). apply parse_digits_uint_acc.
  - change (10 * 0 + digit_val "6") with (Z.pos 6). apply parse_digits_uint_acc.
  - change (10 * 0 + digit_val "7") with (Z.pos 7). apply parse_digits_uint_acc.
  - change (10 * 0 + digit_val "8") with (Z.pos 8). apply parse_digits_uint_acc.
  - change (10 * 0 + digit_val "9") with (Z.pos 9). apply parse_digits_uint_acc.
Qed.

Lemma string_of_uint_head d :
  d <> Decimal.Nil ->
  exists c r, NilEmpty.string_of_uint d = String c r /\ isdigit c = true.
Proof.
  destruct d; intros H; try contradiction; cbn [NilEmpty.string_of_uint];
    do 2 eexists; split; reflexivity.
Qed.

Lemma nb_digits_pos d : d <> Decimal.Nil -> exists k, Decimal.nb_digits d = S k.
Proof. destruct d; intros H; try contradiction; cbn; eauto. Qed.

Lemma NilZero_nonnil d :
  d <> Decimal.Nil -> NilZero.string_of_uint d = NilEmpty.string_of_uint d.
Proof. destruct d; intros H; try contradiction; reflexivity. Qed.

Lemma parse_digits_pos p :
  exists k, parse_digits 0 0 (NilEmpty.string_of_uint (Pos.to_uint p))
            = (Z.pos p, S k).
Proof.
  rewrite parse_digits_uint, Unsigned.of_to.
  destruct (nb_digits_pos _ (Unsigned.to_uint_nonnil p)) as [k ->].
  exists k. reflexivity.
Qed.

(** [std::stoi] reads back the id that [operator<<] printed. *)
Lemma stoi_Z_to_string n : in_int n = true -> stoi (Z_to_string n) = Ret n.
Proof.
  intros Hn. unfold Z_to_string. destruct n as [| p | p]; [reflexivity | |].
  - cbn [Z.to_int NilZero.string_of_int].
    rewrite (NilZero_nonnil _ (Unsigned.to_uint_nonnil p)).
    destruct (string_of_uint_head _ (Unsigned.to_uint_nonnil p))
      as (c & r & Hs & Hc).
    destruct (parse_digits_pos p) as [k Hk].
    rewrite Hs in *. rewrite (stoi_digit_first _ _ Hc), Hk, Hn. reflexivity.
  - cbn [Z.to_int NilZero.string_of_int].
    rewrite (NilZero_nonnil _ (Unsigned.to_uint_nonnil p)).
    destruct (parse_digits_pos p) as [k Hk].
    unfold stoi. cbn [skip_space].
    change (isspace "-") with false. cbv iota.
    change (Ascii.eqb "-" "-") with true. cbv iota.
    rewrite Hk. cbv iota beta. change (- Z.pos p) with (Z.neg p).
    now rewrite Hn.
Qed.

Lemma Z_to_string_plain n :
  Z_to_string n <> "" /\ plain_field (Z_to_string n) = true.
Proof.
  assert (Hu : forall d, plain_field (NilEmpty.string_of_uint d) = true).
  { induction d; cbn [NilEmpty.string_of_uint]; try reflexivity;
      unfold plain_field in *; cbn [list_ascii_of_string forallb];
      rewrite IHd; reflexivity. }
  unfold Z_to_string. destruct n as [| p | p];
    cbn [Z.to_int NilZero.string_of_int]; [split; [discriminate | reflexivity] | |].
  - rewrite (NilZero_nonnil _ (Unsigned.to_uint_nonnil p)). split; [| apply Hu].
    destruct (string_of_uint_head _ (Unsigned.to_uint_nonnil p))
      as (c & r & -> & _). discriminate.
  - rewrite (NilZero_nonnil _ (Unsigned.to_uint_nonnil p)).
    split; [discriminate |].
    unfold plain_field in *. cbn [list_ascii_of_string forallb].
    specialize (Hu (Pos.to_uint p)). unfold plain_field in Hu.
    rewrite Hu. reflexivity.
Qed.

(** ** Export and import *)

Lemma append_nil_r s : s ++ "" = s.
Proof. induction s; cbn; [reflexivity | now f_equal]. Qed.

Lemma append_assoc (a b c : string) : (a ++ b) ++ c = a ++ (b ++ c).
Proof. induction a; cbn; [reflexivity | now f_equal]. Qed.

Lemma plain_field_cons c f :
  plain_field (String c f) = true ->
  Ascii.eqb c "," = false /\ plain_field f = true.
Proof.
  unfold plain_field. cbn [list_ascii_of_string forallb]. intros H.
  apply andb_prop in H. destruct H as [H1 H2].
  apply andb_prop in H1. destruct H1 as [H1 _].
  apply negb_true_iff in H1. auto.
Qed.

(** A plain text in front of a comma is one token. *)
Lemma split_commas_field f :
  plain_field f = true ->
  forall tok rest,
    split_commas tok (f ++ String "," rest)
    = (tok ++ f) :: split_commas "" rest.
Proof.
  induction f as [| c f IH]; intros Hp tok rest.
  - cbn [append split_commas]. change (Ascii.eqb "," ",") with true.
    cbv iota. now rewrite append_nil_r.
  - apply plain_field_cons in Hp. destruct Hp as [Hc Hf].
    cbn [append split_commas]. rewrite Hc.
    rewrite (IH Hf). now rewrite append_assoc.
Qed.

(** A plain text at the end of the line is the last token, unless it is
    empty. *)
Lemma split_commas_last f :
  plain_field f = true ->
  forall tok,
    split_commas tok f
    = if String.eqb (tok ++ f) "" then [] else [tok ++ f].
Proof.
  induction f as [| c f IH]; intros Hp tok.
  - cbn [split_commas]. now rewrite append_nil_r.
  - apply plain_field_cons in Hp. destruct Hp as [Hc Hf].
    cbn [split_commas]. rewrite Hc, (IH Hf). now rewrite append_assoc.
Qed.

Lemma contains_comma a b : contains (a ++ String "," b) "," = true.
Proof.
  induction a as [| c a IH]; cbn [append contains].
  - replace (String.prefix "," (String "," b)) with true; [reflexivity |].
    cbn [String.prefix]. destruct (ascii_dec "," ","); [| congruence].
    now destruct b.
  - rewrite IH. apply orb_true_r.
Qed.

Lemma size_zero_comma a b : (size (a ++ String "," b) =? 0) = false.
Proof.
  apply Z.eqb_neq. unfold size. destruct a; cbn [append String.length]; lia.
Qed.

Lemma isdigit_plain c :
  isdigit c = true ->
  negb (Ascii.eqb c ",") && negb (Ascii.eqb c "010") = true.
Proof.
  intros H.
  rewrite (isdigit_not_char c "," H eq_refl).
  rewrite (isdigit_not_char c "010" H eq_refl). reflexivity.
Qed.

Lemma valid_date_plain d : isValidDate d = Ret true -> plain_field d = true.
Proof.
  rewrite isValidDate_eq. intros H. apply Ret_inj in H.
  unfold spec_valid_date in H.
  destruct (spec_date_fields d) as [f |] eqn:Hf; [clear H | discriminate H].
  unfold spec_date_fields in Hf.
  do 10 (destruct d as [| ? d]; [discriminate Hf |]).
  destruct d; [| discriminate Hf].
  match type of Hf with (if ?c then _ else _) = _ =>
    destruct c eqn:Hc; [| discriminate Hf] end.
  repeat (apply andb_prop in Hc; let H' := fresh "D" in destruct Hc as [Hc H']).
  repeat match goal with
         | K : Ascii.eqb _ "-" = true |- _ => apply Ascii.eqb_eq in K; subst
         end.
  unfold plain_field. cbn [list_ascii_of_string forallb].
  repeat match goal with
         | K : isdigit ?c = true |- _ => rewrite (isdigit_plain c K); clear K
         end.
  reflexivity.
Qed.

Section RoundTrip.

Variable cs : bool.

Lemma valid_time_plain t : isValidTime cs t = Ret true -> plain_field t = true.
Proof.
  intros H. apply isValidTime_inv in H.
  destruct H as (a & b & c & d & -> & Ha & Hb & Hc & Hd & _).
  unfold plain_field, hhmm. cbn [list_ascii_of_string forallb].
  repeat match goal with
         | K : isdigit ?c = true |- _ => rewrite (isdigit_plain c K); clear K
         end.
  reflexivity.
Qed.

(** The tokens of an exported row are its fields; an empty location, at
    the end of the row, gives no token. *)
Lemma csv_row_tokens e :
  exportable cs e ->
  split_commas "" (csv_row e) =
  List.app [Z_to_string (id e); name e; date e; time e; type e]
           (if String.eqb (location e) "" then [] else [location e]).
Proof.
  intros ((_ & _ & Hd & Ht) & _ & Hn & Hty & Hl).
  unfold csv_row.
  change ("," ++ ?x) with (String "," x).
  rewrite (split_commas_field _ (proj2 (Z_to_string_plain (id e)))).
  change ("," ++ ?x) with (String "," x).
  rewrite (split_commas_field _ Hn).
  change ("," ++ ?x) with (String "," x).
  rewrite (split_commas_field _ (valid_date_plain _ Hd)).
  change ("," ++ ?x) with (String "," x).
  rewrite (split_commas_field _ (valid_time_plain _ Ht)).
  change ("," ++ ?x) with (String "," x).
  rewrite (split_commas_field _ Hty).
  rewrite (split_commas_last _ Hl).
  reflexivity.
Qed.

(** Reading the columns of an exported row gives the event back. *)
Lemma read_exported_row e :
  exportable cs e ->
  read_columns (split_commas "" (csv_row e)) 0 default_event = Ret e.
Proof.
  intros He. rewrite (csv_row_tokens e He).
  destruct He as (_ & Hi & _).
  cbn [app read_columns].
  destruct (String.eqb (Z_to_string (id e)) "") eqn:E.
  { apply String.eqb_eq in E. now apply Z_to_string_plain in E. }
  cbn [negb]. rewrite (stoi_Z_to_string _ Hi). cbn [bind].
  cbn [id name date time type location default_event].
  destruct (String.eqb (location e) "") eqn:El.
  - apply String.eqb_eq in El. cbn [read_columns bind].
    destruct e; cbn in *. now subst.
  - cbn [read_columns bind id name date time type location].
    destruct e; reflexivity.
Qed.

Lemma import_loop_exported evs :
  Forall (exportable cs) evs ->
  forall tail temp m,
    import_loop cs (map csv_row evs ++ tail) temp m false =
    import_loop cs tail (temp ++ evs)
      (fold_left (fun m e => Z.max m (id e)) evs m) false.
Proof.
  induction 1 as [| e rest He _ IH]; intros tail temp m.
  - cbn [map app fold_left]. now rewrite app_nil_r.
  - cbn [map app fold_left import_loop].
    assert (Hrow : exists a b, csv_row e = a ++ String "," b).
    { unfold csv_row. eexists. eexists.
      change ("," ++ ?x) with (String "," x). reflexivity. }
    destruct Hrow as (a & b & Hrow).
    assert (Hsz : (size (csv_row e) =? 0) = false)
      by (rewrite Hrow; apply size_zero_comma).
    assert (Hcm : contains (csv_row e) "," = true)
      by (rewrite Hrow; apply contains_comma).
    rewrite Hsz, Hcm.
    cbn [negb andb]. rewrite (read_exported_row e He). cbn [bind].
    destruct He as ((H0 & Hn & Hd & Ht) & _).
    unfold orM. cbn [bind].
    apply Z.eqb_neq in H0. apply String.eqb_neq in Hn.
    rewrite H0, Hn. cbn [orb bind]. rewrite Hd. cbn [bind negb].
    rewrite Ht. cbn [bind negb].
    rewrite IH. now rewrite <- app_assoc.
Qed.

End RoundTrip.

(** ** Committed states are safe to work on *)

Section Safety.

Variable cs : bool.

Lemma conflicts_returns a b :
  isValidTime cs (time a) = Ret true -> isValidTime cs (time b) = Ret true ->
  exists c, conflicts cs a b = Ret c.
Proof.
  intros Ha Hb.
  destruct (valid_time_minutes cs _ Ha) as (s1 & H1 & _).
  destruct (valid_time_minutes cs _ Hb) as (s2 & H2 & _).
  rewrite (conflicts_minutes cs a b s1 s2 H1 H2). eauto.
Qed.

Lemma first_conflict_returns e evs :
  isValidTime cs (time e) = Ret true -> Forall (valid_event cs) evs ->
  exists r, first_conflict cs e evs = Ret r.
Proof.
  intros He. induction 1 as [| x rest [_ Hx] _ [r IH]]; cbn [first_conflict].
  - eauto.
  - destruct (conflicts_returns e x He Hx) as [[] ->]; cbn [bind]; eauto.
Qed.

Lemma edit_conflict_returns e evs :
  isValidTime cs (time e) = Ret true -> Forall (valid_event cs) evs ->
  exists r, edit_conflict cs e evs = Ret r.
Proof.
  intros He. induction 1 as [| x rest [_ Hx] _ [r IH]]; cbn [edit_conflict].
  - eauto.
  - unfold andM. cbn [bind].
    destruct (negb (id x =? id e)); cbn [bind]; [| eauto].
    destruct (conflicts_returns e x He Hx) as [[] ->]; cbn [bind]; eauto.
Qed.

Lemma suggestSlots_returns s d :
  Forall (valid_event cs) (events s) ->
  exists lines, suggestSlots cs s d 60 = Ret lines.
Proof.
  intros Hv. unfold suggestSlots.
  destruct (occupied_valid cs (events s) d Hv) as [occ ->]. cbn [bind].
  destruct (std_sort_returns pair_lt occ pair_lt_returns) as [occ' ->].
  cbn [bind].
  destruct (slots_loop_returns occ' 60 (20 * 60)
              (slots_fuel (8 * 60) (20 * 60) 60)) with (t := 8 * 60)
    (shown := 0) as [lines ->];
    try (unfold INT_MAX, INT_MIN; lia); try reflexivity.
  cbn [bind]. eauto.
Qed.

Lemma assign_Forall (P : Event -> Prop) evs pos e :
  Forall P evs -> P e -> Forall P (assign evs pos e).
Proof.
  intros H He. revert pos. induction H as [| x l Hx Hl IH]; intros [| pos];
    cbn [assign]; constructor; auto.
Qed.

Lemma addEvent_returns s n d t ty loc v :
  Forall (valid_event cs) (events s) -> in_int (nextId s + 1) = true ->
  exists o, addEvent cs s n d t ty loc v = Ret o.
Proof.
  intros Hv Hn. unfold addEvent. rewrite isValidDate_eq. cbn [bind].
  destruct (negb _); [eauto |].
  destruct (isValidTime_total cs t) as [[] Ht]; rewrite Ht; cbn [bind negb];
    [| eauto].
  destruct (isDuplicate s n d t); [eauto |].
  unfold int_add. rewrite Hn. cbn [bind events set_nextId].
  destruct (first_conflict_returns (mkEvent (nextId s) n d t ty loc)
              (events s) Ht Hv) as [[ex |] ->]; cbn [bind]; [| eauto].
  destruct v; [| eauto].
  destruct (suggestSlots_returns (set_nextId s (nextId s + 1)) d Hv)
    as [lines ->].
  cbn [bind]. eauto.
Qed.

Lemma editEventById_returns s i inp :
  Forall (valid_event cs) (events s) ->
  exists o, editEventById cs s i inp = Ret o.
Proof.
  intros Hv. unfold editEventById.
  destruct (find_if _ (events s)) as [[pos b] |]; [| eauto].
  set (e := mkEvent _ _ _ _ _ _).
  unfold orM. rewrite isValidDate_eq. cbn [bind].
  destruct (spec_valid_date (date e)) eqn:Hd; cbn [negb bind]; [| eauto].
  destruct (isValidTime_total cs (time e)) as [[] Ht]; rewrite Ht;
    cbn [bind negb]; [| eauto].
  destruct (edit_duplicate e _); [eauto |].
  assert (Hlive : Forall (valid_event cs) (assign (events s) pos e)).
  { apply assign_Forall; [exact Hv |]. split; [| exact Ht].
    now rewrite isValidDate_eq, Hd. }
  cbn [events set_events].
  destruct (edit_conflict_returns e _ Ht Hlive) as [[ex |] ->]; cbn [bind];
    [| eauto].
  destruct (suggestSlots_returns (set_events s (assign (events s) pos e))
              (date e) Hlive) as [lines ->].
  cbn [bind]. eauto.
Qed.

Lemma listAll_returns s :
  Forall (valid_event cs) (events s) -> exists r, listAll cs s = Ret r.
Proof.
  intros Hv. unfold listAll. destruct (events s) as [| e rest] eqn:He;
    [eauto |].
  destruct (std_sort_correct (listAll_less cs) (valid_event cs)
              (less_by_key cs) (listAll_less_key cs) (less_by_key_asym cs)
              (less_by_key_negtrans cs) (e :: rest) Hv) as (l & -> & _).
  cbn [bind]. eauto.
Qed.

Lemma dayView_returns s d :
  Forall (valid_event cs) (events s) -> exists r, dayView cs s d = Ret r.
Proof.
  intros Hv. unfold dayView.
  destruct (std_sort_correct (by_time cs)
              (fun e => isValidTime cs (time e) = Ret true)
              (fun a b => minutes_of cs a <? minutes_of cs b)
              (by_time_minutes cs)) with (l := on_date d (events s))
    as (l & -> & _).
  { intros a b _ _ H. lia. }
  { intros a b c _ _ _ H1 H2. lia. }
  { rewrite Forall_forall in *. intros e He. apply filter_In in He.
    now apply (Hv e). }
  cbn [bind]. destruct l; eauto.
Qed.

(** X16.  In every state the store reaches from the empty one by adds,
    edits, deletes and imports, every live event has a valid date and a
    valid time; and on such a state the listings, the slot suggestion, any
    edit, and any add while the id counter is below the largest [int],
    return normally: none reads past the end of a text, throws, or
    overflows. *)
Theorem committed_states_are_safe (s : Store) :
  reachable cs s ->
  Forall (valid_event cs) (events s) /\
  (exists r, listAll cs s = Ret r) /\
  (forall d, exists r, dayView cs s d = Ret r) /\
  (forall d, exists lines, suggestSlots cs s d 60 = Ret lines) /\
  (forall i inp, exists o, editEventById cs s i inp = Ret o) /\
  (forall n d t ty loc v, in_int (nextId s + 1) = true ->
                          exists o, addEvent cs s n d t ty loc v = Ret o).
Proof.
  intros H.
  assert (Hv : Forall (valid_event cs) (events s)).
  { induction H as [| s o s' _ IH _ Hstep].
    - constructor.
    - exact (run_op_valid cs s o s' IH Hstep). }
  split; [exact Hv |].
  split; [now apply listAll_returns |].
  split; [intros d; now apply dayView_returns |].
  split; [intros d; now apply suggestSlots_returns |].
  split; [intros i inp; now apply editEventById_returns |].
  intros n d t ty loc v Hn. now apply addEvent_returns.
Qed.

Lemma run_op_counter s o s' :
  no_import o -> ids_below (nextId s) (events s) ->
  run_op cs s o = Ret s' ->
  nextId s <= nextId s' /\ ids_below (nextId s') (events s').
Proof.
  unfold ids_below. intros Hno Hb H.
  destruct o as [n d t ty loc v | i inp | i | n | lines]; cbn [run_op] in H.
  - bind_inv H. injection H as <-. apply addEvent_cases in Ha.
    destruct Ha as [[_ ->] | [(_ & _ & ->) | [(_ & _ & _ & ->) |
                   [(_ & _ & _ & _ & _ & ->) | (_ & _ & _ & _ & _ & ->)]]]];
      cbn [store events nextId set_nextId]; try (split; [lia | exact Hb]).
    + split; [lia |]. eapply Forall_impl; [| exact Hb]. cbn. intros; lia.
    + split; [lia |]. rewrite map_app. cbn [map id]. apply Forall_app. split.
      * eapply Forall_impl; [| exact Hb]. cbn. intros; lia.
      * repeat constructor. lia.
  - bind_inv H. injection H as <-. apply editEventById_cases in Ha.
    destruct Ha as [[_ ->] | (pos & b & e & Hf & -> & _ & _ & _ & _ & _ & ->)];
      [split; [lia | exact Hb] |].
    apply find_if_Some in Hf. destruct Hf as [Hn _].
    cbn [events nextId set_events].
    rewrite (map_id_assign _ _ _ _ Hn) by reflexivity. split; [lia | exact Hb].
  - injection H as <-. unfold deleteById.
    destruct (Nat.eqb _ _); cbn [store events nextId set_events];
      unfold remove_if; (split; [lia | now apply Forall_map_filter]).
  - injection H as <-. unfold deleteByName.
    destruct (Nat.eqb _ _); cbn [store events nextId set_events];
      unfold remove_if; (split; [lia | now apply Forall_map_filter]).
  - destruct Hno.
Qed.

(** X17.  Along any run of adds, edits and deletes from a state whose
    live ids are below the id counter, the counter never goes down and
    stays above every live id.  So the id the next add hands out is
    different from every id live now and from every id that was live when
    the run began, deleted since or not: ids are not used twice. *)
Theorem ids_never_reused (ops : list op) :
  forall s s',
    ids_below (nextId s) (events s) -> Forall no_import ops ->
    run cs s ops = Ret s' ->
    nextId s <= nextId s' /\
    ids_below (nextId s') (events s') /\
    (forall e, In e (events s) -> id e < nextId s').
Proof.
  induction ops as [| o rest IH]; intros s s' Hb Hno H; cbn [run] in H.
  - injection H as <-. split; [lia |]. split; [exact Hb |].
    intros e He. unfold ids_below in Hb. rewrite Forall_forall in Hb.
    apply Hb. now apply in_map.
  - inversion Hno as [| ? ? Ho Hrest]; subst. bind_inv H.
    destruct (run_op_counter s o a Ho Hb Ha) as [H1 H2].
    destruct (IH a s' H2 Hrest H) as (H3 & H4 & _).
    split; [lia |]. split; [exact H4 |].
    intros e He. unfold ids_below in Hb. rewrite Forall_forall in Hb.
    specialize (Hb (id e) (in_map id _ _ He)). lia.
Qed.

End Safety.

Lemma committed_states_are_safe_witness :
  reachable true sample_store /\
  Forall (valid_event true) (events sample_store) /\
  (exists r, listAll true sample_store = Ret r).
Proof.
  assert (H : reachable true sample_store).
  { apply (run_reachable true _ sample_run init);
      [apply reach_init | | exact sample_run_store].
    apply Forall_forall. intros; exact I. }
  split; [exact H |].
  destruct (committed_states_are_safe true sample_store H) as (H1 & H2 & _).
  split; assumption.
Defined.

Lemma ids_never_reused_witness :
  ids_below (nextId two_events) (events two_events) /\
  exists s',
    run true two_events
      [OpDeleteById 2;
       OpAdd "Review" "01-01-2030" "14:00" "Talk" "" false] = Ret s' /\
    nextId two_events <= nextId s' /\
    map id (events s') = [1; 3].
Proof.
  assert (Hb : ids_below (nextId two_events) (events two_events))
    by (repeat constructor).
  split; [exact Hb |].
  eexists. split; [reflexivity |].
  split; [| reflexivity].
  apply (ids_never_reused true
           [OpDeleteById 2; OpAdd "Review" "01-01-2030" "14:00" "Talk" "" false]
           two_events _ Hb);
    [repeat constructor | reflexivity].
Defined.

(** ** The id typed at the menu *)

Lemma all_digits_cons c s :
  all_digits (String c s) = true -> isdigit c = true /\ all_digits s = true.
Proof.
  unfold all_digits. cbn [list_ascii_of_string forallb]. intros H.
  now apply andb_prop in H.
Qed.

Lemma parse_all_digits s :
  all_digits s = true ->
  forall acc k, 0 <= acc ->
    exists v, parse_digits acc k s = (v, (k + String.length s)%nat) /\
              acc * 10 ^ Z.of_nat (String.length s) <= v
              < (acc + 1) * 10 ^ Z.of_nat (String.length s).
Proof.
  induction s as [| c s IH]; intros Hd acc k Hacc.
  - exists acc. cbn [parse_digits String.length]. rewrite Nat.add_0_r.
    split; [reflexivity |]. cbn. lia.
  - apply all_digits_cons in Hd. destruct Hd as [Hc Hs].
    cbn [parse_digits String.length]. rewrite Hc.
    pose proof (digit_val_bounds c Hc) as Hb.
    destruct (IH Hs (10 * acc + digit_val c) (S k)) as (v & Hv & Hlo & Hhi);
      [lia |].
    exists v. split; [rewrite Hv; f_equal; lia |].
    rewrite Nat2Z.inj_succ, Z.pow_succ_r by lia.
    assert (0 < 10 ^ Z.of_nat (String.length s)) by (apply Z.pow_pos_nonneg; lia).
    nia.
Qed.

(** X18.  The test [main] makes on the id typed for an edit or a delete:
    an empty text or one with a character that is no digit is turned down
    ("Invalid ID."); any other text is a run of digits, and [std::stoi]
    then returns its value, which is not negative, unless the value
    exceeds the largest [int], in which case it throws [out_of_range],
    which the test does not prevent.  Texts of at most nine digits never
    throw. *)
Theorem read_id_spec (s : string) :
  (s = "" \/ all_digits s = false -> read_id s = Ret None) /\
  (s <> "" -> all_digits s = true ->
   exists v,
     0 <= v < 10 ^ Z.of_nat (String.length s) /\
     read_id s = (if v <=? INT_MAX then Ret (Some v)
                  else Raise out_of_range)) /\
  (s <> "" -> all_digits s = true -> (String.length s <= 9)%nat ->
   exists v, 0 <= v /\ read_id s = Ret (Some v)).
Proof.
  assert (Hmain : s <> "" -> all_digits s = true ->
            exists v,
              0 <= v < 10 ^ Z.of_nat (String.length s) /\
              read_id s = (if v <=? INT_MAX then Ret (Some v)
                           else Raise out_of_range)).
  { intros Hne Hd. unfold read_id. rewrite Hd.
    apply String.eqb_neq in Hne. rewrite Hne. cbn [orb negb].
    destruct s as [| c r]; [discriminate Hne |].
    destruct (all_digits_cons _ _ Hd) as [Hc _].
    rewrite (stoi_digit_first _ _ Hc).
    destruct (parse_all_digits _ Hd 0 0 (Z.le_refl 0)) as (v & Hv & Hlo & Hhi).
    rewrite Hv. exists v. split; [lia |].
    cbn [Nat.add String.length]. unfold in_int.
    replace (INT_MIN <=? v) with true by (unfold INT_MIN; lia).
    cbn [andb]. destruct (v <=? INT_MAX); reflexivity. }
  split; [| split; [exact Hmain |]].
  - intros [-> | H]; [reflexivity |]. unfold read_id. rewrite H.
    now rewrite orb_true_r.
  - intros Hne Hd Hlen. destruct (Hmain Hne Hd) as (v & [Hlo Hhi] & Hr).
    exists v. split; [exact Hlo |]. rewrite Hr.
    replace (v <=? INT_MAX) with true; [reflexivity |].
    assert (10 ^ Z.of_nat (String.length s) <= 10 ^ 9)
      by (apply Z.pow_le_mono_r; lia).
    unfold INT_MAX. lia.
Qed.

Example read_id_overflow : read_id "99999999999" = Raise out_of_range.
Proof. reflexivity. Qed.

(** ** Attendees *)

Example loadAttendees_commas :
  attendeeEmails
    (store (loadAttendeesFromPaste init
              ["ann@example.org, bob@example.org;"; "carol@example.org,dan@example.org"; "";
               "eve@example.org"]))
  = ["ann@example.org"; "bob@example.org"; "carol@example.org,dan@example.org"].
Proof. reflexivity. Qed.

(** ** The table *)

Lemma length_app_string a b :
  String.length (a ++ b) = (String.length a + String.length b)%nat.
Proof.
  induction a as [| c a IH]; cbn [append String.length Nat.add];
    [reflexivity | now rewrite IH].
Qed.

Lemma fill_length k c : String.length (fill k c) = k.
Proof. induction k; cbn [fill String.length]; [reflexivity | now f_equal]. Qed.

Lemma setw_left_length w s :
  String.length (setw_left w s) = Nat.max w (String.length s).
Proof. unfold setw_left. rewrite length_app_string, fill_length. lia. Qed.

Lemma substring_length k s :
  (k <= String.length s)%nat -> String.length (String.substring 0 k s) = k.
Proof.
  revert k. induction s as [| c s IH]; intros [| k] H;
    cbn [String.substring String.length] in *; try reflexivity; try lia.
  f_equal. apply IH. lia.
Qed.

(** [truncate] leaves a text of at most [n] bytes alone, and cuts a longer
    one to [n-1] bytes plus the three bytes of the ellipsis. *)
Lemma truncate_length s n :
  (1 <= n)%nat ->
  String.length (truncate s n) =
  if Nat.leb (String.length s) n then String.length s else (n + 2)%nat.
Proof.
  intros Hn. unfold truncate. destruct (Nat.leb (String.length s) n) eqn:E;
    [reflexivity |].
  apply Nat.leb_gt in E. destruct n as [| k]; [lia |].
  rewrite length_app_string, substring_length by lia. cbn. lia.
Qed.

Lemma all_from_spec P n :
  forall z, all_from P z n = true ->
            forall k, z <= k < z + Z.of_nat n -> P k = true.
Proof.
  induction n as [| n IH]; intros z H k Hk; [lia |].
  cbn [all_from] in H. apply andb_prop in H. destruct H as [Hz Hrest].
  destruct (Z.eq_dec k z) as [-> | Hne]; [exact Hz |].
  apply (IH (z + 1) Hrest). lia.
Qed.

Lemma id_width_check :
  all_from (fun z => Nat.leb (String.length (Z_to_string z)) 5) 0
           (Z.to_nat 100000) = true.
Proof. vm_compute. reflexivity. Qed.

Lemma id_width z :
  0 <= z <= 99999 -> (String.length (Z_to_string z) <= 5)%nat.
Proof.
  intros Hz. apply Nat.leb_le.
  apply (all_from_spec _ _ 0 id_width_check z). lia.
Qed.

Section Table.

Variable cs : bool.

(** X20.  Every line of a table is 79 bytes long: the two header lines,
    and the row of every event with a valid date and time and an id from 0
    to 99999, however long its name, type and location are.  A text too
    long for its column is cut so that, with the three bytes of the
    ellipsis, it fills the column to the last byte. *)
Theorem table_lines_width (e : Event) :
  valid_event cs e -> 0 <= id e <= 99999 ->
  String.length (printEvent e) = 79%nat /\
  Forall (fun l => String.length l = 79%nat) printHeader /\
  String.length (setw_left 22 (truncate (name e) 20)) = 22%nat.
Proof.
  intros [Hd Ht] Hi.
  assert (Hcol : forall s n, (1 <= n)%nat ->
            String.length (setw_left (n + 2) (truncate s n)) = (n + 2)%nat).
  { intros s n Hn. rewrite setw_left_length, truncate_length by exact Hn.
    destruct (Nat.leb (String.length s) n) eqn:E; [| lia].
    apply Nat.leb_le in E. lia. }
  split; [| split].
  - unfold printEvent. rewrite !length_app_string, !setw_left_length.
    pose proof (id_width _ Hi) as Hw.
    apply valid_date_shape in Hd.
    destruct Hd as (a1 & a2 & a3 & a4 & a5 & a6 & a7 & a8 & ->).
    apply isValidTime_inv in Ht.
    destruct Ht as (a & b & c & d & -> & _).
    pose proof (Hcol (name e) 20%nat) as H1.
    pose proof (Hcol (type e) 12%nat) as H2.
    pose proof (Hcol (location e) 16%nat) as H3.
    rewrite setw_left_length in H1, H2, H3.
    cbn [Nat.add] in H1, H2, H3.
    rewrite H1, H2, H3 by lia.
    cbn [String.length ddmmyyyy hhmm]. lia.
  - repeat constructor.
  - apply (Hcol (name e) 20%nat). lia.
Qed.

End Table.

Lemma table_lines_width_witness :
  valid_event true
    (mkEvent 12 "A very long name for an event" "01-01-2030" "09:00"
       "Categorisation" "A long location name") /\
  0 <= 12 <= 99999 /\
  String.length
    (printEvent (mkEvent 12 "A very long name for an event" "01-01-2030"
                   "09:00" "Categorisation" "A long location name")) = 79%nat.
Proof.
  assert (Hv : valid_event true
                 (mkEvent 12 "A very long name for an event" "01-01-2030"
                    "09:00" "Categorisation" "A long location name"))
    by (split; reflexivity).
  assert (Hi : 0 <= 12 <= 99999) by lia.
  split; [exact Hv |]. split; [exact Hi |].
  exact (proj1 (table_lines_width true _ Hv Hi)).
Defined.

(** ** What an accepted add leaves *)

Section Effects.

Variable cs : bool.


End Effects.


(** ** The menu *)

Lemma getline_pending c v :
  (List.length (pending (snd (getline c v))) <= List.length (pending c))%nat.
Proof.
  unfold getline. destruct (eofbit c); [cbn [snd]; lia |].
  destruct (pending c) as [| l [| l' rest]]; cbn [snd pending List.length]; lia.
Qed.

Lemma getline_consumes c v :
  eofbit (snd (getline c v)) = false ->
  S (List.length (pending (snd (getline c v)))) = List.length (pending c).
Proof.
  unfold getline. destruct (eofbit c) eqn:E; cbn [snd]; [congruence |].
  destruct (pending c) as [| l [| l' rest]];
    cbn [snd pending eofbit List.length]; intros H; congruence || lia.
Qed.

Lemma getline_unterminated c v :
  unterminated (snd (getline c v)) = unterminated c.
Proof.
  unfold getline. destruct (eofbit c); [reflexivity |].
  now destruct (pending c) as [| l [| l' rest]].
Qed.

(** Reads one [getline] of the goal: names its results and records what
    it does to the stream. *)
Ltac read_line :=
  match goal with
  | |- context [getline ?c ?v] =>
      let x := fresh "x" in
      let c' := fresh "c" in
      let L := fresh "L" in
      let U := fresh "U" in
      pose proof (getline_pending c v) as L;
      pose proof (getline_unterminated c v) as U;
      destruct (getline c v) as [x c']; cbn [snd] in L, U
  end.

Lemma read_edit_stream c :
  (List.length (pending (snd (read_edit c))) <= List.length (pending c))%nat
  /\ unterminated (snd (read_edit c)) = unterminated c.
Proof.
  unfold read_edit. do 5 read_line. cbn [snd]. split; [lia | congruence].
Qed.

Lemma read_block_stream fuel :
  forall c line ls c',
    read_block fuel c line = Block ls c' ->
    (List.length (pending c') <= List.length (pending c))%nat
    /\ unterminated c' = unterminated c.
Proof.
  induction fuel as [| fuel IH]; intros c line ls c' H; cbn [read_block] in H;
    [discriminate |].
  revert H. read_line. destruct (size x =? 0).
  - intros H. injection H as _ <-. split; [lia | congruence].
  - destruct (read_block fuel c0 x) as [ls' c'' |] eqn:R; [| discriminate].
    intros H. injection H as _ <-. destruct (IH _ _ _ _ R). split; [lia | congruence].
Qed.

Lemma read_block_endless fuel :
  forall c line ls,
    (eofbit c = false -> (List.length (pending c) < fuel)%nat) ->
    (eofbit c = true -> unterminated c = true \/ line = "") ->
    (fuel = O -> (size line =? 0) = false) ->
    read_block fuel c line = Endless ls -> unterminated c = true.
Proof.
  induction fuel as [| fuel IH]; intros c line ls Hlen Heof Hline H.
  - destruct (eofbit c) eqn:E; [| specialize (Hlen eq_refl); lia].
    destruct (Heof eq_refl) as [-> | ->]; [reflexivity |].
    specialize (Hline eq_refl). discriminate Hline.
  - cbn [read_block] in H. unfold getline in H.
    destruct (eofbit c) eqn:E.
    + destruct (size line =? 0) eqn:Z; [discriminate |].
      destruct (read_block fuel c line) as [| ls'] eqn:R; [discriminate |].
      apply (IH c line ls'); auto; congruence.
    + specialize (Hlen eq_refl).
      destruct (pending c) as [| l [| l' rest]] eqn:P.
      * discriminate H.
      * destruct (size l =? 0) eqn:Z; [discriminate |].
        destruct (read_block fuel _ l) as [| ls'] eqn:R; [discriminate |].
        apply IH in R; cbn [eofbit unterminated pending List.length] in *;
          auto; try discriminate; try (intros; subst; lia).
      * destruct (size l =? 0) eqn:Z; [discriminate |].
        destruct (read_block fuel _ l) as [| ls'] eqn:R; [discriminate |].
        apply IH in R; cbn [eofbit unterminated pending List.length] in *;
          auto; try discriminate; try (intros; subst; lia).
Qed.

Lemma read_lines_endless c ls :
  read_lines c = Endless ls -> unterminated c = true.
Proof.
  apply read_block_endless; auto; discriminate.
Qed.



Section Menu.

Variable cs : bool.











End Menu.

Section Loop.

Variable cs : bool.

Ltac by_choice choice :=
  cbn [andb];
  repeat match goal with
         | |- context [String.eqb choice ?k] =>
             destruct (String.eqb choice k); cbn [andb]
         end.

Lemma search_returns s k : exists r, search s k = Ret r.
Proof.
  unfold search. destruct (filter _ _) as [| x l]; [eauto |].
  destruct (std_sort_returns by_id (x :: l)) as [l' ->]; [| cbn [bind]; eauto].
  intros a b. unfold by_id. eauto.
Qed.

(** X24.  A turn of the menu taken without the admin flag never changes
    the store: whenever it returns, the store is as it was, whatever the
    choice typed and whatever the store holds -- the nine operations for
    the admin are the "Invalid choice" of a viewer.  On a store whose
    events have valid dates and times, as every committed state has, the
    turn does return.  (On other stores a listing can leave defined
    behaviour: [viewer_turn_on_unreadable_time].) *)
Theorem viewer_turn_keeps_store (today : string) (s : Store)
    (choice : string) (c : Cin) :
  (forall t, menu_turn cs false today s choice c = Ret t ->
             exists c' out, t = Next s c' out) /\
  (Forall (valid_event cs) (events s) ->
   exists c' out, menu_turn cs false today s choice c = Ret (Next s c' out)).
Proof.
  split.
  - intros t. unfold menu_turn. cbn [andb]. by_choice choice; intros H.
    + bind_inv H. injection H as <-. eauto.
    + destruct (getline c "") as [d c1]. bind_inv H.
      destruct (negb a); [injection H as <-; eauto |].
      bind_inv H. injection H as <-. eauto.
    + bind_inv H. injection H as <-. eauto.
    + destruct (getline c "") as [k c1]. bind_inv H. injection H as <-. eauto.
    + injection H as <-. eauto.
  - intros Hv. unfold menu_turn. cbn [andb]. by_choice choice.
    + destruct (listAll_returns cs s Hv) as [r ->]. cbn [bind]. eauto.
    + destruct (getline c "") as [d c1]. rewrite isValidDate_eq. cbn [bind].
      destruct (negb (spec_valid_date d)); [eauto |].
      destruct (dayView_returns cs s d Hv) as [r ->]. cbn [bind]. eauto.
    + unfold todaysEvents.
      destruct (dayView_returns cs s today Hv) as [r ->]. cbn [bind]. eauto.
    + destruct (getline c "") as [k c1].
      destruct (search_returns s k) as [r ->]. cbn [bind]. eauto.
    + eauto.
Qed.



Ltac read_line_in H :=
  match type of H with
  | context [getline ?c ?v] =>
      let x := fresh "x" in
      let c' := fresh "c" in
      let L := fresh "L" in
      let U := fresh "U" in
      pose proof (getline_pending c v) as L;
      pose proof (getline_unterminated c v) as U;
      destruct (getline c v) as [x c']; cbn [snd] in L, U
  | context [read_edit ?c] =>
      let L := fresh "L" in
      let U := fresh "U" in
      destruct (read_edit_stream c) as [L U];
      destruct (read_edit c); cbn [snd] in L, U
  | context [read_lines ?c] =>
      let R := fresh "R" in
      destruct (read_lines c) eqn:R;
      [apply read_block_stream in R; destruct R | apply read_lines_endless in R]
  end.

Ltac turn_inv H :=
  repeat first
    [ read_line_in H
    | bind_inv H
    | match type of H with
      | context [if negb ?b then _ else _] => destruct b; cbn [negb] in H
      | context [match ?x with Some _ => _ | None => _ end] => destruct x
      end ].






Lemma main_login_stream c :
  (List.length (pending (snd (fst (main_login c)))) <= List.length (pending c))%nat
  /\ unterminated (snd (fst (main_login c))) = unterminated c.
Proof.
  unfold main_login, adminLogin. read_line.
  destruct (negb _ && _); cbn [fst snd]; [| split; [lia | congruence]].
  do 2 read_line. destruct (_ && _); cbn [fst snd]; split; lia || congruence.
Qed.


(** X26.  The login grants the admin flag exactly when the input starts
    with the answer [y] or [Y], the user name [admin] or [ACMadmin] and
    the password [admin123], each on a line of its own. *)
Theorem login_needs_credentials (c : Cin) :
  fst (fst (main_login c)) = true <->
  eofbit c = false /\
  exists a u rest,
    pending c = a :: u :: "admin123" :: rest
    /\ (a = "y" \/ a = "Y") /\ (u = "admin" \/ u = "ACMadmin").
Proof.
  unfold main_login, adminLogin, getline.
  destruct (eofbit c) eqn:E.
  { cbn. split; [discriminate | intros [? _]; discriminate]. }
  split.
  - intros H. split; [reflexivity |].
    destruct (pending c) as [| a [| u [| p rest]]]; cbn [eofbit pending] in H.
    + discriminate H.
    + destruct (negb (String.eqb a "") && ((String.eqb a "y") || (String.eqb a "Y")));
        [| discriminate H].
      destruct (unterminated c); cbn in H; discriminate H.
    + destruct (negb (String.eqb a "") && ((String.eqb a "y") || (String.eqb a "Y")));
        [| discriminate H].
      cbn [eofbit pending unterminated] in H.
      destruct (unterminated c); cbn [eofbit pending] in H;
        replace (String.eqb "" "admin123") with false in H by reflexivity;
        rewrite andb_false_r in H; discriminate H.
    + destruct (negb (String.eqb a "") && ((String.eqb a "y") || (String.eqb a "Y"))) eqn:A;
        [| discriminate H].
      cbn [eofbit pending unterminated] in H.
      assert (K : ((String.eqb u "admin") || (String.eqb u "ACMadmin")) && (String.eqb p "admin123") = true).
      { destruct rest; cbn [eofbit pending] in H;
          destruct (((String.eqb u "admin") || (String.eqb u "ACMadmin")) && (String.eqb p "admin123"));
          cbn [fst] in H; congruence. }
      apply andb_prop in A, K. destruct A as [_ A], K as [K1 K2].
      apply String.eqb_eq in K2. subst p.
      exists a, u, rest. split; [reflexivity |].
      apply orb_prop in A, K1.
      split; [destruct A as [B | B] | destruct K1 as [B | B]];
        apply String.eqb_eq in B; auto.
  - intros (_ & a & u & rest & -> & Ha & Hu).
    assert (A : negb (String.eqb a "") && ((String.eqb a "y") || (String.eqb a "Y")) = true)
      by (destruct Ha as [-> | ->]; reflexivity).
    assert (U : ((String.eqb u "admin") || (String.eqb u "ACMadmin")) = true)
      by (destruct Hu as [-> | ->]; reflexivity).
    cbn [eofbit pending unterminated]. rewrite A.
    destruct rest; cbn [eofbit pending]; rewrite U; reflexivity.
Qed.

Lemma viewer_turn_init today choice c :
  exists c' o,
    menu_turn cs false today init choice c = Ret (Next init c' o)
    /\ (List.length (pending c') <= List.length (pending c))%nat.
Proof.
  unfold menu_turn. by_choice choice.
  - cbn. eauto.
  - read_line. rewrite isValidDate_eq. cbn [bind].
    destruct (spec_valid_date x); cbn [negb]; [| eauto].
    cbn. eauto.
  - cbn. eauto.
  - read_line. cbn. eauto.
  - eauto.
Qed.

Lemma viewer_loop fuel :
  forall clock k c out,
    (List.length (pending c) < fuel)%nat ->
    exists out', main_loop cs fuel false clock k init c out = Ret (Exit init out').
Proof.
  induction fuel as [| fuel IH]; intros clock k c out Hlen; [lia |].
  cbn [main_loop].
  pose proof (getline_consumes c "") as Hc.
  destruct (getline c "") as [choice c1]. cbn [snd] in Hc.
  destruct (String.eqb choice "0" || eofbit c1) eqn:E; [eauto |].
  apply orb_false_elim in E. destruct E as [_ E]. specialize (Hc E).
  destruct (viewer_turn_init (clock k) choice c1) as (c2 & o & -> & Hle).
  cbn [bind]. apply IH. lia.
Qed.

(** X25.  A run of [main] that does not pass the login returns, whatever
    is typed and wherever the input ends, and its store is the empty
    store to the end: no exception, no step outside defined behaviour, no
    endless loop. *)
Theorem viewer_run_keeps_store_empty (clock : nat -> string) (c : Cin) :
  fst (fst (main_login c)) = false ->
  exists out, main cs clock c = Ret (Exit init out).
Proof.
  intros H. unfold main.
  pose proof (main_login_stream c) as [L _].
  destruct (main_login c) as [[a c1] out]. cbn [fst snd] in H, L. subst a.
  apply viewer_loop. lia.
Qed.


Ltac cases :=
  repeat first
    [ reflexivity
    | match goal with
      | |- context [if ?b then _ else _] => destruct b
      | |- context [match ?x with Some _ => _ | None => _ end] => destruct x
      | |- context [match ?x with [] => _ | _ :: _ => _ end] => destruct x
      | |- context [let '(_, _) := ?x in _] => destruct x
      end
    | match goal with
      | |- context [bind ?m _] =>
          lazymatch m with
          | bind _ _ => fail
          | _ => destruct m; cbn [bind]
          end
      end ].

Lemma run_op_strip s o :
  run_op cs (without_attendees s) o
  = match run_op cs s o with
    | Ret s' => Ret (without_attendees s')
    | Raise e => Raise e
    | UB => UB
    | OutOfFuel => OutOfFuel
    end.
Proof.
  destruct o as [n d t ty loc v | i inp | i | n | lines]; cbn [run_op].
  - unfold addEvent, isDuplicate, suggestSlots, without_attendees.
    cbn [events nextId attendeeEmails set_nextId set_events store bind].
    cases.
  - unfold editEventById, suggestSlots, without_attendees.
    cbn [events nextId attendeeEmails set_nextId set_events store bind].
    destruct (find_if _ (events s)) as [[pos backup] |]; [| reflexivity].
    cbn [events nextId attendeeEmails set_nextId set_events store bind].
    cases.
  - unfold deleteById, without_attendees.
    cbn [events nextId attendeeEmails set_events].
    destruct (Nat.eqb _ _); reflexivity.
  - unfold deleteByName, without_attendees.
    cbn [events nextId attendeeEmails set_events].
    destruct (Nat.eqb _ _); reflexivity.
  - unfold importSnapshotCSV, without_attendees.
    destruct (import_loop cs lines [] 0 true) as [[temp m] | | |];
      cbn [bind]; try reflexivity.
    destruct temp; [reflexivity |].
    destruct (int_add m 1); reflexivity.
Qed.

Lemma strip_reachable s o s' :
  reachable cs (without_attendees s) -> run_op cs s o = Ret s' -> reachable cs (without_attendees s').
Proof.
  intros Hr H. apply (reach_step cs _ (without_attendees s) o); [exact Hr | exact I |].
  rewrite run_op_strip, H. reflexivity.
Qed.


Lemma menu_turn_committed a today s choice c s' c' o :
  menu_turn cs a today s choice c = Ret (Next s' c' o) ->
  reachable cs (without_attendees s) -> reachable cs (without_attendees s').
Proof.
  unfold menu_turn. destruct a; by_choice choice; intros H Hr; turn_inv H;
    try discriminate H; injection H as <- _ _;
    match goal with
    | Ha : addEvent cs s ?n ?d ?t ?ty ?loc ?v = Ret _ |- _ =>
        apply (strip_reachable s (OpAdd n d t ty loc v));
        [exact Hr | cbn [run_op]; now rewrite Ha]
    | Ha : editEventById cs s ?i ?inp = Ret _ |- _ =>
        apply (strip_reachable s (OpEdit i inp));
        [exact Hr | cbn [run_op]; now rewrite Ha]
    | Ha : importSnapshotCSV cs s ?l = Ret _ |- _ =>
        apply (strip_reachable s (OpImport l));
        [exact Hr | cbn [run_op]; now rewrite Ha]
    | |- reachable cs (without_attendees (store (deleteById s ?i))) =>
        apply (strip_reachable s (OpDeleteById i)); [exact Hr | reflexivity]
    | |- reachable cs (without_attendees (store (deleteByName s ?n))) =>
        apply (strip_reachable s (OpDeleteByName n)); [exact Hr | reflexivity]
    | _ => exact Hr
    end.
Qed.

Lemma main_loop_committed fuel :
  forall a clock k s c out s' out',
    main_loop cs fuel a clock k s c out = Ret (Exit s' out') ->
    reachable cs (without_attendees s) -> reachable cs (without_attendees s').
Proof.
  induction fuel as [| fuel IH]; intros a clock k s c out s' out' H Hr;
    [discriminate |].
  cbn [main_loop] in H. destruct (getline c "") as [choice c1].
  destruct (String.eqb choice "0" || eofbit c1); [now injection H as <- _ |].
  bind_inv H. destruct a0 as [s1 c2 o |]; [| discriminate].
  apply (IH _ _ _ _ _ _ _ _ H). exact (menu_turn_committed _ _ _ _ _ _ _ _ Ha Hr).
Qed.

(** X28.  Whatever is typed, the store [main] ends with is, its attendee
    list apart, a committed state of the engine: a run of its operations
    from the empty store leads to it.  So its events have valid dates and
    times. *)
Theorem main_store_is_committed (clock : nat -> string) (c : Cin)
    (s : Store) (out : list string) :
  main cs clock c = Ret (Exit s out) ->
  reachable cs (without_attendees s) /\ Forall (valid_event cs) (events s).
Proof.
  intros H. unfold main in H. destruct (main_login c) as [[a c1] o].
  apply main_loop_committed in H; [| exact (reach_init cs _)].
  split; [exact H |]. exact (reachable_valid cs _ H).
Qed.

End Loop.

Lemma viewer_run_keeps_store_empty_witness :
  fst (fst (main_login viewer_session)) = false /\
  exists out, main true sample_clock viewer_session = Ret (Exit init out).
Proof.
  split; [reflexivity |].
  apply (viewer_run_keeps_store_empty true sample_clock viewer_session).
  reflexivity.
Defined.


Lemma main_store_is_committed_witness :
  main true sample_clock sample_session = Ret (Exit session_store session_text)
  /\ reachable true (without_attendees session_store)
  /\ Forall (valid_event true) (events session_store).
Proof.
  assert (H : main true sample_clock sample_session
              = Ret (Exit session_store session_text))
    by (vm_compute; reflexivity).
  split; [exact H |].
  exact (main_store_is_committed true sample_clock sample_session
           session_store session_text H).
Defined.

Example viewer_turn_on_unreadable_time :
  menu_turn true false "01-01-2030"
    (mkStore [mkEvent 1 "a" "01-01-2030" "" "" "";
              mkEvent 2 "b" "01-01-2030" "" "" ""] 3 []) "3"
    (mkCin [] false false) = UB.
Proof. reflexivity. Qed.

Lemma viewer_turn_keeps_store_witness :
  Forall (valid_event true) (events sample_store) /\
  exists c' out,
    menu_turn true false "01-01-2030" sample_store "7"
      (mkCin ["4"] false false) = Ret (Next sample_store c' out).
Proof.
  assert (Hv : Forall (valid_event true) (events sample_store))
    by (repeat constructor).
  split; [exact Hv |].
  exact (proj2 (viewer_turn_keeps_store true "01-01-2030" sample_store "7"
                  (mkCin ["4"] false false)) Hv).
Defined.

(** * The properties in the words of the specification *)

(** ** The code against the words of the specification *)

Lemma isValidTime_eq cs t : isValidTime cs t = Ret (spec_valid_time t).
Proof.
  do 5 (destruct t as [| ? t]; [reflexivity |]).
  destruct t as [| ? t].
  - rewrite isValidTime_five. unfold spec_valid_time, spec_time_fields.
    destruct (Ascii.eqb a1 ":" && isdigit a && isdigit a0 && isdigit a2
              && isdigit a3); reflexivity.
  - rewrite isValidTime_long. reflexivity.
Qed.

(** The start of a valid time is what [toMinutes] computes. *)
Lemma valid_time_start cs e :
  isValidTime cs (time e) = Ret true ->
  exists m, spec_start e = Some m /\ toMinutes cs (time e) = Ret m
            /\ 0 <= m < 1440.
Proof.
  intros H. apply isValidTime_inv in H.
  destruct H as (a & b & c & d & Ht & Ha & Hb & Hc & Hd & Hh & Hm).
  unfold spec_start. rewrite Ht. unfold hhmm, spec_time_fields.
  change (Ascii.eqb ":" ":") with true. rewrite Ha, Hb, Hc, Hd. cbn [andb].
  eexists. split; [reflexivity |].
  split; [apply (toMinutes_hhmm cs a b c d); assumption |].
  pose proof (digit_val_bounds _ Ha). pose proof (digit_val_bounds _ Hb).
  pose proof (digit_val_bounds _ Hc). pose proof (digit_val_bounds _ Hd).
  lia.
Qed.

Lemma code_bounds c : 0 <= code c < 256.
Proof.
  unfold code. pose proof (nat_ascii_bounded c). lia.
Qed.

Lemma code_inj c d : code c = code d -> c = d.
Proof.
  unfold code. intros H. apply Nat2Z.inj in H.
  rewrite <- (ascii_nat_embedding c), <- (ascii_nat_embedding d). now rewrite H.
Qed.

Lemma code_tolower c :
  code (tolower c) = if (65 <=? code c) && (code c <=? 90) then code c + 32
                     else code c.
Proof.
  unfold tolower. destruct ((65 <=? code c) && (code c <=? 90)) eqn:E;
    [| reflexivity].
  unfold code in *. rewrite nat_ascii_embedding; lia.
Qed.

Lemma tolower_same_char c d : tolower c = tolower d <-> spec_same_char c d.
Proof.
  unfold spec_same_char. split.
  - intros H. apply (f_equal code) in H. rewrite !code_tolower in H.
    destruct ((65 <=? code c) && (code c <=? 90)) eqn:Ec,
             ((65 <=? code d) && (code d <=? 90)) eqn:Ed.
    + left. apply code_inj. lia.
    + right. left. split; [lia | lia].
    + right. right. split; [lia | lia].
    + left. now apply code_inj.
  - intros H. apply code_inj. rewrite !code_tolower.
    destruct H as [-> | [[Hc Hd] | [Hd Hc]]]; [reflexivity | |].
    + replace ((65 <=? code c) && (code c <=? 90)) with true by lia.
      replace ((65 <=? code d) && (code d <=? 90)) with false by lia. lia.
    + replace ((65 <=? code d) && (code d <=? 90)) with true by lia.
      replace ((65 <=? code c) && (code c <=? 90)) with false by lia. lia.
Qed.

Lemma toLower_same_text a : forall b,
  toLower a = toLower b <-> spec_same_text a b.
Proof.
  unfold spec_same_text. induction a as [| c a IH]; intros [| d b];
    cbn [toLower list_ascii_of_string].
  - split; [constructor | reflexivity].
  - split; [discriminate | intros H; inversion H].
  - split; [discriminate | intros H; inversion H].
  - split.
    + intros H. injection H as Hc Hr. constructor.
      * now apply tolower_same_char.
      * now apply IH.
    + intros H. inversion H; subst. f_equal.
      * now apply tolower_same_char.
      * now apply IH.
Qed.

Lemma iequals_same_text a b : iequals a b = true <-> spec_same_text a b.
Proof.
  unfold iequals. rewrite String.eqb_eq. apply toLower_same_text.
Qed.

Lemma toLower_app a b : toLower (a ++ b) = toLower a ++ toLower b.
Proof. induction a as [| c a IH]; cbn; [reflexivity | now rewrite IH]. Qed.

Lemma toLower_split s : forall x y,
  toLower s = x ++ y ->
  exists s1 s2, s = s1 ++ s2 /\ toLower s1 = x /\ toLower s2 = y.
Proof.
  induction s as [| c s IH]; intros x y H.
  - destruct x; [| discriminate H]. destruct y; [| discriminate H].
    exists "", "". auto.
  - destruct x as [| cx x].
    + exists "", (String c s). auto.
    + cbn in H. injection H as Hc Hr.
      destruct (IH _ _ Hr) as (s1 & s2 & -> & H1 & H2).
      exists (String c s1), s2. cbn. repeat split; congruence.
Qed.

Lemma prefix_app key text :
  String.prefix key text = true <-> exists post, text = key ++ post.
Proof.
  revert text. induction key as [| k key IH]; intros text; cbn.
  - split; [intros _; now exists text | intros _; now destruct text].
  - destruct text as [| c text]; [split; [discriminate | intros [? H]; discriminate H] |].
    cbn [String.prefix]. destruct (ascii_dec k c) as [-> | Hne].
    + rewrite IH. split; intros [post H]; exists post; congruence.
    + split; [discriminate | intros [post H]; congruence].
Qed.

Lemma contains_app text key :
  contains text key = true <-> exists pre post, text = pre ++ key ++ post.
Proof.
  induction text as [| c text IH]; cbn [contains].
  - rewrite orb_false_r, prefix_app. split.
    + intros [post H]. now exists "", post.
    + intros (pre & post & H). destruct pre; [now exists post | discriminate H].
  - rewrite orb_true_iff, prefix_app, IH. split.
    + intros [[post H] | (pre & post & H)].
      * now exists "", post.
      * exists (String c pre), post. cbn. now rewrite H.
    + intros (pre & post & H). destruct pre as [| c' pre].
      * left. now exists post.
      * right. cbn in H. injection H as _ H. now exists pre, post.
Qed.

Lemma icontains_occurs text key :
  icontains text key = true <-> spec_occurs text key.
Proof.
  unfold icontains, spec_occurs. rewrite contains_app. split.
  - intros (pre & post & H).
    apply toLower_split in H. destruct H as (s1 & s2 & -> & H1 & H2).
    apply toLower_split in H2. destruct H2 as (s3 & s4 & -> & H3 & H4).
    exists s1, s3, s4. split; [reflexivity |]. now apply toLower_same_text.
  - intros (pre & mid & post & -> & H). apply toLower_same_text in H.
    exists (toLower pre), (toLower post). now rewrite !toLower_app, H.
Qed.

(** ** The two rules *)

Section RulesInWords.

Variable cs : bool.

Lemma duplicate_spec a b : duplicate a b <-> spec_duplicate a b.
Proof.
  unfold duplicate, spec_duplicate. now rewrite iequals_same_text.
Qed.

(** On two events with valid times, [conflicts] answers whether their
    hours meet. *)
Lemma conflicts_overlap a b :
  isValidTime cs (time a) = Ret true -> isValidTime cs (time b) = Ret true ->
  exists sa sb,
    spec_start a = Some sa /\ spec_start b = Some sb /\
    (conflicts cs a b = Ret true <-> spec_overlap a b) /\
    (conflicts cs a b = Ret false <->
     (date a = date b -> sa + 60 <= sb \/ sb + 60 <= sa)).
Proof.
  intros Ha Hb.
  destruct (valid_time_start cs a Ha) as (sa & Hsa & Hta & _).
  destruct (valid_time_start cs b Hb) as (sb & Hsb & Htb & _).
  exists sa, sb. split; [exact Hsa |]. split; [exact Hsb |].
  rewrite (conflicts_minutes cs a b sa sb Hta Htb).
  unfold spec_overlap. rewrite Hsa, Hsb.
  destruct (String.eqb (date a) (date b)) eqn:E; cbn [andb].
  - apply String.eqb_eq in E. split; split.
    + intros H. apply Ret_inj in H. split; [exact E |].
      exists sa, sb. repeat split; lia.
    + intros (_ & x & y & Hx & Hy & H1 & H2).
      injection Hx as <-. injection Hy as <-. f_equal. lia.
    + intros H _. apply Ret_inj in H. lia.
    + intros H. specialize (H E). f_equal. lia.
  - apply String.eqb_neq in E. split; split.
    + discriminate.
    + intros [H _]. contradiction.
    + intros _ H. contradiction.
    + reflexivity.
Qed.

Lemma compatible_spec a b :
  valid_event cs a -> valid_event cs b ->
  (compatible cs a b <-> spec_compatible a b).
Proof.
  intros [_ Ha] [_ Hb]. unfold compatible, spec_compatible.
  rewrite duplicate_spec.
  destruct (conflicts_overlap a b Ha Hb) as (sa & sb & _ & _ & Ht & Hf).
  destruct (conflicts_returns cs a b Ha Hb) as [[|] Hc].
  - split; intros [H1 H2]; [congruence |].
    exfalso. apply H2. now apply Ht.
  - split; intros [H1 H2]; (split; [exact H1 |]); [| exact Hc].
    intros H. apply Ht in H. congruence.
Qed.

Lemma ForallOrdPairs_iff {A} (P : A -> Prop) (R Q : A -> A -> Prop) l :
  Forall P l -> (forall a b, P a -> P b -> R a b -> Q a b) ->
  ForallOrdPairs R l -> ForallOrdPairs Q l.
Proof.
  intros Hl H. induction 1 as [| x l Hx _ IH]; [constructor |].
  inversion Hl as [| ? ? Px Pl]; subst. constructor.
  - rewrite Forall_forall in *. intros y Hy. apply H; auto.
  - now apply IH.
Qed.

(** Rows that obey the rules in the words of the specification obey them
    as the code tests them: the import keeps rows with valid times only. *)
Lemma import_accepts_spec o :
  import_accepts cs spec_clean_rows o ->
  import_accepts cs (clean_rows cs) o.
Proof.
  destruct o; cbn [import_accepts]; auto.
  intros H temp m Hl. destruct (H temp m Hl) as [Hu Hr].
  split; [exact Hu |].
  assert (Hv : Forall (valid_event cs) temp).
  { apply import_loop_rows in Hl; [| constructor].
    eapply Forall_impl; [| exact Hl]. intros e (_ & _ & He). exact He. }
  apply (ForallOrdPairs_iff (valid_event cs) spec_compatible); auto.
  intros a b Pa Pb. now apply compatible_spec.
Qed.

Lemma reachable_by_impl (ok ok' : op -> Prop) s :
  (forall o, ok o -> ok' o) -> reachable_by cs ok s -> reachable_by cs ok' s.
Proof.
  intros H. induction 1 as [| s o s' _ IH Hok Hstep]; [constructor |].
  apply reach_step with s o; auto.
Qed.

(** C2 (as the code has it).  In every state that a run of adds, edits,
    deletes and imports reaches from the empty store within defined
    behaviour, where the rows every import accepts have pairwise different
    ids, no two of them the same (name without case, date, time) and no
    two of them hours that meet: no two live events have the same (name
    without case, date, time); every live event has a start the
    specification can read; and two live events on the same date start at
    least 60 minutes apart, which is to say that their hours
    [start, start+60) do not meet.  (A run leaves defined behaviour when
    [nextId++] or [maxId+1] passes the largest [int]; such runs reach no
    state here.) *)
Theorem rules_hold_reachable (s : Store) :
  reachable_by cs (import_accepts cs spec_clean_rows) s ->
  forall i j a b,
    i <> j ->
    nth_error (events s) i = Some a -> nth_error (events s) j = Some b ->
    ~ spec_duplicate a b /\
    exists sa sb,
      spec_start a = Some sa /\ spec_start b = Some sb /\
      (date a = date b -> sa + 60 <= sb \/ sb + 60 <= sa).
Proof.
  intros H i j a b Hij Ha Hb.
  assert (Hv : Forall (valid_event cs) (events s)).
  { apply reachable_valid. eapply reachable_by_impl; [| exact H].
    intros; exact I. }
  apply (reachable_by_impl _ _ s import_accepts_spec) in H.
  apply reachable_clean_inv in H. destruct H as [_ H].
  destruct (ForallOrdPairs_nth (compatible cs) (events s) (compatible_sym cs) H
              i j a b Hij Ha Hb) as [Hd Hc].
  rewrite Forall_forall in Hv.
  assert (Va : valid_event cs a) by (apply Hv; eapply nth_error_In; eassumption).
  assert (Vb : valid_event cs b) by (apply Hv; eapply nth_error_In; eassumption).
  split; [now rewrite <- duplicate_spec |].
  destruct (conflicts_overlap a b (proj2 Va) (proj2 Vb))
    as (sa & sb & Hsa & Hsb & _ & Hf).
  exists sa, sb. split; [exact Hsa |]. split; [exact Hsb |]. now apply Hf.
Qed.

End RulesInWords.

Lemma rules_hold_reachable_witness :
  reachable_by true (import_accepts true spec_clean_rows) two_events /\
  ~ spec_duplicate
      (mkEvent 1 "Kickoff" "01-01-2030" "09:00" "Meeting" "Hall A")
      (mkEvent 2 "Standup" "01-01-2030" "10:00" "Meeting" "Hall A") /\
  exists sa sb,
    spec_start (mkEvent 1 "Kickoff" "01-01-2030" "09:00" "Meeting" "Hall A")
    = Some sa /\
    spec_start (mkEvent 2 "Standup" "01-01-2030" "10:00" "Meeting" "Hall A")
    = Some sb /\
    ("01-01-2030" = "01-01-2030" -> sa + 60 <= sb \/ sb + 60 <= sa).
Proof.
  assert (H : reachable_by true (import_accepts true spec_clean_rows)
                two_events).
  { apply (run_reachable true _
             [OpAdd "Kickoff" "01-01-2030" "09:00" "Meeting" "Hall A" true;
              OpAdd "Standup" "01-01-2030" "10:00" "Meeting" "Hall A" true]
             init);
      [apply reach_init | repeat constructor | reflexivity]. }
  split; [exact H |].
  apply (rules_hold_reachable true two_events H 0%nat 1%nat);
    [discriminate | reflexivity | reflexivity].
Defined.

(** C2 as the specification words it fails: an import takes two rows that
    have the same name without case, date and time, and whose hours
    meet. *)
Lemma import_admits_duplicates :
  exists s a b,
    reachable true s /\
    nth_error (events s) 0 = Some a /\ nth_error (events s) 1 = Some b /\
    spec_duplicate a b /\ spec_overlap a b.
Proof.
  exists (mkStore [mkEvent 1 "Kickoff" "01-01-2030" "09:00" "Meeting" "Hall A";
                   mkEvent 2 "KICKOFF" "01-01-2030" "09:00" "Talk" "Hall B"] 3 []).
  do 2 eexists. split.
  - apply reach_step with init
      (OpImport ["1,Kickoff,01-01-2030,09:00,Meeting,Hall A";
                 "2,KICKOFF,01-01-2030,09:00,Talk,Hall B"]);
      [apply reach_init | exact I | reflexivity].
  - split; [reflexivity |]. split; [reflexivity |]. split.
    + apply duplicate_spec. repeat split; reflexivity.
    + split; [reflexivity |]. exists 540, 540.
      repeat split; reflexivity.
Qed.

(** ** The ids *)

Section CounterFits.

Variable cs : bool.

Lemma int_add_fits a b r : int_add a b = Ret r -> in_int r = true.
Proof.
  unfold int_add. destruct (in_int (a + b)) eqn:E; [| discriminate].
  intros H. apply Ret_inj in H. now subst.
Qed.

Lemma addEvent_counter_fits s n d t ty loc v o :
  in_int (nextId s) = true ->
  addEvent cs s n d t ty loc v = Ret o -> in_int (nextId (store o)) = true.
Proof.
  intros Hs H. unfold addEvent in H.
  bind_inv H. destruct (negb a); [now injection H as <- |].
  bind_inv H. destruct (negb a0); [now injection H as <- |].
  destruct (isDuplicate s n d t); [now injection H as <- |].
  bind_inv H. apply int_add_fits in Ha1.
  bind_inv H. destruct a2 as [ex |].
  - destruct v; [bind_inv H |]; injection H as <-; exact Ha1.
  - injection H as <-. exact Ha1.
Qed.

Lemma importSnapshotCSV_counter_fits s lines o :
  in_int (nextId s) = true ->
  importSnapshotCSV cs s lines = Ret o -> in_int (nextId (store o)) = true.
Proof.
  intros Hs H. unfold importSnapshotCSV in H.
  bind_inv H. destruct a as [[| e temp] m]; [now injection H as <- |].
  bind_inv H. apply int_add_fits in Ha0. now injection H as <-.
Qed.

Lemma run_op_counter_fits s o s' :
  in_int (nextId s) = true -> run_op cs s o = Ret s' ->
  in_int (nextId s') = true.
Proof.
  intros Hs H.
  destruct o as [n d t ty loc v | i inp | i | n | lines]; cbn [run_op] in H.
  - bind_inv H. injection H as <-. exact (addEvent_counter_fits _ _ _ _ _ _ _ _ Hs Ha).
  - bind_inv H. injection H as <-. apply editEventById_cases in Ha.
    destruct Ha as [[_ ->] | (pos & b & e & _ & _ & _ & _ & _ & _ & _ & ->)];
      exact Hs.
  - injection H as <-. unfold deleteById.
    destruct (Nat.eqb _ _); exact Hs.
  - injection H as <-. unfold deleteByName.
    destruct (Nat.eqb _ _); exact Hs.
  - bind_inv H. injection H as <-.
    exact (importSnapshotCSV_counter_fits _ _ _ Hs Ha).
Qed.

Lemma reachable_counter_fits ok s :
  reachable_by cs ok s -> in_int (nextId s) = true.
Proof.
  induction 1 as [| s o s' _ IH _ Hstep]; [reflexivity |].
  exact (run_op_counter_fits s o s' IH Hstep).
Qed.

(** C7 (as the code has it).  In every state that a run of adds, edits,
    deletes and imports reaches from the empty store within defined
    behaviour, where the rows every import accepts have positive, pairwise
    different ids: every live event has a positive id, no two live events
    share one, every id is below the id counter, and the counter is
    positive and fits [int].  (The import of a row with the id 2147483647
    and the add that finds the counter at 2147483647 overflow [int]: they
    are undefined behaviour and reach no state here; see
    [import_of_INT_MAX] and [addEvent_at_INT_MAX].) *)
Theorem ids_positive_unique_reachable (s : Store) :
  reachable_by cs (import_accepts cs sound_ids) s ->
  ids_positive (events s) /\ ids_unique (events s) /\
  ids_below (nextId s) (events s) /\ 0 < nextId s <= INT_MAX.
Proof.
  intros H. pose proof (reachable_counter_fits _ _ H) as Hf.
  apply reachable_sound_inv in H.
  destruct H as [[Hu Hb] [Hp Hn]].
  repeat split; auto.
  unfold in_int in Hf. apply andb_prop in Hf. lia.
Qed.

End CounterFits.

(** An import of the largest [int] as an id, and an add when the counter
    holds it, leave defined behaviour: [maxId+1] and [nextId++]
    overflow. *)
Example import_of_INT_MAX :
  run_op true init (OpImport ["2147483647,Max,02-01-2030,16:00,Talk,"]) = UB.
Proof. reflexivity. Qed.

Example addEvent_at_INT_MAX :
  run_op true (mkStore [] INT_MAX [])
    (OpAdd "Max" "02-01-2030" "16:00" "Talk" "" true) = UB.
Proof. reflexivity. Qed.

Lemma ids_positive_unique_reachable_witness :
  reachable_by true (import_accepts true sound_ids) sample_store /\
  ids_positive (events sample_store) /\ ids_unique (events sample_store) /\
  ids_below (nextId sample_store) (events sample_store) /\
  0 < nextId sample_store <= INT_MAX.
Proof.
  assert (H : reachable_by true (import_accepts true sound_ids) sample_store).
  { apply (run_reachable true _ sample_run init);
      [apply reach_init | exact sample_run_sound | exact sample_run_store]. }
  split; [exact H |].
  apply (ids_positive_unique_reachable true sample_store H).
Defined.

(** C7 as the specification words it fails: an import takes rows with a
    negative id, twice the same. *)
Lemma import_admits_bad_ids :
  exists s,
    reachable true s /\
    map id (events s) = [-5; -5] /\
    ~ ids_positive (events s) /\ ~ ids_unique (events s).
Proof.
  exists (mkStore [mkEvent (-5) "Kickoff" "01-01-2030" "09:00" "Meeting" "Hall A";
                   mkEvent (-5) "Standup" "01-01-2030" "10:00" "Meeting" "Hall A"] 1 []).
  split.
  - apply reach_step with init
      (OpImport ["-5,Kickoff,01-01-2030,09:00,Meeting,Hall A";
                 "-5,Standup,01-01-2030,10:00,Meeting,Hall A"]);
      [apply reach_init | exact I | reflexivity].
  - split; [reflexivity |]. split.
    + unfold ids_positive. cbn [events map id]. intros H.
      inversion H; subst. lia.
    + unfold ids_unique. cbn [events map id]. intros H.
      inversion H; subst. apply H2. now left.
Qed.

(** ** The order of the listing *)

Lemma ascii_compare_code c d : Ascii.compare c d = Z.compare (code c) (code d).
Proof.
  unfold Ascii.compare, code, nat_of_ascii.
  rewrite !N_nat_Z. symmetry. apply N2Z.inj_compare.
Qed.

(** The order of texts, character by character. *)
Lemma ltb_String c1 r1 c2 r2 :
  String.ltb (String c1 r1) (String c2 r2) = true <->
  code c1 < code c2 \/ (code c1 = code c2 /\ String.ltb r1 r2 = true).
Proof.
  unfold String.ltb. cbn [String.compare]. rewrite ascii_compare_code.
  destruct (Z.compare_spec (code c1) (code c2)) as [E | L | G].
  - split; [auto | intros [H | [_ H]]; [lia | exact H]].
  - split; [auto | reflexivity].
  - split; [discriminate | intros [H | [H _]]; lia].
Qed.

Lemma ltb_empty : String.ltb "" "" = false.
Proof. reflexivity. Qed.

(** A valid date, character by character, with its three numbers. *)
Lemma valid_date_fields d :
  isValidDate d = Ret true ->
  exists d1 d2 m1 m2 y1 y2 y3 y4,
    d = ddmmyyyy d1 d2 m1 m2 y1 y2 y3 y4 /\
    isdigit d1 = true /\ isdigit d2 = true /\ isdigit m1 = true /\
    isdigit m2 = true /\ isdigit y1 = true /\ isdigit y2 = true /\
    isdigit y3 = true /\ isdigit y4 = true /\
    spec_date_fields d =
    Some (10 * digit_val d1 + digit_val d2, 10 * digit_val m1 + digit_val m2,
          1000 * digit_val y1 + 100 * digit_val y2 + 10 * digit_val y3
          + digit_val y4).
Proof.
  rewrite isValidDate_eq. intros H. apply Ret_inj in H.
  unfold spec_valid_date in H.
  destruct (spec_date_fields d) as [f |] eqn:Hf; [clear H | discriminate H].
  unfold spec_date_fields in Hf.
  do 10 (destruct d as [| ? d]; [discriminate Hf |]).
  destruct d; [| discriminate Hf].
  destruct (Ascii.eqb a1 "-") eqn:S1; [| discriminate Hf].
  destruct (Ascii.eqb a4 "-") eqn:S2; [| discriminate Hf].
  apply Ascii.eqb_eq in S1, S2. subst. cbn [andb] in Hf.
  destruct (isdigit a) eqn:D1; [| discriminate Hf].
  destruct (isdigit a0) eqn:D2; [| discriminate Hf].
  destruct (isdigit a2) eqn:D3; [| discriminate Hf].
  destruct (isdigit a3) eqn:D4; [| discriminate Hf].
  destruct (isdigit a5) eqn:D5; [| discriminate Hf].
  destruct (isdigit a6) eqn:D6; [| discriminate Hf].
  destruct (isdigit a7) eqn:D7; [| discriminate Hf].
  destruct (isdigit a8) eqn:D8; [| discriminate Hf].
  cbn [andb] in Hf. injection Hf as <-.
  exists a, a0, a2, a3, a5, a6, a7, a8. repeat split; try assumption; reflexivity.
Qed.

Section ListingInWords.

Variable cs : bool.

(** The order of the rearranged dates and of the minutes is the order of
    the calendar and of the clock. *)
Lemma date_time_ordered_spec a b :
  valid_event cs a -> valid_event cs b ->
  date_time_ordered cs a b -> spec_not_later a b.
Proof.
  intros [Hda Hta] [Hdb Htb] (ya & yb & ta & tb & Hya & Hyb & Ha & Hb & H).
  destruct (valid_time_start cs a Hta) as (sa & Hsa & Hma & _).
  destruct (valid_time_start cs b Htb) as (sb & Hsb & Hmb & _).
  assert (ta = sa) by congruence. assert (tb = sb) by congruence. subst ta tb.
  destruct (valid_date_fields _ Hda)
    as (a1 & a2 & a3 & a4 & a5 & a6 & a7 & a8 & Ea & A1 & A2 & A3 & A4 & A5
        & A6 & A7 & A8 & Fa).
  destruct (valid_date_fields _ Hdb)
    as (b1 & b2 & b3 & b4 & b5 & b6 & b7 & b8 & Eb & B1 & B2 & B3 & B4 & B5
        & B6 & B7 & B8 & Fb).
  do 8 eexists. split; [exact Fa |]. split; [exact Fb |].
  split; [exact Hsa |]. split; [exact Hsb |].
  destruct H as [L | [E Hle]].
  - rewrite Ea, ymd_ddmmyyyy in Hya. rewrite Eb, ymd_ddmmyyyy in Hyb.
    apply Ret_inj in Hya, Hyb. subst ya yb.
    repeat (apply ltb_String in L;
            destruct L as [L | [? L]]; [| try (rewrite ltb_empty in L; discriminate L)]).
    all: unfold digit_val.
    all: repeat match goal with
                | D : isdigit _ = true |- _ => apply isdigit_bounds in D
                end.
    all: lia.
  - rewrite E, Fb in Fa. apply (f_equal (fun o => match o with
                                                   | Some x => x
                                                   | None => (0, 0, 0)
                                                   end)) in Fa.
    cbv beta iota in Fa.
    pose proof (f_equal (fun p => fst (fst p)) Fa) as E1.
    pose proof (f_equal (fun p => snd (fst p)) Fa) as E2.
    pose proof (f_equal snd Fa) as E3. cbn [fst snd] in E1, E2, E3.
    right. split; [lia |]. right. split; [lia |].
    right. split; [lia | exact Hle].
Qed.

(** C9.  On a store whose events all have valid dates and times,
    [listAll] returns, and the rows it prints are the live events, each
    once, in the order of the calendar and the clock: of two rows, the
    earlier one has the earlier date -- by year, then month, then day, as
    numbers, not by the text day-month-year -- or the same date and a
    start that is not later.  This holds for the sort of the model and
    for every result [std::sort] may give with the comparator of
    [listAll]. *)
Theorem listAll_sorted (s : Store) :
  Forall (valid_event cs) (events s) ->
  (exists rows,
     listAll cs s = Ret rows /\
     match rows with
     | None => events s = []
     | Some l => Permutation (events s) l /\ StronglySorted spec_not_later l
     end) /\
  (forall l, sort_result (listAll_less cs) (events s) l ->
             StronglySorted spec_not_later l).
Proof.
  intros Hv.
  assert (Hany : forall l, sort_result (listAll_less cs) (events s) l ->
                           StronglySorted spec_not_later l).
  { intros l [Hperm Hs]. apply StronglySorted_of_nth.
    intros i j a b Hij Ha Hb.
    assert (Hl : Forall (valid_event cs) l).
    { rewrite Forall_forall in *. intros x Hx. apply Hv.
      now apply (Permutation_in _ (Permutation_sym Hperm)). }
    rewrite Forall_forall in Hl.
    assert (Va : valid_event cs a) by (apply Hl; eapply nth_error_In; eassumption).
    assert (Vb : valid_event cs b) by (apply Hl; eapply nth_error_In; eassumption).
    apply (date_time_ordered_spec a b Va Vb).
    apply (not_inverted_ordered cs a b Va Vb).
    exact (Hs i j a b Hij Ha Hb). }
  split; [| exact Hany].
  unfold listAll. destruct (events s) as [| e rest] eqn:He.
  - exists None. auto.
  - destruct (std_sort_correct (listAll_less cs) (valid_event cs)
                (less_by_key cs) (listAll_less_key cs) (less_by_key_asym cs)
                (less_by_key_negtrans cs) (e :: rest) Hv)
      as (l & Hl & Hperm & Hs).
    rewrite Hl. cbn [bind]. exists (Some l). split; [reflexivity |].
    split; [exact Hperm |].
    apply Hany. split; [exact Hperm |].
    intros i j a b Hij Ha Hb.
    assert (Hvl : Forall (valid_event cs) l).
    { rewrite Forall_forall in *. intros x Hx. apply Hv.
      now apply (Permutation_in _ (Permutation_sym Hperm)). }
    rewrite Forall_forall in Hvl.
    rewrite listAll_less_key
      by (apply Hvl; eapply nth_error_In; eassumption).
    f_equal.
    exact (StronglySorted_nth _ l Hs i j a b Hij Ha Hb).
Qed.

End ListingInWords.

Lemma listAll_sorted_witness :
  Forall (valid_event true) (events unsorted_store) /\
  exists l, listAll true unsorted_store = Ret (Some l) /\
            StronglySorted spec_not_later l.
Proof.
  assert (Hv : Forall (valid_event true) (events unsorted_store))
    by (repeat constructor).
  split; [exact Hv |].
  destruct (listAll_sorted true unsorted_store Hv) as [(rows & Hr & Hs) _].
  vm_compute in Hr. injection Hr as <-.
  eexists. split; [reflexivity | exact (proj2 Hs)].
Defined.

(** ** What every result of [std::sort] has in common *)

(** A list that no two positions invert is a result of the sort, once it
    is a permutation. *)
Lemma sort_result_intro {A} (comp : A -> A -> result bool)
    (R : A -> A -> Prop) l l' :
  Permutation l l' -> StronglySorted R l' ->
  (forall a b, In a l' -> In b l' -> R a b -> comp b a = Ret false) ->
  sort_result comp l l'.
Proof.
  intros Hp Hs H. split; [exact Hp |]. intros i j a b Hij Ha Hb.
  apply H; try (eapply nth_error_In; eassumption).
  exact (StronglySorted_nth R l' Hs i j a b Hij Ha Hb).
Qed.

(** On elements that the comparator puts in a strict weak order, the
    sort of the model returns, and its result is one [std::sort] may
    give. *)
Lemma std_sort_conforms {A} (comp : A -> A -> result bool)
    (P : A -> Prop) (f : A -> A -> bool) :
  (forall a b, P a -> P b -> comp a b = Ret (f a b)) ->
  (forall a b, P a -> P b -> f a b = true -> f b a = false) ->
  (forall a b c, P a -> P b -> P c ->
                 f a b = false -> f b c = false -> f a c = false) ->
  forall l, Forall P l ->
            exists l', std_sort comp l = Ret l' /\ sort_result comp l l'.
Proof.
  intros Hc Ha Hn l Hl.
  destruct (std_sort_correct comp P f Hc Ha Hn l Hl) as (l' & Hs & Hp & Hso).
  exists l'. split; [exact Hs |]. split; [exact Hp |].
  intros i j a b Hij Hi Hj.
  assert (Hl' : Forall P l').
  { rewrite Forall_forall in *. intros x Hx. apply Hl.
    now apply (Permutation_in _ (Permutation_sym Hp)). }
  rewrite Forall_forall in Hl'.
  rewrite Hc by (apply Hl'; eapply nth_error_In; eassumption).
  f_equal. exact (StronglySorted_nth _ l' Hso i j a b Hij Hi Hj).
Qed.

(** Two arrangements of the same elements, both in an order in which
    no two different elements stand either way round, are the same
    list. *)
Lemma sorted_perm_unique {A} (R : A -> A -> Prop) (l1 : list A) :
  (forall a b, R a b -> R b a -> a = b) ->
  forall l2,
    Permutation l1 l2 -> StronglySorted R l1 -> StronglySorted R l2 -> l1 = l2.
Proof.
  intros Hanti. induction l1 as [| x l1 IH]; intros l2 Hp H1 H2.
  - apply Permutation_nil in Hp. now subst.
  - destruct l2 as [| y l2].
    { apply Permutation_sym, Permutation_nil in Hp. discriminate Hp. }
    inversion H1 as [| ? ? S1 F1]; subst. inversion H2 as [| ? ? S2 F2]; subst.
    rewrite Forall_forall in F1, F2.
    assert (x = y).
    { assert (Hy : In y (x :: l1))
        by (apply (Permutation_in _ (Permutation_sym Hp)); now left).
      assert (Hx : In x (y :: l2)) by (apply (Permutation_in _ Hp); now left).
      destruct Hy as [-> | Hy]; [reflexivity |].
      destruct Hx as [-> | Hx]; [reflexivity |].
      apply Hanti; [now apply F1 | now apply F2]. }
    subst y. f_equal. apply IH; auto.
    now apply Permutation_cons_inv in Hp.
Qed.

Lemma pair_lt_holds (p q : Z * Z) :
  True -> True ->
  pair_lt p q = Ret ((fst p <? fst q) || ((fst p =? fst q) && (snd p <? snd q))).
Proof. reflexivity. Qed.

(** The occupied hours of [suggestSlots] are sorted by a total order:
    whatever [std::sort] does, its result is that of the model. *)
Lemma pair_lt_sort_unique l l' :
  sort_result pair_lt l l' -> std_sort pair_lt l = Ret l'.
Proof.
  intros [Hperm Hs].
  destruct (std_sort_correct pair_lt (fun _ => True)
              (fun p q => (fst p <? fst q)
                          || ((fst p =? fst q) && (snd p <? snd q)))
              pair_lt_holds) with (l := l) as (l0 & Hl & Hp0 & Hs0).
  { intros a b _ _ H. lia. }
  { intros a b c _ _ _ H1 H2. lia. }
  { apply Forall_forall. auto. }
  rewrite Hl. f_equal.
  apply (sorted_perm_unique
           (fun a b => (fst b <? fst a)
                       || ((fst b =? fst a) && (snd b <? snd a)) = false)).
  - intros [a1 a2] [b1 b2]. cbn [fst snd]. intros H1 H2.
    f_equal; lia.
  - now rewrite <- Hp0.
  - exact Hs0.
  - apply StronglySorted_of_nth. intros i j a b Hij Ha Hb.
    specialize (Hs i j a b Hij Ha Hb). unfold pair_lt in Hs.
    now apply Ret_inj in Hs.
Qed.

Lemma StronglySorted_map {A B} (f : A -> B) (R : B -> B -> Prop) l :
  StronglySorted (fun a b => R (f a) (f b)) l -> StronglySorted R (map f l).
Proof.
  induction 1 as [| x l _ IH Hx]; cbn [map]; constructor; [exact IH |].
  rewrite Forall_forall in *. intros y Hy. apply in_map_iff in Hy.
  destruct Hy as (z & <- & Hz). now apply Hx.
Qed.

Lemma firstn_map {A B} (f : A -> B) n l :
  firstn n (map f l) = map f (firstn n l).
Proof.
  revert l. induction n as [| n IH]; intros [| x l]; cbn; try reflexivity.
  now rewrite IH.
Qed.

(** ** Search *)

Lemma matches_hit keyword e : matches keyword e = true <-> spec_hit keyword e.
Proof.
  unfold matches, spec_hit. now rewrite orb_true_iff, !icontains_occurs.
Qed.

Lemma spec_occurs_blank text : spec_occurs text "".
Proof. exists "", "", text. split; [reflexivity | constructor]. Qed.

Lemma by_id_sorted l l' :
  sort_result by_id l l' -> StronglySorted (fun a b => id a <= id b) l'.
Proof.
  intros [_ Hs]. apply StronglySorted_of_nth. intros i j a b Hij Ha Hb.
  specialize (Hs i j a b Hij Ha Hb). unfold by_id in Hs.
  apply Ret_inj in Hs. lia.
Qed.

(** X12.  [search] always returns.  An event is among those it looks at
    further exactly when the keyword stands in its name or in its type,
    without regard to case, somewhere in the text.  It reports that
    nothing matches exactly when no live event is such; otherwise its rows
    are those live events, each once, by id from the smallest on, and so
    is every result [std::sort] may give with the comparator of [search].
    The blank keyword matches every event. *)
Theorem search_spec (s : Store) (keyword : string) :
  (forall e, matches keyword e = true <-> spec_hit keyword e) /\
  (exists r,
     search s keyword = Ret r /\
     (r = None <-> forall e, In e (events s) -> ~ spec_hit keyword e) /\
     forall l, r = Some l ->
       sort_result by_id (filter (matches keyword) (events s)) l /\
       (forall e, In e l <-> In e (events s) /\ spec_hit keyword e)) /\
  (forall l, sort_result by_id (filter (matches keyword) (events s)) l ->
             Permutation (filter (matches keyword) (events s)) l /\
             StronglySorted (fun a b => id a <= id b) l) /\
  (forall e, spec_hit "" e).
Proof.
  split; [apply matches_hit |]. split; [| split].
  - unfold search.
    destruct (filter (matches keyword) (events s)) as [| x l] eqn:Hf.
    + exists None. split; [reflexivity |]. split; [| discriminate].
      split; [| reflexivity]. intros _ e He Hh. apply matches_hit in Hh.
      assert (K : In e (filter (matches keyword) (events s)))
        by (apply filter_In; auto).
      rewrite Hf in K. destruct K.
    + destruct (std_sort_correct by_id (fun _ => True)
                  (fun a b => id a <? id b) by_id_holds) with (l := x :: l)
        as (l' & Hl & Hperm & Hs).
      { intros a b _ _ H. lia. }
      { intros a b c _ _ _ H1 H2. lia. }
      { apply Forall_forall. auto. }
      rewrite Hl. cbn [bind]. exists (Some l'). split; [reflexivity |]. split.
      * split; [discriminate |]. intros H. exfalso.
        assert (K : In x (filter (matches keyword) (events s)))
          by (rewrite Hf; now left).
        apply filter_In in K. destruct K as [K1 K2].
        apply (H x K1). now apply matches_hit.
      * intros l0 E. injection E as <-. split.
        -- apply (sort_result_intro by_id (fun a b => (id b <? id a) = false));
             [exact Hperm | exact Hs |].
           intros a b _ _ H. unfold by_id. now rewrite H.
        -- intros e. rewrite <- matches_hit, <- filter_In, Hf.
           split; apply Permutation_in; auto. now apply Permutation_sym.
  - intros l Hs. split; [exact (proj1 Hs) | exact (by_id_sorted _ _ Hs)].
  - intros e. left. apply spec_occurs_blank.
Qed.

(** ** Statistics *)

Lemma by_count_desc_sorted l l' :
  sort_result by_count_desc l l' ->
  StronglySorted (fun p q => snd q <= snd p) l'.
Proof.
  intros [_ Hs]. apply StronglySorted_of_nth. intros i j a b Hij Ha Hb.
  specialize (Hs i j a b Hij Ha Hb). unfold by_count_desc in Hs.
  apply Ret_inj in Hs. lia.
Qed.

Lemma StronglySorted_app_le {A} (R : A -> A -> Prop) l1 l2 :
  StronglySorted R (l1 ++ l2) ->
  forall a b, In a l1 -> In b l2 -> R a b.
Proof.
  induction l1 as [| x l1 IH]; cbn [app]; intros Hs a b Ha Hb; [destruct Ha |].
  inversion Hs as [| ? ? S F]; subst. destruct Ha as [<- | Ha].
  - rewrite Forall_forall in F. apply F. apply in_or_app. now right.
  - now apply IH.
Qed.

Lemma In_firstn_In {A} n (l : list A) x : In x (firstn n l) -> In x l.
Proof.
  intros H. rewrite <- (firstn_skipn n l). apply in_or_app. now left.
Qed.

(** A key stands in the counts with the number of events that have it. *)
Lemma count_by_In key evs k n :
  In (k, n) (count_by key evs) -> n = count_key key k evs /\ 0 < n.
Proof.
  destruct (count_loop key evs [] (SSorted_nil _) (Forall_nil _))
    as (Hs & Hp & _ & Hget).
  fold (count_by key evs) in *. cbn [map_get] in Hget.
  intros Hin. rewrite Forall_forall in Hp. split.
  - rewrite <- (map_get_In _ _ _ Hs Hin). apply Hget.
  - apply (Hp _ Hin).
Qed.

(** X14.  [statistics] always returns: after the number of live events
    and the counts by type it prints the first five entries of one
    arrangement of the dates with their counts that [std::sort] may give.
    For every such arrangement, the list printed has five entries, or all
    of them when there are fewer dates; each entry is a date with the
    number of live events on it; the counts are in order from the largest
    on; no date left out has a larger count than one printed; and the
    counts printed are the same whatever arrangement the sort gives --
    only which of several dates with equal counts come first is left to
    the library. *)
Theorem statistics_top_dates (s : Store) :
  (exists v,
     sort_result by_count_desc (count_by date (events s)) v /\
     statistics s =
     Ret (("Total events: " ++ Z_to_string (Z.of_nat (List.length (events s))))
          :: "By type:" :: map count_line (count_by type (events s))
          ++ "Top 5 dates by count:" :: map count_line (firstn 5 v))) /\
  forall v,
    sort_result by_count_desc (count_by date (events s)) v ->
    List.length (firstn 5 v)
    = Nat.min 5 (List.length (count_by date (events s))) /\
    (forall d n, In (d, n) (firstn 5 v) ->
                 n = count_key date d (events s) /\ 0 < n) /\
    StronglySorted (fun p q => snd q <= snd p) (firstn 5 v) /\
    (forall p q, In p (firstn 5 v) -> In q (skipn 5 v) -> snd q <= snd p) /\
    forall v', sort_result by_count_desc (count_by date (events s)) v' ->
               map snd (firstn 5 v') = map snd (firstn 5 v).
Proof.
  split.
  - destruct (std_sort_correct by_count_desc (fun _ => True)
                (fun a b => snd a >? snd b) by_count_desc_holds)
      with (l := count_by date (events s)) as (v & Hv & Hperm & Hs).
    { intros a b _ _ H. lia. }
    { intros a b c _ _ _ H1 H2. lia. }
    { apply Forall_forall. auto. }
    exists v. split.
    + apply (sort_result_intro by_count_desc
               (fun a b => (snd b >? snd a) = false));
        [exact Hperm | exact Hs |].
      intros a b _ _ H. unfold by_count_desc. now rewrite H.
    + unfold statistics, top_dates. now rewrite Hv.
  - intros v Hv. pose proof (by_count_desc_sorted _ _ Hv) as Hs.
    destruct Hv as [Hperm Hinv].
    split; [| split; [| split; [| split]]].
    + rewrite length_firstn. now rewrite (Permutation_length Hperm).
    + intros d n Hin. apply In_firstn_In in Hin.
      apply (Permutation_in _ (Permutation_sym Hperm)) in Hin.
      now apply count_by_In.
    + rewrite <- (firstn_skipn 5 v) in Hs.
      clear - Hs. induction (firstn 5 v) as [| x l IH]; [constructor |].
      cbn [app] in Hs. inversion Hs as [| ? ? S F]; subst.
      constructor; [now apply IH |].
      rewrite Forall_forall in *. intros y Hy. apply F. apply in_or_app. now left.
    + rewrite <- (firstn_skipn 5 v) in Hs. intros p q Hp Hq.
      exact (StronglySorted_app_le _ _ _ Hs p q Hp Hq).
    + intros v' Hv'. pose proof (by_count_desc_sorted _ _ Hv') as Hs'.
      rewrite <- !firstn_map. f_equal.
      apply (sorted_perm_unique (fun p q => q <= p)); [intros; lia | | |].
      * apply Permutation_map. rewrite <- (proj1 Hv'). exact Hperm.
      * now apply StronglySorted_map.
      * now apply StronglySorted_map.
Qed.

(** ** Reminders *)

Section ReminderFacts.

Variable cs : bool.




End ReminderFacts.


(** ** Export and import *)

(** [maxId]: the largest id, and 0 when none is above 0. *)
Lemma fold_max_spec evs : forall m,
  let r := fold_left (fun m e => Z.max m (id e)) evs m in
  m <= r /\ (forall e, In e evs -> id e <= r) /\
  (r = m \/ exists e, In e evs /\ id e = r).
Proof.
  induction evs as [| x evs IH]; intros m; cbn [fold_left].
  - cbn zeta. split; [lia |]. split; [intros e [] | now left].
  - specialize (IH (Z.max m (id x))). cbn zeta in *.
    destruct IH as (H1 & H2 & H3). split; [lia |]. split.
    + intros e [<- | He]; [lia | now apply H2].
    + destruct H3 as [H3 | (e & He & H3)].
      * destruct (Z.max_spec m (id x)) as [[_ E] | [_ E]].
        -- right. exists x. split; [now left | lia].
        -- left. lia.
      * right. exists e. split; [now right | exact H3].
Qed.

Lemma max_id_spec evs :
  0 <= max_id evs /\ (forall e, In e evs -> id e <= max_id evs) /\
  (max_id evs = 0 \/ exists e, In e evs /\ id e = max_id evs).
Proof. exact (fold_max_spec evs 0). Qed.

Section RoundTripBounds.

Variable cs : bool.

Lemma export_loop (s : Store) :
  Forall (exportable cs) (events s) ->
  import_loop cs (exportSnapshotCSV s) [] 0 true
  = Ret (events s, max_id (events s)).
Proof.
  intros Hex. unfold exportSnapshotCSV. cbn [import_loop].
  change (size header =? 0) with false. cbv iota.
  change (negb (contains header ",")) with false. cbv iota.
  change (true && contains (toLower header) header) with true. cbv iota.
  rewrite (import_loop_exported cs _ Hex). cbn [app import_loop].
  reflexivity.
Qed.

(** X15.  Importing the lines that [exportSnapshotCSV] printed -- the
    header, one row per event and the closing remark -- when every event
    is one the import keeps (id other than 0, a name, valid date and
    time), its id fits [int], and its name, type and location hold no
    comma: an empty store gives lines from which nothing is imported;
    when every id is below 2147483647, the live events come back in their
    order, the id counter becomes one more than the largest id (1 when
    all ids are negative) and the attendee list of the importing store is
    kept; when an id is 2147483647, [maxId+1] overflows and the import
    leaves defined behaviour. *)
Theorem import_of_export (s s' : Store) :
  Forall (exportable cs) (events s) ->
  (events s = [] ->
   exists o, importSnapshotCSV cs s' (exportSnapshotCSV s) = Ret o /\
             store o = s') /\
  (events s <> [] -> Forall (fun e => id e < INT_MAX) (events s) ->
   exists o, importSnapshotCSV cs s' (exportSnapshotCSV s) = Ret o /\
             store o = mkStore (events s) (max_id (events s) + 1)
                               (attendeeEmails s') /\
             (forall e, In e (events s) -> id e < nextId (store o)) /\
             (nextId (store o) = 1 \/
              exists e, In e (events s) /\ nextId (store o) = id e + 1)) /\
  (Exists (fun e => id e = INT_MAX) (events s) ->
   importSnapshotCSV cs s' (exportSnapshotCSV s) = UB).
Proof.
  intros Hex. unfold importSnapshotCSV. rewrite (export_loop s Hex).
  cbn [bind]. destruct (max_id_spec (events s)) as (H0 & Hle & Hmax).
  split; [| split].
  - intros ->. eexists. split; reflexivity.
  - intros Hne Hlt. destruct (events s) as [| e rest] eqn:He; [contradiction |].
    assert (Hin : in_int (max_id (e :: rest) + 1) = true).
    { unfold in_int, INT_MIN, INT_MAX in *.
      destruct Hmax as [E | (x & Hx & E)].
      - rewrite E. reflexivity.
      - rewrite Forall_forall in Hlt. specialize (Hlt x Hx). lia. }
    unfold int_add. rewrite Hin. cbn [bind]. eexists.
    split; [reflexivity |]. split; [reflexivity |]. cbn [store nextId]. split.
    + intros x Hx. specialize (Hle x Hx). lia.
    + destruct Hmax as [E | (x & Hx & E)]; [left; lia | right].
      exists x. split; [exact Hx | lia].
  - intros Hex'. apply Exists_exists in Hex'. destruct Hex' as (x & Hx & E).
    destruct (events s) as [| e rest] eqn:He; [destruct Hx |].
    assert (Hin : in_int (max_id (e :: rest) + 1) = false).
    { specialize (Hle x Hx). unfold in_int, INT_MIN, INT_MAX in *. lia. }
    unfold int_add. now rewrite Hin.
Qed.

End RoundTripBounds.

Lemma import_of_export_witness :
  Forall (exportable true) (events unsorted_store) /\
  events unsorted_store <> [] /\
  Forall (fun e => id e < INT_MAX) (events unsorted_store) /\
  exists o,
    importSnapshotCSV true init (exportSnapshotCSV unsorted_store) = Ret o /\
    store o = mkStore (events unsorted_store)
                (max_id (events unsorted_store) + 1) (attendeeEmails init).
Proof.
  assert (Hex : Forall (exportable true) (events unsorted_store)).
  { repeat (apply Forall_cons;
            [repeat split; try reflexivity; discriminate |]).
    apply Forall_nil. }
  assert (Hne : events unsorted_store <> []) by discriminate.
  assert (Hlt : Forall (fun e => id e < INT_MAX) (events unsorted_store))
    by (repeat constructor).
  split; [exact Hex |]. split; [exact Hne |]. split; [exact Hlt |].
  destruct (proj1 (proj2 (import_of_export true unsorted_store init Hex))
              Hne Hlt) as (o & Ho & Hs & _).
  exists o. split; assumption.
Defined.

(** ** The import, line by line *)

Lemma plain_no_comma l : plain_field l = true -> contains l "," = false.
Proof.
  induction l as [| c l IH]; intros H; [reflexivity |].
  apply plain_field_cons in H. destruct H as [Hc Hl].
  cbn [contains String.prefix].
  destruct (ascii_dec "," c) as [<- | _]; [discriminate Hc |].
  now rewrite (IH Hl).
Qed.

Lemma size_zero s : (size s =? 0) = String.eqb s "".
Proof. destruct s; reflexivity. Qed.

(** The tokens of a row are its fields. *)
Lemma row_tokens e :
  well_formed (Row e) ->
  split_commas "" (csv_row e) =
  List.app [Z_to_string (id e); name e; date e; time e; type e]
           (if String.eqb (location e) "" then [] else [location e]).
Proof.
  intros (_ & Hn & Hd & Ht & Hty & Hl).
  unfold csv_row.
  change ("," ++ ?x) with (String "," x).
  rewrite (split_commas_field _ (proj2 (Z_to_string_plain (id e)))).
  change ("," ++ ?x) with (String "," x).
  rewrite (split_commas_field _ Hn).
  change ("," ++ ?x) with (String "," x).
  rewrite (split_commas_field _ Hd).
  change ("," ++ ?x) with (String "," x).
  rewrite (split_commas_field _ Ht).
  change ("," ++ ?x) with (String "," x).
  rewrite (split_commas_field _ Hty).
  rewrite (split_commas_last _ Hl).
  reflexivity.
Qed.

Lemma read_row e :
  well_formed (Row e) ->
  read_columns (split_commas "" (csv_row e)) 0 default_event = Ret e.
Proof.
  intros He. rewrite (row_tokens e He).
  destruct He as (Hi & _).
  cbn [app read_columns].
  destruct (String.eqb (Z_to_string (id e)) "") eqn:E.
  { apply String.eqb_eq in E. now apply Z_to_string_plain in E. }
  cbn [negb]. rewrite (stoi_Z_to_string _ Hi). cbn [bind].
  cbn [id name date time type location default_event].
  destruct (String.eqb (location e) "") eqn:El.
  - apply String.eqb_eq in El. cbn [read_columns bind].
    destruct e; cbn in *. now subst.
  - cbn [read_columns bind id name date time type location].
    destruct e; reflexivity.
Qed.

Lemma row_has_comma e : exists a b, csv_row e = a ++ String "," b.
Proof.
  unfold csv_row. eexists. eexists.
  change ("," ++ ?x) with (String "," x). reflexivity.
Qed.

(** A line with the header text in it holds a comma. *)
Lemma header_line_comma h : spec_occurs h header -> contains h "," = true.
Proof.
  intros (pre & mid & post & -> & Hm).
  apply toLower_same_text in Hm.
  change (toLower header) with ("id" ++ String "," "name,date,time,type,location") in Hm.
  apply toLower_split in Hm. destruct Hm as (s1 & s2 & -> & _ & H2).
  destruct s2 as [| c s2]; [discriminate H2 |].
  cbn [toLower] in H2. injection H2 as Hc _.
  assert (c = ","%char).
  { change ","%char with (tolower ",") in Hc.
    apply tolower_same_char in Hc.
    destruct Hc as [E | [[H1 H2] | [H1 H2]]]; [exact E | |];
      change (code ",") with 44 in *; lia. }
  subst c.
  replace (pre ++ (s1 ++ String "," s2) ++ post)
    with ((pre ++ s1) ++ String "," (s2 ++ post)).
  - apply contains_comma.
  - rewrite !append_assoc. reflexivity.
Qed.

Lemma header_line_size h : spec_occurs h header -> (size h =? 0) = false.
Proof.
  intros H. apply header_line_comma in H. now destruct h.
Qed.

Section ImportInWords.

Variable cs : bool.

Lemma skip_kept e :
  orM (Ret ((id e =? 0) || String.eqb (name e) ""))
      (orM (v <- isValidDate (date e) ;; Ret (negb v))
           (v <- isValidTime cs (time e) ;; Ret (negb v)))
  = Ret (negb (spec_kept e)).
Proof.
  unfold orM, spec_kept. cbn [bind].
  destruct (id e =? 0); [reflexivity |].
  destruct (String.eqb (name e) ""); [reflexivity |].
  cbn [orb negb andb]. rewrite isValidDate_eq, isValidTime_eq. cbn [bind].
  destruct (spec_valid_date (date e)); cbn [negb andb bind]; [| reflexivity].
  destruct (spec_valid_time (time e)); reflexivity.
Qed.

(** One row, read by the loop. *)
Lemma import_loop_row e rest temp m first :
  well_formed (Row e) ->
  (first = true -> ~ spec_occurs (csv_row e) header) ->
  import_loop cs (csv_row e :: rest) temp m first =
  import_loop cs rest
    (if spec_kept e then List.app temp [e] else temp)
    (if spec_kept e then Z.max m (id e) else m) false.
Proof.
  intros He Hh. cbn [import_loop].
  destruct (row_has_comma e) as (a & b & Hrow).
  assert (Hsz : (size (csv_row e) =? 0) = false)
    by (rewrite Hrow; apply size_zero_comma).
  assert (Hcm : contains (csv_row e) "," = true)
    by (rewrite Hrow; apply contains_comma).
  rewrite Hsz, Hcm. cbn [negb].
  assert (Hf : first && contains (toLower (csv_row e)) header = false).
  { destruct first; [| reflexivity]. cbn [andb].
    destruct (contains (toLower (csv_row e)) header) eqn:E; [| reflexivity].
    exfalso. apply (Hh eq_refl). apply icontains_occurs.
    unfold icontains. exact E. }
  rewrite Hf. rewrite (read_row e He). cbn [bind].
  rewrite skip_kept. cbn [bind].
  destruct (spec_kept e); reflexivity.
Qed.

Lemma import_loop_other l rest temp m first :
  well_formed (Other l) ->
  import_loop cs (l :: rest) temp m first = import_loop cs rest temp m first.
Proof.
  intros [Hne Hp]. cbn [import_loop].
  rewrite size_zero. apply String.eqb_neq in Hne. rewrite Hne.
  now rewrite (plain_no_comma l Hp).
Qed.

Lemma import_loop_header h rest temp m :
  spec_occurs h header ->
  import_loop cs (h :: rest) temp m true = import_loop cs rest temp m false.
Proof.
  intros H. cbn [import_loop].
  rewrite (header_line_size h H), (header_line_comma h H). cbn [negb andb].
  apply icontains_occurs in H. unfold icontains in H.
  change (toLower header) with header in H. now rewrite H.
Qed.

Lemma import_loop_end tail temp m first :
  tail = [] \/ (exists t, tail = "" :: t) ->
  import_loop cs tail temp m first = Ret (temp, m).
Proof. intros [-> | [t ->]]; reflexivity. Qed.

Lemma import_loop_items items : forall tail temp m first,
  Forall well_formed items ->
  (first = true ->
   forall e rest, rows_of items = e :: rest -> ~ spec_occurs (csv_row e) header) ->
  tail = [] \/ (exists t, tail = "" :: t) ->
  import_loop cs (List.app (map line_text items) tail) temp m first =
  Ret (List.app temp (filter spec_kept (rows_of items)),
       fold_left (fun m e => Z.max m (id e))
                 (filter spec_kept (rows_of items)) m).
Proof.
  induction items as [| p items IH]; intros tail temp m first Hw Hh Ht.
  - cbn [map app rows_of filter fold_left]. rewrite app_nil_r.
    now apply import_loop_end.
  - inversion Hw as [| ? ? Hp Hrest]; subst.
    destruct p as [e | l]; cbn [map app line_text rows_of].
    + rewrite (import_loop_row e _ temp m first Hp)
        by (intros F; exact (Hh F e (rows_of items) eq_refl)).
      rewrite (IH tail _ _ false Hrest) by (discriminate || exact Ht).
      cbn [filter]. destruct (spec_kept e); cbn [fold_left].
      * now rewrite <- app_assoc.
      * reflexivity.
    + rewrite (import_loop_other l _ temp m first Hp).
      apply IH; assumption.
Qed.

(** X22.  The import of pasted lines: an optional first line with the
    header text in it (in any case), then rows
    [id,name,date,time,type,location] whose texts hold no comma, among
    lines without comma, up to the first empty line or the end.  The rows
    kept are those with an id other than 0, a name, a valid date and a
    valid time, in their order.  With no row kept the store is as it was
    and "Nothing imported." is printed.  Otherwise, when every kept id is
    below 2147483647, the events are replaced by the rows kept, the id
    counter is one more than the largest of their ids (1 when all are
    negative) and the attendee list is as it was; when a kept id is
    2147483647, [maxId+1] overflows and the import leaves defined
    behaviour.  (Without a header line, a first row that has the header
    text in it would be taken for the header.) *)
Theorem importSnapshotCSV_effect (s : Store) (head : list string)
    (items : list pasted_line) (tail : list string) :
  Forall well_formed items ->
  (head = [] /\
   (forall e rest, rows_of items = e :: rest -> ~ spec_occurs (csv_row e) header))
  \/ (exists h, head = [h] /\ spec_occurs h header) ->
  tail = [] \/ (exists t, tail = "" :: t) ->
  (filter spec_kept (rows_of items) = [] ->
   importSnapshotCSV cs s (List.app head (List.app (map line_text items) tail))
   = Ret (mkOutcome tt s ["Paste CSV lines (header optional). End with a blank line.";
                          "Nothing imported."])) /\
  (filter spec_kept (rows_of items) <> [] ->
   Forall (fun e => id e < INT_MAX) (filter spec_kept (rows_of items)) ->
   exists o,
     importSnapshotCSV cs s (List.app head (List.app (map line_text items) tail)) = Ret o /\
     store o = mkStore (filter spec_kept (rows_of items))
                 (max_id (filter spec_kept (rows_of items)) + 1)
                 (attendeeEmails s) /\
     (forall e, In e (filter spec_kept (rows_of items)) ->
                id e < nextId (store o)) /\
     (nextId (store o) = 1 \/
      exists e, In e (filter spec_kept (rows_of items)) /\
                nextId (store o) = id e + 1)) /\
  (Exists (fun e => id e = INT_MAX) (filter spec_kept (rows_of items)) ->
   importSnapshotCSV cs s (List.app head (List.app (map line_text items) tail)) = UB).
Proof.
  intros Hw Hhead Ht.
  assert (Hloop :
    import_loop cs (List.app head (List.app (map line_text items) tail)) [] 0 true
    = Ret (filter spec_kept (rows_of items),
           max_id (filter spec_kept (rows_of items)))).
  { destruct Hhead as [[-> Hh] | (h & -> & Hh)]; cbn [app].
    - rewrite (import_loop_items items tail [] 0 true Hw (fun _ => Hh) Ht).
      reflexivity.
    - rewrite (import_loop_header h _ [] 0 Hh).
      rewrite (import_loop_items items tail [] 0 false Hw) by (discriminate || exact Ht).
      reflexivity. }
  unfold importSnapshotCSV. rewrite Hloop. cbn [bind].
  destruct (max_id_spec (filter spec_kept (rows_of items))) as (H0 & Hle & Hmax).
  split; [| split].
  - intros ->. reflexivity.
  - intros Hne Hlt.
    destruct (filter spec_kept (rows_of items)) as [| e rest] eqn:He;
      [contradiction |].
    assert (Hin : in_int (max_id (e :: rest) + 1) = true).
    { unfold in_int, INT_MIN, INT_MAX in *.
      destruct Hmax as [E | (x & Hx & E)].
      - rewrite E. reflexivity.
      - rewrite Forall_forall in Hlt. specialize (Hlt x Hx). lia. }
    unfold int_add. rewrite Hin. cbn [bind]. eexists.
    split; [reflexivity |]. split; [reflexivity |]. cbn [store nextId]. split.
    + intros x Hx. specialize (Hle x Hx). lia.
    + destruct Hmax as [E | (x & Hx & E)]; [left; lia | right].
      exists x. split; [exact Hx | lia].
  - intros Hex. apply Exists_exists in Hex. destruct Hex as (x & Hx & E).
    destruct (filter spec_kept (rows_of items)) as [| e rest] eqn:He;
      [destruct Hx |].
    assert (Hin : in_int (max_id (e :: rest) + 1) = false).
    { specialize (Hle x Hx). unfold in_int, INT_MIN, INT_MAX in *. lia. }
    unfold int_add. now rewrite Hin.
Qed.

End ImportInWords.

Lemma importSnapshotCSV_effect_witness :
  Forall well_formed
    [Row (mkEvent 7 "Review" "02-01-2030" "14:00" "Talk" "Room 2");
     Other "x";
     Row (mkEvent 8 "Broken" "31-04-2030" "15:00" "Talk" "Room 2");
     Row (mkEvent 0 "Zero" "02-01-2030" "16:00" "Talk" "")] /\
  spec_occurs "ID,Name,Date,Time,Type,Location" header /\
  exists o,
    importSnapshotCSV true two_events
      ["ID,Name,Date,Time,Type,Location";
       "7,Review,02-01-2030,14:00,Talk,Room 2";
       "x";
       "8,Broken,31-04-2030,15:00,Talk,Room 2";
       "0,Zero,02-01-2030,16:00,Talk,";
       "";
       "9,Late,02-01-2030,17:00,Talk,"] = Ret o /\
    store o = mkStore [mkEvent 7 "Review" "02-01-2030" "14:00" "Talk" "Room 2"]
                8 [].
Proof.
  assert (Hw : Forall well_formed
    [Row (mkEvent 7 "Review" "02-01-2030" "14:00" "Talk" "Room 2");
     Other "x";
     Row (mkEvent 8 "Broken" "31-04-2030" "15:00" "Talk" "Room 2");
     Row (mkEvent 0 "Zero" "02-01-2030" "16:00" "Talk" "")]).
  { repeat (apply Forall_cons; [repeat split; try reflexivity; discriminate |]).
    apply Forall_nil. }
  assert (Hh : spec_occurs "ID,Name,Date,Time,Type,Location" header).
  { exists "", "ID,Name,Date,Time,Type,Location", "".
    split; [reflexivity |]. now apply iequals_same_text. }
  split; [exact Hw |]. split; [exact Hh |].
  destruct (proj1 (proj2 (importSnapshotCSV_effect true two_events
              ["ID,Name,Date,Time,Type,Location"] _
              [""; "9,Late,02-01-2030,17:00,Talk,"] Hw
              (or_intror (ex_intro _ _ (conj eq_refl Hh)))
              (or_intror (ex_intro _ _ eq_refl)))))
    as (o & Ho & Hs & _).
  - discriminate.
  - repeat constructor.
  - exists o. split; assumption.
Defined.

(** ** The attendee paste, word by word *)

Lemma pasted_text_joined lines : pasted_text lines = spec_joined lines.
Proof.
  unfold spec_joined. induction lines as [| l rest IH];
    cbn [pasted_text spec_before_blank fold_right]; [reflexivity |].
  replace (size l =? 0) with (String.eqb l "") by (now destruct l). destruct (String.eqb l ""); [reflexivity |].
  cbn [fold_right]. now rewrite IH.
Qed.

Lemma pasted_text_before lines :
  pasted_text (spec_before_blank lines) = pasted_text lines.
Proof.
  induction lines as [| l rest IH]; cbn [spec_before_blank]; [reflexivity |].
  destruct (String.eqb l "") eqn:E.
  - apply String.eqb_eq in E. now subst.
  - cbn [pasted_text]. rewrite IH. reflexivity.
Qed.

Lemma spec_blank_cons c g :
  spec_blank (String c g) <-> isspace c = true /\ spec_blank g.
Proof.
  unfold spec_blank. cbn [list_ascii_of_string]. split.
  - intros H. inversion H; subst. auto.
  - intros [H1 H2]. now constructor.
Qed.

Lemma spec_word_chars_cons c w :
  Forall (fun c => isspace c = false) (list_ascii_of_string (String c w)) <->
  isspace c = false /\
  Forall (fun c => isspace c = false) (list_ascii_of_string w).
Proof.
  cbn [list_ascii_of_string]. split.
  - intros H. inversion H; subst. auto.
  - intros [H1 H2]. now constructor.
Qed.

Lemma tokens_blank g : forall rest,
  spec_blank g -> tokens "" (g ++ rest) = tokens "" rest.
Proof.
  induction g as [| c g IH]; intros rest H; [reflexivity |].
  apply spec_blank_cons in H. destruct H as [Hc Hg].
  cbn [append tokens]. rewrite Hc. cbn. now apply IH.
Qed.

Lemma tokens_gap tok g rest :
  tok <> "" -> g <> "" -> spec_blank g ->
  tokens tok (g ++ rest) = tok :: tokens "" rest.
Proof.
  intros Ht Hne H. destruct g as [| c g]; [contradiction |].
  apply spec_blank_cons in H. destruct H as [Hc Hg].
  cbn [append tokens]. rewrite Hc.
  apply String.eqb_neq in Ht. rewrite Ht. f_equal. now apply tokens_blank.
Qed.

Lemma tokens_word w : forall tok rest,
  Forall (fun c => isspace c = false) (list_ascii_of_string w) ->
  tokens tok (w ++ rest) = tokens (tok ++ w) rest.
Proof.
  induction w as [| c w IH]; intros tok rest H.
  - now rewrite append_nil_r.
  - apply spec_word_chars_cons in H. destruct H as [Hc Hw].
    cbn [append tokens]. rewrite Hc. rewrite (IH _ _ Hw).
    now rewrite append_assoc.
Qed.

Lemma tokens_last tok g :
  tok <> "" -> spec_blank g -> tokens tok g = [tok].
Proof.
  intros Ht H. destruct g as [| c g].
  - cbn [tokens]. apply String.eqb_neq in Ht. now rewrite Ht.
  - rewrite <- (append_nil_r (String c g)).
    rewrite tokens_gap; [reflexivity | exact Ht | discriminate | exact H].
Qed.

(** The words of a text are the tokens [ss >> token] delivers. *)
Lemma tokens_spaced ws : forall g0,
  spaced_ok g0 ws -> tokens "" (spec_spaced g0 ws) = map fst ws.
Proof.
  induction ws as [| [w g] ws IH]; intros g0 (Hg & Hw & Ha).
  - cbn [spec_spaced map]. rewrite <- (append_nil_r g0).
    now rewrite tokens_blank.
  - inversion Hw as [| ? ? [[Hne Hch] Hbl] Hrest]; subst.
    cbn [fst snd] in *. cbn [spec_spaced map fst].
    rewrite (tokens_blank g0 _ Hg), (tokens_word w _ _ Hch).
    cbn [append]. destruct ws as [| [w2 g2] ws].
    + cbn [spec_spaced map]. now apply tokens_last.
    + destruct Ha as [Hgne Ha].
      change (spec_spaced g ((w2, g2) :: ws))
        with (g ++ w2 ++ spec_spaced g2 ws).
      rewrite (tokens_gap w g _ Hne Hgne Hbl). f_equal.
      specialize (IH "" (conj (Forall_nil _) (conj Hrest Ha))).
      cbn [spec_spaced append] in IH. exact IH.
Qed.

(** Every text is white space and words. *)
Lemma spaced_exists text : exists g0 ws, spaced_ok g0 ws /\ text = spec_spaced g0 ws.
Proof.
  induction text as [| c text (g0 & ws & (Hg & Hw & Ha) & ->)].
  - exists "", []. repeat split; constructor.
  - destruct (isspace c) eqn:Hc.
    + exists (String c g0), ws. split.
      * split; [now apply spec_blank_cons |]. split; assumption.
      * destruct ws as [| [w g] ws]; reflexivity.
    + destruct g0 as [| c0 g0'].
      * destruct ws as [| [w g] ws].
        -- exists "", [(String c "", "")]. split; [| reflexivity].
           split; [constructor |]. split; [| exact I].
           constructor; [| constructor]. cbn [fst snd]. split.
           ++ split; [discriminate |]. repeat constructor. exact Hc.
           ++ constructor.
        -- exists "", ((String c w, g) :: ws). split; [| reflexivity].
           split; [constructor |].
           inversion Hw as [| ? ? [[Hne Hch] Hbl] Hrest]; subst.
           cbn [fst snd] in *. split.
           ++ constructor; [| exact Hrest]. cbn [fst snd]. split; [| exact Hbl].
              split; [discriminate |]. now apply spec_word_chars_cons.
           ++ exact Ha.
      * exists "", ((String c "", String c0 g0') :: ws). split.
        -- split; [constructor |]. split.
           ++ constructor; [| exact Hw]. cbn [fst snd]. split; [| exact Hg].
              split; [discriminate |]. repeat constructor. exact Hc.
           ++ destruct ws as [| p ws]; [exact I |].
              split; [discriminate | exact Ha].
        -- destruct ws as [| [w g] ws]; reflexivity.
Qed.

Lemma back_get w : back w = String.get (String.length w - 1) w.
Proof.
  induction w as [| c w IH]; [reflexivity |].
  destruct w as [| c' w']; [reflexivity |].
  change (back (String c (String c' w'))) with (back (String c' w')).
  rewrite IH. cbn [String.length Nat.sub String.get]. now rewrite Nat.sub_0_r.
Qed.

Lemma pop_back_substring w :
  pop_back w = String.substring 0 (String.length w - 1) w.
Proof.
  induction w as [| c w IH]; [reflexivity |].
  destruct w as [| c' w']; [reflexivity |].
  change (pop_back (String c (String c' w')))
    with (String c (pop_back (String c' w'))).
  rewrite IH. cbn [String.length Nat.sub String.substring].
  now rewrite Nat.sub_0_r.
Qed.

Lemma strip_separator_spec w : strip_separator w = spec_strip w.
Proof.
  unfold strip_separator, spec_strip. rewrite back_get.
  destruct (String.get _ w); [| reflexivity].
  now rewrite pop_back_substring.
Qed.

Lemma contains_char w c :
  contains w (String c "") = existsb (Ascii.eqb c) (list_ascii_of_string w).
Proof.
  induction w as [| d w IH]; [reflexivity |].
  cbn [contains String.prefix list_ascii_of_string existsb]. rewrite IH.
  f_equal. destruct (ascii_dec c d) as [-> | Hne].
  - rewrite Ascii.eqb_refl. now destruct w.
  - symmetry. now apply Ascii.eqb_neq.
Qed.

Lemma isEmail_spec w : isEmail w = spec_email w.
Proof. unfold isEmail, spec_email. now rewrite !contains_char. Qed.

(** X19.  [loadAttendeesFromPaste] leaves the events and the id counter
    as they are and replaces the attendee list; what follows the first
    empty line is not read.  The lines before it, each with a space after
    it, make one text; that text is white space and words, and however it
    is read so, the new attendee list is, in the order of the text, every
    word that has an ['@'] and a ['.'] in it once one closing [','] or
    [';'] is taken off.  Nothing of the former list remains. *)
Theorem loadAttendeesFromPaste_spec (s : Store) (lines : list string) :
  (exists emails,
     loadAttendeesFromPaste s lines =
     mkOutcome tt (mkStore (events s) (nextId s) emails)
       ["Paste emails (comma/space/newline separated). End with a blank line.";
        "Loaded " ++ Z_to_string (Z.of_nat (List.length emails))
        ++ " attendee emails."]) /\
  loadAttendeesFromPaste s lines
  = loadAttendeesFromPaste s (spec_before_blank lines) /\
  (exists g0 ws, spaced_ok g0 ws /\ spec_joined lines = spec_spaced g0 ws) /\
  (forall g0 ws,
     spaced_ok g0 ws -> spec_joined lines = spec_spaced g0 ws ->
     attendeeEmails (store (loadAttendeesFromPaste s lines))
     = filter spec_email (map spec_strip (map fst ws))).
Proof.
  split; [eexists; reflexivity |]. split; [| split].
  - unfold loadAttendeesFromPaste. now rewrite pasted_text_before.
  - apply spaced_exists.
  - intros g0 ws Hok Htext. unfold loadAttendeesFromPaste.
    cbn [store attendeeEmails].
    rewrite pasted_text_joined, Htext, (tokens_spaced ws g0 Hok).
    rewrite (map_ext _ _ strip_separator_spec).
    apply filter_ext. intros w. apply isEmail_spec.
Qed.
